(** * CloudVault: chunked, encrypted storage over the Telegram Bot API

    A shallow embedding of [lib/telegram.ts] (class [TelegramStorage]) and of
    the upload manager ([UploadManagerProvider]), with the properties of the
    storage gateway proved over it.

    Conventions.
    - JavaScript numbers that hold integers are [Z]; loop counters that only
      count iterations are [nat].
    - A [Buffer] is a list of bytes.
    - An [async] method is a function from the world before the call to the
      settled promise (fulfilled with a value or rejected with an error) and
      the world after it.  The world carries the clock, the state of the
      remote server, the requests dispatched so far and the number of random
      draws made so far.
    - Whatever the program does not control is a field of a class: the
      remote server and the random sources in [Platform]; the AES block
      function, OpenSSL's password-to-key derivation, SHA-256 and the process
      secret in [CryptoLib]. *)

From Stdlib Require Import ZArith Lia Bool QArith.
From Stdlib Require Import Strings.Byte.
From Stdlib Require Import Sorting.Permutation.
From stdpp Require Import base list strings gmap pretty sorting.

Local Open Scope Z_scope.

(** ** Buffers and errors *)

Definition Buffer := list byte.

(** [buf.length] *)
Definition buffer_length (b : Buffer) : Z := Z.of_nat (length b).

(** [Buffer.concat(list)] *)
Definition Buffer_concat (bs : list Buffer) : Buffer := concat bs.

(** An index argument of [slice], made relative to the buffer as Node does:
    negative values count from the end, everything is clamped to
    [0 .. length]. *)
Definition slice_index (len i : Z) : Z :=
  if i <? 0 then Z.max (len + i) 0 else Z.min i len.

(** [buf.slice(start, end)] *)
Definition buffer_slice (b : Buffer) (start end_ : Z) : Buffer :=
  let len := buffer_length b in
  let s := slice_index len start in
  let e := slice_index len end_ in
  if s <? e then take (Z.to_nat (e - s)) (drop (Z.to_nat s) b) else [].

(** A thrown JavaScript [Error]: its [name] and its [message]. *)
Record JsError := mkError { err_name : string; err_message : string }.

(** [new Error(msg)] *)
Definition Error (msg : string) : JsError := mkError "Error" msg.

(** The rejection of an aborted [fetch] and of an aborted [sleep]. *)
Definition AbortError (msg : string) : JsError := mkError "AbortError" msg.

(** Reading a property of [undefined]. *)
Definition TypeError (msg : string) : JsError := mkError "TypeError" msg.

(** A computation that returns or throws. *)
Inductive Result (A : Type) : Type :=
| Ok (a : A)
| Throw (e : JsError).
Arguments Ok {A} a.
Arguments Throw {A} e.

Definition is_ok {A} (r : Result A) : bool :=
  match r with Ok _ => true | Throw _ => false end.

(** [`${n}`] for an integer. *)
Definition show (n : Z) : string := pretty n.

(** ** The crypto unit

    [crypto.createCipher('aes-256-cbc', password)] is OpenSSL's EVP cipher in
    CBC mode with PKCS#7 padding; the key and the initialisation vector are
    both derived from the password by [EVP_BytesToKey], with no salt and no
    random input.  The AES block function, the derivation and SHA-256 are
    taken from the library; the mode and the padding are written out. *)

Class CryptoLib := {
  AesKey : Type;
  (** OpenSSL's derivation of (key, iv) from the password *)
  EVP_BytesToKey : string -> AesKey * Buffer;
  aes_encrypt_block : AesKey -> Buffer -> Buffer;
  aes_decrypt_block : AesKey -> Buffer -> Buffer;
  (** [crypto.createHash('sha256').update(b).digest('hex')] *)
  sha256_hex : Buffer -> string;
  (** [process.env.NEXTAUTH_SECRET], as it prints in a template string *)
  NEXTAUTH_SECRET : string;
}.

Definition AES_BLOCK : nat := 16.

(** What the program relies on from the library: an IV of one block, and a
    block function that is inverted by the block inverse. *)
Record CryptoLaws (C : CryptoLib) : Prop := {
  iv_length : forall pw, length (EVP_BytesToKey pw).2 = AES_BLOCK;
  encrypt_block_length :
    forall k b, length b = AES_BLOCK -> length (aes_encrypt_block k b) = AES_BLOCK;
  decrypt_encrypt_block :
    forall k b, length b = AES_BLOCK -> aes_decrypt_block k (aes_encrypt_block k b) = b;
}.

Definition byte_xor (a b : byte) : byte :=
  let '(a0, (a1, (a2, (a3, (a4, (a5, (a6, a7))))))) := Byte.to_bits a in
  let '(b0, (b1, (b2, (b3, (b4, (b5, (b6, b7))))))) := Byte.to_bits b in
  Byte.of_bits (xorb a0 b0, (xorb a1 b1, (xorb a2 b2, (xorb a3 b3,
               (xorb a4 b4, (xorb a5 b5, (xorb a6 b6, xorb a7 b7))))))).

Definition xor_block (a b : Buffer) : Buffer := zip_with byte_xor a b.

Definition byte_of_nat (n : nat) : byte :=
  match Byte.of_nat n with Some b => b | None => x00 end.

(** PKCS#7: the last, partial block is filled with [n] bytes of value [n],
    [n] between 1 and the block size. *)
Definition pkcs7_pad (rest : Buffer) : Buffer :=
  let n := (AES_BLOCK - length rest)%nat in
  rest ++ replicate n (byte_of_nat n).

Definition bad_decrypt : JsError := Error "bad decrypt".
Definition wrong_final_block_length : JsError := Error "wrong final block length".

(** [EVP_DecryptFinal_ex]'s padding check on the held-back block. *)
Definition pkcs7_unpad (block : Buffer) : Result Buffer :=
  match last block with
  | None => Throw bad_decrypt
  | Some b =>
      let n := Byte.to_nat b in
      if ((n =? 0) || (AES_BLOCK <? n))%nat then Throw bad_decrypt
      else if forallb (Byte.eqb b) (drop (AES_BLOCK - n) block)
           then Ok (take (AES_BLOCK - n) block)
           else Throw bad_decrypt
  end.

Section Cipher.
Context `{C : CryptoLib}.

(** CBC over the first [n] blocks of [data], chained from [prev]; returns
    the output and the new chaining value. *)
Fixpoint cbc_encrypt (k : AesKey) (prev : Buffer) (n : nat) (data : Buffer)
  : Buffer * Buffer :=
  match n with
  | O => ([], prev)
  | S n' =>
      let c := aes_encrypt_block k (xor_block (take AES_BLOCK data) prev) in
      let '(out, last) := cbc_encrypt k c n' (drop AES_BLOCK data) in
      (c ++ out, last)
  end.

Fixpoint cbc_decrypt (k : AesKey) (prev : Buffer) (n : nat) (data : Buffer)
  : Buffer * Buffer :=
  match n with
  | O => ([], prev)
  | S n' =>
      let c := take AES_BLOCK data in
      let p := xor_block (aes_decrypt_block k c) prev in
      let '(out, last) := cbc_decrypt k c n' (drop AES_BLOCK data) in
      (p ++ out, last)
  end.

(** The cipher object: key, chaining value, bytes not yet forming a block. *)
Record Cipher := mkCipher {
  c_key : AesKey;
  c_chain : Buffer;
  c_buf : Buffer;
}.

(** [crypto.createCipher('aes-256-cbc', password)] *)
Definition createCipher (password : string) : Cipher :=
  let '(k, iv) := EVP_BytesToKey password in mkCipher k iv [].

(** [cipher.update(data)]: every complete block is encrypted, the rest
    stays in the object. *)
Definition cipher_update (c : Cipher) (data : Buffer) : Buffer * Cipher :=
  let input := c_buf c ++ data in
  let n := (length input / AES_BLOCK)%nat in
  let '(out, last) := cbc_encrypt (c_key c) (c_chain c) n input in
  (out, mkCipher (c_key c) last (drop (n * AES_BLOCK) input)).

(** [cipher.final()]: the padded last block. *)
Definition cipher_final (c : Cipher) : Buffer :=
  aes_encrypt_block (c_key c) (xor_block (pkcs7_pad (c_buf c)) (c_chain c)).

(** The decipher object also holds back the last decrypted block, whose
    padding [final] has to check. *)
Record Decipher := mkDecipher {
  d_key : AesKey;
  d_chain : Buffer;
  d_buf : Buffer;
  d_final : option Buffer;
}.

(** [crypto.createDecipher('aes-256-cbc', password)] *)
Definition createDecipher (password : string) : Decipher :=
  let '(k, iv) := EVP_BytesToKey password in mkDecipher k iv [] None.

(** [decipher.update(data)] ([EVP_DecryptUpdate]): a block held back by an
    earlier call is released first; complete blocks are decrypted; when the
    input ends on a block boundary the last decrypted block is held back. *)
Definition decipher_update (d : Decipher) (data : Buffer) : Buffer * Decipher :=
  match data with
  | [] => ([], d)
  | _ =>
      let input := d_buf d ++ data in
      let n := (length input / AES_BLOCK)%nat in
      let '(plain, last) := cbc_decrypt (d_key d) (d_chain d) n input in
      let rest := drop (n * AES_BLOCK) input in
      let held := match d_final d with Some b => b | None => [] end in
      match rest, n with
      | [], S n' =>
          (held ++ take (n' * AES_BLOCK) plain,
           mkDecipher (d_key d) last [] (Some (drop (n' * AES_BLOCK) plain)))
      | _, _ => (held ++ plain, mkDecipher (d_key d) last rest None)
      end
  end.

(** [decipher.final()] ([EVP_DecryptFinal_ex]) *)
Definition decipher_final (d : Decipher) : Result Buffer :=
  match d_buf d, d_final d with
  | [], Some block => pkcs7_unpad block
  | _, _ => Throw wrong_final_block_length
  end.

(** [generateEncryptionKey(fileId, chunkIndex)] *)
Definition generateEncryptionKey (fileId : string) (chunkIndex : Z) : string :=
  sha256_hex (String.list_byte_of_string
    (fileId +:+ "_" +:+ show chunkIndex +:+ "_" +:+ NEXTAUTH_SECRET)).

(** [encryptChunk(chunk, key)] *)
Definition encryptChunk (chunk : Buffer) (key : string) : Buffer :=
  let cipher := createCipher key in
  let '(head, cipher') := cipher_update cipher chunk in
  Buffer_concat [head; cipher_final cipher'].

(** [decryptChunk(encryptedChunk, key)]; [final] throws on a ciphertext
    that is not a whole number of blocks or whose padding is wrong. *)
Definition decryptChunk (encryptedChunk : Buffer) (key : string) : Result Buffer :=
  let decipher := createDecipher key in
  let '(head, decipher') := decipher_update decipher encryptedChunk in
  match decipher_final decipher' with
  | Ok tail => Ok (Buffer_concat [head; tail])
  | Throw e => Throw e
  end.

(** The plaintext as the cipher sees it: the complete blocks followed by
    the padded last block. *)
Definition padded (chunk : Buffer) : Buffer :=
  let n := (length chunk / AES_BLOCK)%nat in
  take (n * AES_BLOCK) chunk ++ pkcs7_pad (drop (n * AES_BLOCK) chunk).

End Cipher.

(** ** The Bot API as the program sees it *)

Record TelegramDocument := {
  file_name : string;
  mime_type : string;
  doc_file_id : string;
  doc_file_unique_id : string;
  doc_file_size : Z;
}.

Record TelegramMessage := {
  message_id : Z;
  document : option TelegramDocument;
}.

Record TelegramFile := {
  file_id : string;
  file_unique_id : string;
  file_size : Z;
  file_path : option string;
}.

Record TelegramChunk := mkChunk {
  chunkId : string;
  chunkIndex : Z;
  messageId : Z;
  encryptedHash : string;
  fileId : option string;
}.

(** [chunk.fileId], where a parameter of the same name is in scope *)
Definition chunk_fileId (c : TelegramChunk) : option string := fileId c.

(** The three calls the class makes.  The bot token is part of every URL and
    is left out; the chat id is the second field of the upload form. *)
Inductive Request :=
| ReqSendDocument (chat_id : string) (doc : Buffer) (filename : string)
| ReqGetFile (file_id : string)
| ReqDownloadFile (file_path : string).

(** The [result] member of a parsed reply, through the interface the caller
    casts it to. *)
Inductive ApiResult :=
| ResMessage (m : TelegramMessage)
| ResFile (f : TelegramFile).

(** A reply body that [JSON.parse] accepts.  [api_ok] is [false] exactly when
    the body says [ok: false]; an absent description is the empty string. *)
Record ApiResponse := {
  api_ok : bool;
  api_description : string;
  api_result : option ApiResult;
}.

Record Response := {
  status : Z;
  statusText : string;
  (** the [Retry-After] header in milliseconds, when it is present, not
      empty and numeric *)
  retry_after_ms : option Z;
  (** [await response.text()] *)
  body_text : string;
  (** [JSON.parse] of the text, [None] when it throws *)
  body_json : option ApiResponse;
  (** [await response.arrayBuffer()] *)
  body_bytes : Buffer;
}.

(** [response.ok] *)
Definition ok (r : Response) : bool := (200 <=? status r) && (status r <=? 299).

(** What the network does with one dispatched request. *)
Inductive Outcome :=
| Responds (latency : N) (r : Response)
| Fails (latency : N) (e : JsError)
| Silent.

(** A cancellation token.  Its owner aborts it at [abort_time], or never. *)
Record AbortSignal := { abort_time : option Z }.

(** [signal.aborted], read at time [t] *)
Definition aborted (s : AbortSignal) (t : Z) : bool :=
  match abort_time s with
  | Some a => a <=? t
  | None => false
  end.

(** [externalSignal?.aborted] *)
Definition aborted_opt (s : option AbortSignal) (t : Z) : bool :=
  match s with
  | Some s => aborted s t
  | None => false
  end.

Class Platform := {
  ServerState : Type;
  (** the remote end: its reply to a request dispatched at a given time *)
  serve : ServerState -> Z -> Request -> Outcome * ServerState;
  (** [Math.floor(Math.random() * m)] at the k-th draw *)
  random_floor : nat -> Z -> Z;
  (** [crypto.randomUUID()] at the k-th call *)
  randomUUID : nat -> string;
  (** [process.env.NEXT_TELEGRAM_CHANNEL_ID] *)
  TELEGRAM_CHANNEL_ID : string;
}.

Section Async.
Context `{P : Platform}.

Record World := mkWorld {
  now : Z;                       (* the clock, in milliseconds *)
  server : ServerState;
  sent : list (Z * Request);     (* requests dispatched, oldest first *)
  draws : nat;                   (* calls of Math.random so far *)
  uuids : nat;                   (* calls of randomUUID so far *)
}.

(** An [async] computation. *)
Definition Async (A : Type) : Type := World -> Result A * World.

Definition ret {A} (a : A) : Async A := fun w => (Ok a, w).
Definition throw {A} (e : JsError) : Async A := fun w => (Throw e, w).

Definition bind {A B} (m : Async A) (f : A -> Async B) : Async B :=
  fun w =>
    match m w with
    | (Ok a, w') => f a w'
    | (Throw e, w') => (Throw e, w')
    end.

(** [try { m } catch (err) { h err }] *)
Definition try_catch {A} (m : Async A) (h : JsError -> Async A) : Async A :=
  fun w =>
    match m w with
    | (Ok a, w') => (Ok a, w')
    | (Throw e, w') => h e w'
    end.

Definition set_now (t : Z) (w : World) : World :=
  mkWorld t (server w) (sent w) (draws w) (uuids w).

(** [Math.floor(Math.random() * m)] *)
Definition Math_random_floor (m : Z) : Async Z :=
  fun w => (Ok (random_floor (draws w) m),
            mkWorld (now w) (server w) (sent w) (S (draws w)) (uuids w)).

(** [crypto.randomUUID()] *)
Definition crypto_randomUUID : Async string :=
  fun w => (Ok (randomUUID (uuids w)),
            mkWorld (now w) (server w) (sent w) (draws w) (S (uuids w))).

(** [signal?.aborted] at the current instant *)
Definition read_aborted (s : option AbortSignal) : Async bool :=
  fun w => (Ok (aborted_opt s (now w)), w).

Definition Aborted : JsError := AbortError "Aborted".

(** [sleep(ms, signal)]: resolves after [ms], or rejects with an
    [AbortError] as soon as the signal is aborted: at once when it already
    is, otherwise at the abort. *)
Definition sleep (ms : Z) (signal : option AbortSignal) : Async unit :=
  fun w =>
    let t := now w in
    let wake := t + Z.max 0 ms in
    match signal with
    | Some s =>
        match abort_time s with
        | Some a =>
            if a <=? t then (Throw Aborted, w)
            else if a <=? wake then (Throw Aborted, set_now a w)
            else (Ok tt, set_now wake w)
        | None => (Ok tt, set_now wake w)
        end
    | None => (Ok tt, set_now wake w)
    end.

Definition fetch_aborted : JsError := AbortError "This operation was aborted".

(** [fetch(url, { signal: controller.signal })], where the controller is
    aborted at [ctrl].  With a signal that is already aborted nothing is
    dispatched.  Otherwise the request goes out and the promise settles
    with the reply, unless the controller is aborted first. *)
Definition fetch (req : Request) (ctrl : Z) : Async Response :=
  fun w =>
    let t := now w in
    if ctrl <=? t then (Throw fetch_aborted, w)
    else
      let '(o, s') := serve (server w) t req in
      let w' := mkWorld t s' (sent w ++ [(t, req)]) (draws w) (uuids w) in
      match o with
      | Responds lat r =>
          if t + Z.of_N lat <? ctrl then (Ok r, set_now (t + Z.of_N lat) w')
          else (Throw fetch_aborted, set_now ctrl w')
      | Fails lat e =>
          if t + Z.of_N lat <? ctrl then (Throw e, set_now (t + Z.of_N lat) w')
          else (Throw fetch_aborted, set_now ctrl w')
      | Silent => (Throw fetch_aborted, set_now ctrl w')
      end.

End Async.

Notation "x <- m ;; k" := (bind m (fun x => k))
  (at level 100, m at next level, right associativity).
Notation "m ;;; k" := (bind m (fun _ => k))
  (at level 100, right associativity).

(** ** class TelegramStorage *)

Definition CHUNK_SIZE : Z := 5 * 1024 * 1024.

(** [a || b] on strings: the empty string is falsy. *)
Definition js_or (a b : string) : string :=
  match a with
  | EmptyString => b
  | _ => a
  end.

(** [!s] for an optional string: [undefined] and the empty string are falsy. *)
Definition falsy (s : option string) : bool :=
  match s with
  | None => true
  | Some EmptyString => true
  | Some _ => false
  end.

(** [Math.ceil(a / b)] for integers, [b] positive. *)
Definition ceil_div (a b : Z) : Z := (a + b - 1) / b.

(** [retryStatuses.includes(s)] *)
Definition includes (l : list Z) (s : Z) : bool := existsb (Z.eqb s) l.

(** [Array.prototype.sort] with a comparator: a stable sort.  [x] goes in
    front of the first element that does not compare below it. *)
Fixpoint insert_by {A} (cmp : A -> A -> Z) (x : A) (l : list A) : list A :=
  match l with
  | [] => [x]
  | y :: l' => if cmp x y <=? 0 then x :: y :: l' else y :: insert_by cmp x l'
  end.

Definition Array_sort {A} (cmp : A -> A -> Z) (l : list A) : list A :=
  foldr (insert_by cmp) [] l.

Definition default_retryStatuses : list Z := [429; 500; 502; 503; 504].

Section TelegramStorage.
Context `{C : CryptoLib} `{P : Platform}.

(** The controller of one attempt: aborted at once when the caller's signal
    already is, at the caller's abort, and after [timeoutMs]. *)
Definition attempt_controller (externalSignal : option AbortSignal)
    (timeoutMs t : Z) : Z :=
  match externalSignal with
  | Some {| abort_time := Some a |} => Z.min a (t + timeoutMs)
  | _ => t + timeoutMs
  end.

(** The delay of the backoff before attempt [attempt + 1]. *)
Definition backoff (baseDelayMs : Z) (attempt : nat) (jitter : Z) : Z :=
  baseDelayMs * 2 ^ Z.of_nat attempt + jitter.

(** One turn of the loop of [fetchWithRetry]: [Some res] when the function
    returns [res], [None] when the loop goes on. *)
Definition fetchWithRetry_attempt (req : Request) (timeoutMs : Z)
    (externalSignal : option AbortSignal) (retryStatuses : list Z)
    (retries : nat) (baseDelayMs : Z) (attempt : nat)
  : Async (option Response) :=
  try_catch
    (fun w =>
       (res <- fetch req (attempt_controller externalSignal timeoutMs (now w)) ;;
        if ok res then ret (Some res)
        else if negb (includes retryStatuses (status res)) || (attempt =? retries)%nat
        then ret (Some res)
        else
          jitter <- Math_random_floor 250 ;;
          let delay := backoff baseDelayMs attempt jitter in
          let delay := match retry_after_ms res with
                       | Some v => Z.max delay v
                       | None => delay
                       end in
          sleep (Z.min delay 15000) externalSignal ;;;
          ret None) w)
    (fun err =>
       caller_aborted <- read_aborted externalSignal ;;
       if caller_aborted then throw err
       else if (attempt =? retries)%nat then throw err
       else
         jitter <- Math_random_floor 250 ;;
         let delay := backoff baseDelayMs attempt jitter in
         sleep (Z.min delay 15000) externalSignal ;;;
         ret None).

(** [for (let attempt = ...; attempt <= retries; attempt++)], [n] turns
    left; after the loop, [throw new Error('Retry attempts exhausted')]. *)
Fixpoint fetchWithRetry_loop (req : Request) (timeoutMs : Z)
    (externalSignal : option AbortSignal) (retryStatuses : list Z)
    (retries : nat) (baseDelayMs : Z) (n attempt : nat) : Async Response :=
  match n with
  | O => throw (Error "Retry attempts exhausted")
  | S n' =>
      r <- fetchWithRetry_attempt req timeoutMs externalSignal retryStatuses
             retries baseDelayMs attempt ;;
      match r with
      | Some res => ret res
      | None => fetchWithRetry_loop req timeoutMs externalSignal retryStatuses
                  retries baseDelayMs n' (S attempt)
      end
  end.

(** [fetchWithRetry(url, init, retryStatuses, retries, baseDelayMs)] *)
Definition fetchWithRetry (req : Request) (timeoutMs : Z)
    (externalSignal : option AbortSignal) (retryStatuses : list Z)
    (retries : nat) (baseDelayMs : Z) : Async Response :=
  fetchWithRetry_loop req timeoutMs externalSignal retryStatuses retries
    baseDelayMs (S retries) 0.

(** [sendDocument(buffer, filename, { signal })]; the result is [None] when
    the reply carries no message. *)
Definition sendDocument (buffer : Buffer) (filename : string)
    (signal : option AbortSignal) : Async (option TelegramMessage) :=
  response <- fetchWithRetry (ReqSendDocument TELEGRAM_CHANNEL_ID buffer filename)
                120000 signal default_retryStatuses 4 1000 ;;
  let text := body_text response in
  match body_json response with
  | None =>
      if negb (ok response)
      then throw (Error ("Telegram API non-JSON error: "
                         +:+ js_or text (show (status response))))
      else throw (Error "Telegram API returned malformed JSON")
  | Some result =>
      if negb (ok response) || negb (api_ok result)
      then throw (Error ("Telegram API error: "
                         +:+ js_or (api_description result)
                               (js_or text (statusText response))))
      else ret (match api_result result with
                | Some (ResMessage m) => Some m
                | _ => None
                end)
  end.

(** [getFile(fileId)] *)
Definition getFile (fileId : string) : Async (option TelegramFile) :=
  response <- fetchWithRetry (ReqGetFile fileId)
                60000 None default_retryStatuses 4 1000 ;;
  let text := body_text response in
  match body_json response with
  | None =>
      if negb (ok response)
      then throw (Error ("Failed to get file info: "
                         +:+ js_or text (show (status response))))
      else throw (Error "Telegram getFile returned malformed JSON")
  | Some result =>
      if negb (ok response) || negb (api_ok result)
      then throw (Error ("Failed to get file info: "
                         +:+ js_or (api_description result)
                               (js_or text (statusText response))))
      else ret (match api_result result with
                | Some (ResFile f) => Some f
                | _ => None
                end)
  end.

(** [downloadFile(filePath)] *)
Definition downloadFile (filePath : string) : Async Buffer :=
  response <- fetchWithRetry (ReqDownloadFile filePath)
                60000 None default_retryStatuses 4 1000 ;;
  if negb (ok response)
  then throw (Error ("Failed to download file from Telegram: "
                     +:+ js_or (body_text response) (statusText response)))
  else ret (body_bytes response).

(** [uploadChunk({ fileId, chunkIndex, chunk, filename, signal })] *)
Definition uploadChunk (fileId : string) (chunkIndex : Z) (chunk : Buffer)
    (filename : string) (signal : option AbortSignal) : Async TelegramChunk :=
  let encryptionKey := generateEncryptionKey fileId chunkIndex in
  let encryptedChunk := encryptChunk chunk encryptionKey in
  let encryptedHash := sha256_hex encryptedChunk in
  message <- sendDocument encryptedChunk
               (fileId +:+ "_" +:+ show chunkIndex +:+ "_" +:+ filename) signal ;;
  match message with
  | None =>
      throw (TypeError "Cannot read properties of undefined (reading 'message_id')")
  | Some message =>
      ret {| chunkId := fileId +:+ "_" +:+ show chunkIndex;
             chunkIndex := chunkIndex;
             messageId := message_id message;
             encryptedHash := encryptedHash;
             fileId := match document message with
                       | Some d => Some (doc_file_id d)
                       | None => None
                       end |}
  end.

Record UploadResult := {
  telegramStorageId : string;
  chunks : list TelegramChunk;
  totalChunks : Z;
}.

(** The multi-chunk loop of [uploadFile], [n] turns left, at index [i]. *)
Fixpoint uploadFile_loop (fileBuffer : Buffer) (filename : string)
    (signal : option AbortSignal) (fileId : string) (totalChunks : Z)
    (n : nat) (i : Z) (chunks : list TelegramChunk)
  : Async (list TelegramChunk) :=
  match n with
  | O => ret chunks
  | S n' =>
      let start := i * CHUNK_SIZE in
      let end_ := Z.min (start + CHUNK_SIZE) (buffer_length fileBuffer) in
      let chunk := buffer_slice fileBuffer start end_ in
      chunkInfo <- uploadChunk fileId i chunk filename signal ;;
      let chunks := chunks ++ [chunkInfo] in
      (if i <? totalChunks - 1
       then
         let base := 800 in
         jitter <- Math_random_floor 300 ;;
         let stepUp := Z.min 2500 (base + i * 50) in
         sleep (stepUp + jitter) signal
       else ret tt) ;;;
      uploadFile_loop fileBuffer filename signal fileId totalChunks n' (i + 1) chunks
  end.

(** [uploadFile(fileBuffer, filename, { signal })] *)
Definition uploadFile (fileBuffer : Buffer) (filename : string)
    (signal : option AbortSignal) : Async UploadResult :=
  fileId <- crypto_randomUUID ;;
  chunks <-
    (if buffer_length fileBuffer <=? CHUNK_SIZE
     then
       chunkInfo <- uploadChunk fileId 0 fileBuffer filename signal ;;
       ret [chunkInfo]
     else
       let totalChunks := ceil_div (buffer_length fileBuffer) CHUNK_SIZE in
       uploadFile_loop fileBuffer filename signal fileId totalChunks
         (Z.to_nat totalChunks) 0 []) ;;
  ret {| telegramStorageId := fileId;
         chunks := chunks;
         totalChunks := Z.of_nat (length chunks) |}.

(** The body of the [try] in [downloadFileByChunks]. *)
Definition downloadChunk (fileId : string) (chunk : TelegramChunk)
    (file_id : string) : Async Buffer :=
  fileInfo <- getFile file_id ;;
  match fileInfo with
  | None =>
      throw (TypeError "Cannot read properties of undefined (reading 'file_path')")
  | Some fileInfo =>
      if falsy (file_path fileInfo)
      then throw (Error ("No file path for chunk " +:+ show (chunkIndex chunk)))
      else
        encryptedChunk <- downloadFile (default "" (file_path fileInfo)) ;;
        let encryptionKey := generateEncryptionKey fileId (chunkIndex chunk) in
        match decryptChunk encryptedChunk encryptionKey with
        | Throw e => throw e
        | Ok decryptedChunk =>
            let actualHash := sha256_hex encryptedChunk in
            if negb (String.eqb actualHash (encryptedHash chunk))
            then throw (Error ("Chunk " +:+ show (chunkIndex chunk)
                               +:+ " integrity check failed"))
            else ret decryptedChunk
        end
  end.

(** The [for ... of] loop of [downloadFileByChunks] over the sorted array. *)
Fixpoint downloadFileByChunks_loop (fileId : string)
    (sorted : list TelegramChunk) (chunkBuffers : list Buffer)
  : Async (list Buffer) :=
  match sorted with
  | [] => ret chunkBuffers
  | chunk :: rest =>
      if falsy (chunk_fileId chunk)
      then throw (Error ("Missing file ID for chunk " +:+ show (chunkIndex chunk)))
      else
        decryptedChunk <-
          try_catch
            (downloadChunk fileId chunk (default "" (chunk_fileId chunk)))
            (fun error =>
               throw (Error ("Failed to download chunk "
                             +:+ show (chunkIndex chunk) +:+ ": "
                             +:+ err_message error))) ;;
        downloadFileByChunks_loop fileId rest (chunkBuffers ++ [decryptedChunk])
  end.

(** [downloadFileByChunks(fileId, chunks)] *)
Definition downloadFileByChunks (fileId : string) (chunks : list TelegramChunk)
  : Async Buffer :=
  chunkBuffers <-
    downloadFileByChunks_loop fileId
      (Array_sort (fun a b => chunkIndex a - chunkIndex b) chunks) [] ;;
  ret (Buffer_concat chunkBuffers).

End TelegramStorage.

(** ** Vocabulary of the transport properties *)

Section TransportSpec.
Context `{P : Platform}.

(** The caller's token is never aborted (or there is none). *)
Definition never_aborted (s : option AbortSignal) : Prop :=
  match s with
  | Some {| abort_time := Some _ |} => False
  | _ => True
  end.

(** Every dispatch of [req] is answered in time with a status that is not
    OK and is in the retry list. *)
Definition always_retryable (req : Request) (timeoutMs : Z)
    (retryStatuses : list Z) : Prop :=
  forall s t, exists lat res s',
    serve s t req = (Responds lat res, s') /\ Z.of_N lat < timeoutMs /\
    ok res = false /\ includes retryStatuses (status res) = true.

(** Every dispatch of [req] fails in the network with [e], before the
    timeout. *)
Definition always_fails (req : Request) (timeoutMs : Z) (e : JsError) : Prop :=
  forall s t, exists lat s',
    serve s t req = (Fails lat e, s') /\ Z.of_N lat < timeoutMs.

(** No dispatch of [req] is ever answered. *)
Definition never_answers (req : Request) : Prop :=
  forall s t, exists s', serve s t req = (Silent, s').

(** What a run from [w] to [w'] owes to a token aborted at [a]: every
    request it dispatched went out before [a]; and if it settled at or after
    [a], it settled at [a], rejecting with an [AbortError]. *)
Definition cancel_post (a : Z) {A} (w : World) (r : Result A) (w' : World) : Prop :=
  (exists new, sent w' = sent w ++ new /\
               Forall (fun tq : Z * Request => tq.1 < a) new) /\
  now w <= now w' /\
  (a <= now w' -> now w' = a /\ exists e, r = Throw e /\ err_name e = "AbortError").

(** A computation is prompt when every run started before the abort meets
    [cancel_post]. *)
Definition prompt (a : Z) {A} (m : Async A) : Prop :=
  forall w r w', now w < a -> m w = (r, w') -> cancel_post a w r w'.

End TransportSpec.

(** ** Reference instances

    Concrete platforms on which the model runs: stand-ins for the library
    primitives, a backend that keeps every document it is sent and serves it
    back unchanged, and a backend that answers every request with one fixed
    status. *)

(** Stand-ins for the primitives: the block function reverses the block, the
    IV is the zero block, the digest of a buffer is the buffer read as a
    string (so two digests agree exactly when the bytes do). *)
Definition standin_crypto : CryptoLib := {|
  AesKey := unit;
  EVP_BytesToKey := fun _ => (tt, replicate AES_BLOCK x00);
  aes_encrypt_block := fun _ b => reverse b;
  aes_decrypt_block := fun _ b => reverse b;
  sha256_hex := String.string_of_list_byte;
  NEXTAUTH_SECRET := "secret";
|}.

Definition json_reply (r : ApiResult) : Response := {|
  status := 200; statusText := "OK"; retry_after_ms := None;
  body_text := "(json)";
  body_json := Some {| api_ok := true; api_description := ""; api_result := Some r |};
  body_bytes := [];
|}.

Definition bytes_reply (b : Buffer) : Response := {|
  status := 200; statusText := "OK"; retry_after_ms := None;
  body_text := ""; body_json := None; body_bytes := b;
|}.

Definition error_reply (code : Z) (text description : string) : Response := {|
  status := code; statusText := text; retry_after_ms := None;
  body_text := "(json)";
  body_json := Some {| api_ok := false; api_description := description;
                       api_result := None |};
  body_bytes := [];
|}.

(** The handle of the [i]-th stored document. *)
Definition doc_handle (i : nat) : string := "doc" +:+ pretty i.

(** The document stored under a handle, searching from index [i]. *)
Fixpoint find_doc (handle : string) (i : nat) (docs : list Buffer) : option Buffer :=
  match docs with
  | [] => None
  | d :: ds => if String.eqb handle (doc_handle i) then Some d
               else find_doc handle (S i) ds
  end.

(** The faithful backend.  Its state is the list of documents received;
    [getFile] resolves a handle to a path (the handle itself), and a download
    returns the stored bytes. *)
Definition faithful_serve (lat : N) (docs : list Buffer) (t : Z) (req : Request)
  : Outcome * list Buffer :=
  match req with
  | ReqSendDocument chat doc filename =>
      let handle := doc_handle (length docs) in
      (Responds lat (json_reply (ResMessage {|
         message_id := Z.of_nat (length docs);
         document := Some {| file_name := filename;
                             mime_type := "application/octet-stream";
                             doc_file_id := handle;
                             doc_file_unique_id := handle;
                             doc_file_size := buffer_length doc |} |})),
       docs ++ [doc])
  | ReqGetFile handle =>
      match find_doc handle 0 docs with
      | Some d =>
          (Responds lat (json_reply (ResFile {|
             file_id := handle; file_unique_id := handle;
             file_size := buffer_length d; file_path := Some handle |})),
           docs)
      | None =>
          (Responds lat (error_reply 400 "Bad Request" "Bad Request: invalid file_id"),
           docs)
      end
  | ReqDownloadFile path =>
      match find_doc path 0 docs with
      | Some d => (Responds lat (bytes_reply d), docs)
      | None => (Responds lat (error_reply 404 "Not Found" "Not Found"), docs)
      end
  end.

Definition faithful_backend (lat : N) : Platform := {|
  ServerState := list Buffer;
  serve := faithful_serve lat;
  random_floor := fun _ _ => 0;
  randomUUID := fun k => "uuid-" +:+ pretty k;
  TELEGRAM_CHANNEL_ID := "channel";
|}.

(** A backend that answers every request with status [code]. *)
Definition fixed_status_backend (code : Z) (lat : N) : Platform := {|
  ServerState := unit;
  serve := fun _ _ _ => (Responds lat (error_reply code "" ""), tt);
  random_floor := fun _ _ => 0;
  randomUUID := fun k => "uuid-" +:+ pretty k;
  TELEGRAM_CHANNEL_ID := "channel";
|}.

(** A backend on which every request fails in the network, after [lat] ms. *)
Definition failing_backend (lat : N) : Platform := {|
  ServerState := unit;
  serve := fun _ _ _ => (Fails lat (TypeError "fetch failed"), tt);
  random_floor := fun _ _ => 0;
  randomUUID := fun k => "uuid-" +:+ pretty k;
  TELEGRAM_CHANNEL_ID := "channel";
|}.

(** A backend that never answers. *)
Definition silent_backend : Platform := {|
  ServerState := unit;
  serve := fun _ _ _ => (Silent, tt);
  random_floor := fun _ _ => 0;
  randomUUID := fun k => "uuid-" +:+ pretty k;
  TELEGRAM_CHANNEL_ID := "channel";
|}.

(** ** Vocabulary of the storage properties *)

Section StorageSpec.
Context `{C : CryptoLib} `{P : Platform}.

(** The bytes of [fileBuffer] from [i * CHUNK_SIZE] up to
    [min ((i + 1) * CHUNK_SIZE) length], as a sublist. *)
Definition chunk_plain (fileBuffer : Buffer) (i : Z) : Buffer :=
  take (Z.to_nat CHUNK_SIZE) (drop (Z.to_nat (i * CHUNK_SIZE)) fileBuffer).

(** The request that carries chunk [i] of an upload. *)
Definition chunk_request (fileId filename : string) (fileBuffer : Buffer) (i : Z)
  : Request :=
  ReqSendDocument TELEGRAM_CHANNEL_ID
    (encryptChunk (chunk_plain fileBuffer i) (generateEncryptionKey fileId i))
    (fileId +:+ "_" +:+ show i +:+ "_" +:+ filename).

(** The requests of an upload whose chunk [i + k] was dispatched at the
    times in the [k]-th list. *)
Fixpoint chunk_requests_from (fileId filename : string) (fileBuffer : Buffer)
    (i : Z) (timess : list (list Z)) : list (Z * Request) :=
  match timess with
  | [] => []
  | ts :: rest =>
      map (fun t => (t, chunk_request fileId filename fileBuffer i)) ts
      ++ chunk_requests_from fileId filename fileBuffer (i + 1) rest
  end.


(** A document of an upload: sent to the channel, a whole number of AES
    blocks, at most one block more than a chunk. *)
Definition upload_document (tq : Z * Request) : Prop :=
  exists payload name,
    tq.2 = ReqSendDocument TELEGRAM_CHANNEL_ID payload name /\
    0 < buffer_length payload <= CHUNK_SIZE + 16 /\
    buffer_length payload mod 16 = 0.

End StorageSpec.

(** ** Vocabulary of the download properties *)

Section DownloadSpec.
Context `{C : CryptoLib} `{P : Platform}.

(** [plain] is the decryption of bytes that some download returned and
    whose digest is the one recorded in the descriptor. *)
Definition verified (fileId : string) (chunk : TelegramChunk) (plain : Buffer) : Prop :=
  exists enc path wa wb,
    downloadFile path wa = (Ok enc, wb) /\
    sha256_hex enc = encryptedHash chunk /\
    decryptChunk enc (generateEncryptionKey fileId (chunkIndex chunk)) = Ok plain.

(** The message of the error raised by the comparison of the digests. *)
Definition integrity_message (chunk : TelegramChunk) : string :=
  "Chunk " +:+ show (chunkIndex chunk) +:+ " integrity check failed".

(** The claim that a digest mismatch is reported as an integrity error
    whatever the bytes are: whenever the bytes downloaded for the only
    descriptor do not have the recorded digest, the download rejects with
    the wrapped integrity message. *)
Definition mismatch_is_integrity_error : Prop :=
  forall fileId chunk handle info enc (w w1 w2 : World),
    chunk_fileId chunk = Some handle -> falsy (Some handle) = false ->
    getFile handle w = (Ok (Some info), w1) ->
    falsy (file_path info) = false ->
    downloadFile (default "" (file_path info)) w1 = (Ok enc, w2) ->
    sha256_hex enc <> encryptedHash chunk ->
    (downloadFileByChunks fileId [chunk] w).1 =
    Throw (Error ("Failed to download chunk " +:+ show (chunkIndex chunk)
                  +:+ ": " +:+ integrity_message chunk)).

(** A request of a download for one of [chunks]: [getFile] on the file id
    of a descriptor, or the download of a file path. *)
Definition download_request (chunks : list TelegramChunk) (tq : Z * Request) : Prop :=
  (exists c, c ∈ chunks /\ chunk_fileId c = Some (default "" (chunk_fileId c)) /\
             tq.2 = ReqGetFile (default "" (chunk_fileId c))) \/
  (exists path, tq.2 = ReqDownloadFile path).

(** The error names one of [chunks]: its file id is missing, or its
    download failed for the reason [why]. *)
Definition names_chunk (chunks : list TelegramChunk) (e : JsError) : Prop :=
  err_name e = "Error" /\
  exists c, c ∈ chunks /\
    (err_message e = "Missing file ID for chunk " +:+ show (chunkIndex c) \/
     exists why, err_message e =
       "Failed to download chunk " +:+ show (chunkIndex c) +:+ ": " +:+ why).

End DownloadSpec.

(** One bit of the first byte of a stored document flipped. *)
Definition flip_first_bit (b : Buffer) : Buffer :=
  match b with
  | [] => []
  | x :: rest => byte_xor x x01 :: rest
  end.

(** A stored chunk with one bit flipped: the encryption of three bytes under
    the stand-in primitives, its descriptor, and a faithful backend whose
    only document is that ciphertext with the lowest bit of its first byte
    flipped. *)
Definition sample_plain : Buffer := [x01; x02; x03].

Definition sample_cipher : Buffer :=
  @encryptChunk standin_crypto sample_plain
    (@generateEncryptionKey standin_crypto "file" 0).

Definition tampered_chunk : TelegramChunk :=
  mkChunk "file_0" 0 0 (@sha256_hex standin_crypto sample_cipher) (Some "doc0").

Definition tampered_world : @World (faithful_backend 20) :=
  @mkWorld (faithful_backend 20) 0 [flip_first_bit sample_cipher] [] 0%nat 0%nat.

(** The same, with the last byte of the ciphertext lost instead. *)
Definition truncated_world : @World (faithful_backend 20) :=
  @mkWorld (faithful_backend 20) 0 [removelast sample_cipher] [] 0%nat 0%nat.

(** ** Vocabulary of the round trip *)

Section RoundTripSpec.
Context `{C : CryptoLib}.

(** The backend holds, under the handle recorded in [chunk], the encryption
    of [plain] under the key of that chunk, and [chunk] records its digest. *)
Definition stored (docs : list Buffer) (fileId : string) (chunk : TelegramChunk)
    (plain : Buffer) : Prop :=
  exists j,
    chunk_fileId chunk = Some (doc_handle j) /\
    docs !! j =
      Some (encryptChunk plain (generateEncryptionKey fileId (chunkIndex chunk))) /\
    encryptedHash chunk =
      sha256_hex (encryptChunk plain (generateEncryptionKey fileId (chunkIndex chunk))).

End RoundTripSpec.

(** ** Empty inputs *)

Section EmptySpec.
Context `{C : CryptoLib} `{P : Platform}.

(** An empty buffer is refused before anything is encrypted or sent. *)
Definition rejects_empty_upfront : Prop :=
  forall filename signal w, exists e w',
    uploadFile [] filename signal w = (Throw e, w') /\ sent w' = sent w.

End EmptySpec.

Definition empty_world : @World (faithful_backend 20) :=
  @mkWorld (faithful_backend 20) 0 [] [] 0%nat 0%nat.

(** ** Sample inputs *)

(** A backend that answers 503 after 20 ms, at time 0. *)
Definition busy_world : @World (fixed_status_backend 503 20) :=
  @mkWorld (fixed_status_backend 503 20) 0 tt [] 0%nat 0%nat.

(** The two other backends, at time 0. *)
Definition offline_world : @World (failing_backend 20) :=
  @mkWorld (failing_backend 20) 0 tt [] 0%nat 0%nat.

Definition silent_world : @World silent_backend :=
  @mkWorld silent_backend 0 tt [] 0%nat 0%nat.

(** A token that is never aborted. *)
Definition never_abort : AbortSignal := {| abort_time := None |}.

(** A token aborted at time 500, in the first backoff. *)
Definition abort_at_500 : AbortSignal := {| abort_time := Some 500 |}.


(** * The route handlers

    The [POST] functions of the API routes that call the gateway.  A request
    is what the handler reads from it: the outcome of parsing its body and,
    where the handler passes it on, its abort signal.  A reply is its status,
    the headers the handler sets itself, and its body. *)

(** An entry of a form: a string, or a file with its name. *)
Inductive FormValue :=
| FormString (s : string)
| FormFile (bytes : Buffer) (name : string).

(** [formData.get(name)] *)
Definition Form := string -> option FormValue.

Inductive ReplyBody :=
| BodyError (error : string)            (* [{ error }] *)
| BodyUpload (result : UploadResult)    (* [{ success: true, ...result }] *)
| BodyChunk (chunk : TelegramChunk)     (* [{ success: true, chunk }] *)
| BodyBytes (bytes : Buffer).

Record HttpReply := {
  http_status : Z;
  http_headers : list (string * string);
  http_body : ReplyBody;
}.

(** The JSON body of the download and preview routes: [fileId], and
    [chunks] when it is an array. *)
Record DownloadBody := {
  dl_fileId : option string;
  dl_chunks : option (list TelegramChunk);
}.

Section Routes.
Context `{C : CryptoLib} `{P : Platform}.

(** [Number(s)] on a form field that holds an integer literal, as the
    client writes the index of a chunk. *)
Variable Number_ : string -> Z.

(** [await p] for a promise that has settled with [r] *)
Definition settled_with {A} (r : Result A) : Async A := fun w => (r, w).

(** [NextResponse.json(body, { status })] *)
Definition json (status : Z) (body : ReplyBody) : HttpReply :=
  {| http_status := status; http_headers := []; http_body := body |}.

(** [app/api/telegram/upload/route.ts], [POST] *)
Definition upload_POST (request_formData : Result Form) (request_signal : AbortSignal)
  : Async HttpReply :=
  try_catch
    (formData <- settled_with request_formData ;;
     let file := formData "file" in
     let filename := match formData "filename" with
                     | Some (FormString s) => Some s
                     | _ => None
                     end in
     match file with
     | Some (FormFile bytes file_name) =>
         let fileBuffer := bytes in
         let name := match filename with
                     | Some s => js_or s file_name
                     | None => file_name
                     end in
         result <- uploadFile fileBuffer name (Some request_signal) ;;
         ret (json 200 (BodyUpload result))
     | _ => ret (json 400 (BodyError "No file provided"))
     end)
    (fun error => ret (json 500 (BodyError (err_message error)))).


(** [app/api/telegram/upload/chunk/route.ts], [POST] *)
Definition upload_chunk_POST (request_formData : Result Form) : Async HttpReply :=
  try_catch
    (formData <- settled_with request_formData ;;
     match formData "fileId", formData "chunkIndex", formData "totalChunks",
           formData "filename", formData "chunk" with
     | Some (FormString fileId), Some (FormString chunkIndex),
       Some (FormString totalChunks), Some (FormString filename),
       Some (FormFile bytes _) =>
         let chunkBuffer := bytes in
         if CHUNK_SIZE <? buffer_length chunkBuffer
         then ret (json 400 (BodyError "Chunk too large"))
         else
           chunkInfo <- uploadChunk fileId (Number_ chunkIndex) chunkBuffer filename None ;;
           ret (json 200 (BodyChunk chunkInfo))
     | _, _, _, _, _ => ret (json 400 (BodyError "Invalid form data"))
     end)
    (fun error => ret (json 500 (BodyError (err_message error)))).

(** [app/api/telegram/download/route.ts], [POST] *)
Definition download_POST (request_json : Result DownloadBody) : Async HttpReply :=
  try_catch
    (body <- settled_with request_json ;;
     match dl_chunks body with
     | Some chunks =>
         if falsy (dl_fileId body)
         then ret (json 400 (BodyError "Invalid request data"))
         else
           let fileId := default "" (dl_fileId body) in
           let telegramChunks := chunks in
           completeFile <- downloadFileByChunks fileId telegramChunks ;;
           ret {| http_status := 200;
                  http_headers := [("Content-Type", "application/octet-stream");
                                   ("Content-Disposition", "attachment")];
                  http_body := BodyBytes completeFile |}
     | None => ret (json 400 (BodyError "Invalid request data"))
     end)
    (fun error => ret (json 500 (BodyError (err_message error)))).


End Routes.

(** ** Sample requests *)

(** A form with a file of three bytes. *)
Definition sample_form : Form :=
  fun field => if String.eqb field "file"
               then Some (FormFile sample_plain "notes.txt") else None.

(** The form the client sends for chunk 0 of a file of one chunk. *)
Definition sample_chunk_form : Form :=
  fun field =>
    if String.eqb field "fileId" then Some (FormString "file")
    else if String.eqb field "chunkIndex" then Some (FormString "0")
    else if String.eqb field "totalChunks" then Some (FormString "1")
    else if String.eqb field "filename" then Some (FormString "notes.txt")
    else if String.eqb field "chunk" then Some (FormFile sample_plain "blob")
    else None.

(** The value of a string of decimal digits. *)
Definition decimal (s : string) : Z :=
  fold_left (fun n c => 10 * n + (Z.of_nat (Ascii.nat_of_ascii c) - 48))
            (String.list_ascii_of_string s) 0.

(** * The upload manager ([UploadManagerProvider])

    The provider keeps the list of upload records in React state, the set of
    active ids and the [AbortController]s in refs.  Every piece of code
    between two [await]s runs without interruption; it is one transition
    here.  A state update ([setUploads]) is applied where it is issued.  The
    controllers live in a heap of flags indexed by allocation order, so that
    two records can be told to share a controller or not. *)

Module UploadManager.

Definition MAX_CONCURRENT_UPLOADS : nat := 3.
Definition RETRY_ATTEMPTS : Z := 3.
Definition RETRY_DELAY : Z := 1000.

Inductive UploadStatus :=
| st_pending | st_uploading | st_paused | st_completed | st_error | st_cancelled.

Global Instance UploadStatus_eq_dec : EqDecision UploadStatus.
Proof. solve_decision. Defined.

(** A browser [File]: only its name, size and type matter to the manager. *)
Record File := { f_name : string; f_size : Z; f_type : string }.

Record UploadFile := mkUpload {
  id : string;
  file : File;
  name : string;
  size : Z;
  type : string;
  progress : Q;
  status : UploadStatus;
  error : option string;
  folderId : option string;
  userId : string;
  telegramStorageId : option string;
  fileId : option string;
  chunks : list (option TelegramChunk);   (* an array, possibly with holes *)
  totalChunks : Z;
  currentChunk : Z;
  uploadSpeed : option Q;
  estimatedTimeRemaining : option Q;
  retryCount : option Z;
  abortController : option nat;           (* a reference into the heap *)
  createdAt : Z;
}.

Record Manager := mkManager {
  uploads : list UploadFile;
  activeUploads : gset string;      (* activeUploadsRef.current *)
  controllers : list bool;          (* the heap: [true] once aborted *)
}.

(** [new AbortController()] *)
Definition new_controller (heap : list bool) : nat * list bool :=
  (length heap, heap ++ [false]).

(** [controller?.abort()] *)
Definition abort (c : option nat) (heap : list bool) : list bool :=
  match c with
  | Some i => <[i := true]> heap
  | None => heap
  end.

(** [controller?.signal.aborted] *)
Definition signal_aborted (c : option nat) (heap : list bool) : bool :=
  match c with
  | Some i => default false (heap !! i)
  | None => false
  end.

(** [canStartUpload()] *)
Definition canStartUpload (m : Manager) : bool :=
  bool_decide (stdpp.base.size (activeUploads m) < MAX_CONCURRENT_UPLOADS)%nat.

(** [addToActive(id)] and [removeFromActive(id)] *)
Definition addToActive (i : string) (m : Manager) : Manager :=
  mkManager (uploads m) ({[i]} ∪ activeUploads m) (controllers m).

Definition removeFromActive (i : string) (m : Manager) : Manager :=
  mkManager (uploads m) (activeUploads m ∖ {[i]}) (controllers m).

(** [updateUpload(id, updates)]: the patch is applied to every record with
    that id. *)
Definition updateUpload (i : string) (updates : UploadFile -> UploadFile)
    (m : Manager) : Manager :=
  mkManager
    (map (fun upload => if String.eqb (id upload) i then updates upload else upload)
       (uploads m))
    (activeUploads m) (controllers m).

(** [uploads.find((u) => u.id === id)] *)
Definition find_upload (i : string) (l : list UploadFile) : option UploadFile :=
  List.find (fun u => String.eqb (id u) i) l.

(** The patches, one for each object literal passed to [updateUpload] or
    spread over a record. *)

(** [{ status, error: undefined }], at the start of [processUpload] *)
Definition patch_start (u : UploadFile) : UploadFile :=
  mkUpload (id u) (file u) (name u) (size u) (type u) (progress u)
    st_uploading None (folderId u) (userId u) (telegramStorageId u) (fileId u)
    (chunks u) (totalChunks u) (currentChunk u) (uploadSpeed u)
    (estimatedTimeRemaining u) (retryCount u) (abortController u) (createdAt u).

(** [{ totalChunks }] *)
Definition patch_totalChunks (n : Z) (u : UploadFile) : UploadFile :=
  mkUpload (id u) (file u) (name u) (size u) (type u) (progress u)
    (status u) (error u) (folderId u) (userId u) (telegramStorageId u) (fileId u)
    (chunks u) n (currentChunk u) (uploadSpeed u)
    (estimatedTimeRemaining u) (retryCount u) (abortController u) (createdAt u).

(** [{ currentChunk, progress, uploadSpeed, estimatedTimeRemaining, chunks }] *)
Definition patch_chunk_done (cur : Z) (prog speed eta : Q)
    (cs : list (option TelegramChunk)) (u : UploadFile) : UploadFile :=
  mkUpload (id u) (file u) (name u) (size u) (type u) prog
    (status u) (error u) (folderId u) (userId u) (telegramStorageId u) (fileId u)
    cs (totalChunks u) cur (Some speed) (Some eta)
    (retryCount u) (abortController u) (createdAt u).

(** [{ status: "completed", progress: 100, telegramStorageId,
       estimatedTimeRemaining: 0 }] *)
Definition patch_completed (storageId : option string) (u : UploadFile) : UploadFile :=
  mkUpload (id u) (file u) (name u) (size u) (type u) 100%Q
    st_completed (error u) (folderId u) (userId u) storageId (fileId u)
    (chunks u) (totalChunks u) (currentChunk u) (uploadSpeed u)
    (Some 0%Q) (retryCount u) (abortController u) (createdAt u).

(** [{ status: "completed", progress: 100, telegramStorageId, chunks,
       uploadSpeed }], after a direct image upload *)
Definition patch_image_completed (storageId : string)
    (cs : list (option TelegramChunk)) (speed : Q) (u : UploadFile) : UploadFile :=
  mkUpload (id u) (file u) (name u) (size u) (type u) 100%Q
    st_completed (error u) (folderId u) (userId u) (Some storageId) (fileId u)
    cs (totalChunks u) (currentChunk u) (Some speed)
    (estimatedTimeRemaining u) (retryCount u) (abortController u) (createdAt u).

(** [{ status }] *)
Definition patch_status (s : UploadStatus) (u : UploadFile) : UploadFile :=
  mkUpload (id u) (file u) (name u) (size u) (type u) (progress u)
    s (error u) (folderId u) (userId u) (telegramStorageId u) (fileId u)
    (chunks u) (totalChunks u) (currentChunk u) (uploadSpeed u)
    (estimatedTimeRemaining u) (retryCount u) (abortController u) (createdAt u).

(** [{ status: "error", error, retryCount }] *)
Definition patch_error (msg : string) (count : Z) (u : UploadFile) : UploadFile :=
  mkUpload (id u) (file u) (name u) (size u) (type u) (progress u)
    st_error (Some msg) (folderId u) (userId u) (telegramStorageId u) (fileId u)
    (chunks u) (totalChunks u) (currentChunk u) (uploadSpeed u)
    (estimatedTimeRemaining u) (Some count) (abortController u) (createdAt u).


(** [{ ...upload, status: "paused", abortController: new AbortController() }] *)
Definition patch_paused (c : nat) (u : UploadFile) : UploadFile :=
  mkUpload (id u) (file u) (name u) (size u) (type u) (progress u)
    st_paused (error u) (folderId u) (userId u) (telegramStorageId u) (fileId u)
    (chunks u) (totalChunks u) (currentChunk u) (uploadSpeed u)
    (estimatedTimeRemaining u) (retryCount u) (Some c) (createdAt u).

(** [{ ...upload, status: "pending", error: undefined,
       abortController: new AbortController() }] *)
Definition patch_resumed (c : nat) (u : UploadFile) : UploadFile :=
  mkUpload (id u) (file u) (name u) (size u) (type u) (progress u)
    st_pending None (folderId u) (userId u) (telegramStorageId u) (fileId u)
    (chunks u) (totalChunks u) (currentChunk u) (uploadSpeed u)
    (estimatedTimeRemaining u) (retryCount u) (Some c) (createdAt u).

(** The record [retryUpload] builds. *)
Definition patch_retried (count : Z) (c : nat) (u : UploadFile) : UploadFile :=
  mkUpload (id u) (file u) (name u) (size u) (type u) 0%Q
    st_pending None (folderId u) (userId u) (telegramStorageId u) (fileId u)
    (chunks u) (totalChunks u) 0 None None (Some count) (Some c) (createdAt u).

(** [retryCount || 0] *)
Definition retryCount_or_0 (u : UploadFile) : Z := default 0 (retryCount u).

(** ** Strings, as the error handling reads them *)

(** [hay.includes(needle)] *)
Fixpoint str_includes (needle hay : string) : bool :=
  match hay with
  | EmptyString => String.prefix needle EmptyString
  | String _ rest => String.prefix needle hay || str_includes needle rest
  end.

Definition lower_ascii (c : Ascii.ascii) : Ascii.ascii :=
  let n := Ascii.nat_of_ascii c in
  if ((65 <=? n) && (n <=? 90))%nat then Ascii.ascii_of_nat (n + 32) else c.

Fixpoint to_lower (s : string) : string :=
  match s with
  | EmptyString => EmptyString
  | String c rest => String (lower_ascii c) (to_lower rest)
  end.

(** [/abort|cancel/i.test(s)] *)
Definition abort_or_cancel (s : string) : bool :=
  str_includes "abort" (to_lower s) || str_includes "cancel" (to_lower s).

(** ** The operations of the context *)

(** [prev.map(f)] where [f] also touches the refs. *)
Fixpoint map_refs {S : Type} (f : UploadFile -> S -> UploadFile * S)
    (l : list UploadFile) (s : S) : list UploadFile * S :=
  match l with
  | [] => ([], s)
  | u :: rest =>
      let '(u', s1) := f u s in
      let '(rest', s2) := map_refs f rest s1 in
      (u' :: rest', s2)
  end.

(** [pauseUpload(id)]: the callback of the map, then the update *)
Definition pause_fun (i : string) (upload : UploadFile)
    (refs : gset string * list bool) : UploadFile * (gset string * list bool) :=
  let '(act, heap) := refs in
  if String.eqb (id upload) i && bool_decide (status upload = st_uploading)
  then
    let heap := abort (abortController upload) heap in
    let act := act ∖ {[i]} in
    let '(c, heap) := new_controller heap in
    (patch_paused c upload, (act, heap))
  else (upload, (act, heap)).

Definition pauseUpload (i : string) (m : Manager) : Manager :=
  let '(us, (act, heap)) :=
    map_refs (pause_fun i) (uploads m) (activeUploads m, controllers m) in
  mkManager us act heap.

(** [resumeUpload(id)] *)
Definition resume_fun (i : string) (upload : UploadFile) (heap : list bool)
  : UploadFile * list bool :=
  if String.eqb (id upload) i && bool_decide (status upload = st_paused)
  then let '(c, heap) := new_controller heap in (patch_resumed c upload, heap)
  else (upload, heap).

Definition resumeUpload (i : string) (m : Manager) : Manager :=
  let '(us, heap) := map_refs (resume_fun i) (uploads m) (controllers m) in
  mkManager us (activeUploads m) heap.

(** [cancelUpload(id)] *)
Definition cancel_fun (i : string) (upload : UploadFile)
    (refs : gset string * list bool) : UploadFile * (gset string * list bool) :=
  let '(act, heap) := refs in
  if String.eqb (id upload) i
  then (patch_status st_cancelled upload,
        (act ∖ {[i]}, abort (abortController upload) heap))
  else (upload, (act, heap)).

Definition cancelUpload (i : string) (m : Manager) : Manager :=
  let '(us, (act, heap)) :=
    map_refs (cancel_fun i) (uploads m) (activeUploads m, controllers m) in
  mkManager us act heap.

(** [retryUpload(id)] *)
Definition retry_fun (i : string) (upload : UploadFile) (heap : list bool)
  : UploadFile * list bool :=
  if String.eqb (id upload) i && bool_decide (status upload = st_error)
  then
    let currentRetryCount := retryCount_or_0 upload in
    if RETRY_ATTEMPTS * 2 <=? currentRetryCount then (upload, heap)
    else
      let '(c, heap) := new_controller heap in
      (patch_retried currentRetryCount c upload, heap)
  else (upload, heap).

Definition retryUpload (i : string) (m : Manager) : Manager :=
  let '(us, heap) := map_refs (retry_fun i) (uploads m) (controllers m) in
  mkManager us (activeUploads m) heap.

(** [removeUpload(id)] *)
Definition removeUpload (i : string) (m : Manager) : Manager :=
  let heap := match find_upload i (uploads m) with
              | Some upload => abort (abortController upload) (controllers m)
              | None => controllers m
              end in
  mkManager (filter (fun u => negb (String.eqb (id u) i)) (uploads m))
    (activeUploads m ∖ {[i]}) heap.


(** [clearAll()] *)
Definition clearAll (m : Manager) : Manager :=
  mkManager []
    (activeUploads m)
    (foldl (fun heap u => abort (abortController u) heap) (controllers m) (uploads m)).

(** What [addUploads] takes from outside: the reply of the k-th
    [initializeUploadSession], the k-th generated id, the k-th reading of
    the clock. *)
Record AddEnv := {
  initializeUploadSession : nat -> File -> Result string;
  generateUploadId : nat -> string;
  Date_now : nat -> Z;
}.

(** The loop of [addUploads] over the files still to do; [k] counts the
    records built so far.  Returns the new records, the heap, and the files
    a session was opened for. *)
Fixpoint addUploads_loop (env : AddEnv) (folder : option string) (user : string)
    (files : list File) (k : nat) (heap : list bool)
  : Result (list UploadFile) * list bool * list File :=
  match files with
  | [] => (Ok [], heap, [])
  | f :: rest =>
      if f_size f =? 0 then addUploads_loop env folder user rest k heap
      else
        match initializeUploadSession env k f with
        | Throw e => (Throw e, heap, [f])
        | Ok session =>
            let total := ceil_div (f_size f) CHUNK_SIZE in
            let '(c, heap1) := new_controller heap in
            let upload :=
              mkUpload (generateUploadId env k) f (f_name f) (f_size f) (f_type f)
                0%Q st_pending None folder user None (Some session)
                [] total 0 None None (Some 0) (Some c) (Date_now env k) in
            let '(r, heap2, opened) :=
              addUploads_loop env folder user rest (S k) heap1 in
            (match r with
             | Ok new => Ok (upload :: new)
             | Throw e => Throw e
             end, heap2, f :: opened)
        end
  end.

(** [addUploads(files, folderId, userId)]; the last component lists the
    files a session was opened for. *)
Definition addUploads (env : AddEnv) (files : list File) (folder : option string)
    (user : option string) (m : Manager) : Result unit * Manager * list File :=
  if falsy user
  then (Throw (Error "User ID is required for uploads"), m, [])
  else
    let '(r, heap, opened) :=
      addUploads_loop env folder (default "" user) files 0 (controllers m) in
    match r with
    | Ok new =>
        (Ok tt, mkManager (uploads m ++ new) (activeUploads m) heap, opened)
    | Throw e =>
        (Throw (Error ("Failed to add uploads: " +:+ err_message e)),
         mkManager (uploads m) (activeUploads m) heap, opened)
    end.

(** ** [processUpload]

    One call of [processUpload] is a process: the record it works on (the
    local [upload]), the list of records its closure captured ([uploads], as
    of the render that scheduled it), the time it started, and the [await]
    it is suspended at.  A transition runs the code from the settling of
    that [await] to the next one. *)

Inductive Phase :=
| AwaitImage
| AwaitChunkFetch (i retry : Z) (chunks : list (option TelegramChunk)) (uploadedBytes : Z)
| AwaitChunkSleep (i retry : Z) (chunks : list (option TelegramChunk)) (uploadedBytes : Z)
| AwaitRecord
| Finished.

Record Process := mkProcess {
  p_upload : UploadFile;
  p_snapshot : list UploadFile;
  p_startTime : Z;
  p_phase : Phase;
}.

Definition set_phase (ph : Phase) (p : Process) : Process :=
  mkProcess (p_upload p) (p_snapshot p) (p_startTime p) ph.

(** The requests a process issues. *)
Inductive Call :=
| CallImage (upload_id : string)
| CallChunk (upload_id : string) (chunkIndex : Z) (start end_ : Z)
| CallRecord (upload_id : string) (storageId : option string)
    (chunks : list (option TelegramChunk)).

Record ImageResult := {
  img_telegramStorageId : string;
  img_chunks : list TelegramChunk;
  img_totalChunks : Z;
}.

(** How the [fetch] of a chunk settles: a reply with [ok] and the [success]
    flag and chunk of its body, a reply that is not [ok] with its text, or a
    rejection. *)
Inductive ChunkReply :=
| ReplyOk (success : bool) (chunk : TelegramChunk)
| ReplyNotOk (errorText : string)
| ReplyThrows (e : JsError).

(** The same for the direct upload of an image; a rejection may carry a
    [code]. *)
Inductive ImageReply :=
| ImgOk (success : bool) (result : ImageResult)
| ImgNotOk (errorText : string)
| ImgThrows (e : JsError) (code : option string).

(** What settles an [await]. *)
Inductive Input :=
| ChunkFetched (r : ChunkReply)
| TimerFired
| ImageSettled (r : ImageReply)
| RecordCreated (r : Result string).

(** [calculateProgress(currentChunk, totalChunks)] *)
Definition calculateProgress (current total : Z) : Q :=
  if total =? 0 then 0%Q
  else
    let p := (inject_Z current / inject_Z total * 100)%Q in
    if Qle_bool 100 p then 100%Q else p.

(** [calculateUploadSpeed(bytesUploaded, timeElapsed)] *)
Definition calculateUploadSpeed (bytes elapsed : Z) : Q :=
  if 0 <? elapsed then (inject_Z bytes / (inject_Z elapsed / 1000))%Q else 0%Q.

(** [estimateTimeRemaining(remainingBytes, uploadSpeed)] *)
Definition estimateTimeRemaining (remaining : Z) (speed : Q) : Q :=
  if Qle_bool speed 0 then 0%Q else (inject_Z remaining / speed)%Q.

(** [file.slice(start, end).size] *)
Definition blob_size (f : File) (start end_ : Z) : Z :=
  Z.max 0 (slice_index (f_size f) end_ - slice_index (f_size f) start).

(** The test [isAborted] of the [catch] of [processUpload]. *)
Definition isAborted (e : JsError) : bool :=
  String.eqb (err_name e) "AbortError"
  || abort_or_cancel (err_message e)
  || str_includes "Upload was cancelled" (err_message e).

(** The message shown for an error that is not an abort. *)
Definition friendly_message (errorMessage : string) : string :=
  if str_includes "Failed to fetch" errorMessage
     || str_includes "NetworkError" errorMessage
  then "Network connection lost. Please check your internet connection and retry."
  else if str_includes "ECONNRESET" errorMessage
          || str_includes "Connection was reset" errorMessage
          || str_includes "aborted" errorMessage
  then "Connection was interrupted. Please check your network and retry."
  else if str_includes "timeout" errorMessage || str_includes "TIMEOUT" errorMessage
  then "Upload timed out. Please check your connection and retry."
  else if str_includes "500" errorMessage
          || str_includes "Internal Server Error" errorMessage
  then "Server error occurred. Please retry in a moment."
  else if str_includes "413" errorMessage
          || str_includes "Payload Too Large" errorMessage
  then "File is too large for upload."
  else errorMessage.

Definition isPermanentError (errorMessage : string) : bool :=
  str_includes "401" errorMessage || str_includes "403" errorMessage
  || str_includes "404" errorMessage || str_includes "Invalid" errorMessage
  || str_includes "Unauthorized" errorMessage || str_includes "too large" errorMessage.

(** The [catch] and the [finally] of [processUpload]. *)
Definition processUpload_catch (p : Process) (err : JsError) (m : Manager) : Manager :=
  let upload := p_upload p in
  let m :=
    if isAborted err
    then
      match find_upload (id upload) (p_snapshot p) with
      | Some currentUpload =>
          if bool_decide (status currentUpload = st_cancelled) then m
          else updateUpload (id upload) (patch_status st_paused) m
      | None => updateUpload (id upload) (patch_status st_paused) m
      end
    else
      let currentRetryCount := retryCount_or_0 upload + 1 in
      let errorMessage := friendly_message (err_message err) in
      updateUpload (id upload)
        (patch_error
           (if isPermanentError errorMessage
            then errorMessage +:+ " (Manual retry required)"
            else errorMessage +:+ " (Click retry to try again)")
           currentRetryCount) m in
  removeFromActive (id upload) m.

(** The top of the chunk loop at index [i]: the loop condition, the check of
    the token, and the first [fetch] of [uploadChunk]; past the last chunk,
    the completion and the call of [createFileRecord]. *)
Definition enter_loop (p : Process) (i : Z) (chunks : list (option TelegramChunk))
    (uploadedBytes : Z) (m : Manager) : Manager * Process * list Call :=
  let upload := p_upload p in
  let totalChunks := ceil_div (size upload) CHUNK_SIZE in
  if i <? totalChunks
  then
    if signal_aborted (abortController upload) (controllers m)
    then (processUpload_catch p (Error "Upload cancelled") m, set_phase Finished p, [])
    else
      let start := i * CHUNK_SIZE in
      let end_ := Z.min (start + CHUNK_SIZE) (size upload) in
      (m, set_phase (AwaitChunkFetch i 0 chunks uploadedBytes) p,
       [CallChunk (id upload) i start end_])
  else
    let telegramStorageId := fileId upload in
    (updateUpload (id upload) (patch_completed telegramStorageId) m,
     set_phase AwaitRecord p,
     [CallRecord (id upload) telegramStorageId chunks]).

(** [processUpload(upload)] up to its first [await].  The queue passes a
    record; only its id is used, the record itself is read again from the
    state. *)
Definition processUpload_start (upload_id : string) (t : Z) (m : Manager)
  : Manager * option Process * list Call :=
  if negb (canStartUpload m) then (m, None, [])
  else
    match find_upload upload_id (uploads m) with
    | None => (m, None, [])
    | Some currentUpload =>
        if negb (bool_decide (status currentUpload = st_pending)) then (m, None, [])
        else
          let upload := currentUpload in
          let p := mkProcess upload (uploads m) t Finished in
          let m := addToActive (id upload) m in
          let m := updateUpload (id upload) patch_start m in
          if String.prefix "image/" (type upload)
          then
            if signal_aborted (abortController upload) (controllers m)
            then (processUpload_catch p (Error "Upload was cancelled") m, Some p, [])
            else (m, Some (set_phase AwaitImage p), [CallImage (id upload)])
          else
            let totalChunks := ceil_div (size upload) CHUNK_SIZE in
            let m := updateUpload (id upload) (patch_totalChunks totalChunks) m in
            let chunks := replicate (Z.to_nat totalChunks) None in
            let uploadedBytes := currentChunk upload * CHUNK_SIZE in
            let '(m, p, calls) :=
              enter_loop p (currentChunk upload) chunks uploadedBytes m in
            (m, Some p, calls)
    end.

(** The [catch] of [uploadImageDirect]. *)
Definition uploadImageDirect_catch (e : JsError) (code : option string) : JsError :=
  if String.eqb (err_name e) "AbortError" then Error "Upload was cancelled"
  else if str_includes "ECONNRESET" (err_message e)
          || bool_decide (code = Some "ECONNRESET")
  then Error "Connection was reset. Please check your network and retry."
  else if str_includes "Failed to fetch" (err_message e)
  then Error "Network error occurred. Please check your connection and retry."
  else if str_includes "aborted" (err_message e)
  then Error "Upload was cancelled or connection was interrupted"
  else e.

(** The result of [uploadImageDirect] once its [fetch] has settled. *)
Definition uploadImageDirect_settle (r : ImageReply) : Result ImageResult :=
  match r with
  | ImgOk true result => Ok result
  | ImgOk false _ =>
      Throw (uploadImageDirect_catch (Error "Image upload was not successful") None)
  | ImgNotOk errorText =>
      Throw (uploadImageDirect_catch (Error ("Image upload failed: " +:+ errorText)) None)
  | ImgThrows e code => Throw (uploadImageDirect_catch e code)
  end.

(** A process resumes with [input] at time [t]. *)
Definition proc_step (p : Process) (input : Input) (t : Z) (m : Manager)
  : Manager * Process * list Call :=
  let upload := p_upload p in
  match p_phase p, input with
  | AwaitChunkFetch i retry chunks uploadedBytes, ChunkFetched reply =>
      let fail (e : JsError) : Manager * Process * list Call :=
        (* the catch of uploadChunk *)
        if (retry <? RETRY_ATTEMPTS)
           && negb (signal_aborted (abortController upload) (controllers m))
        then (m, set_phase (AwaitChunkSleep i retry chunks uploadedBytes) p, [])
        else (processUpload_catch p e m, set_phase Finished p, []) in
      match reply with
      | ReplyOk true chunk =>
          let totalChunks := ceil_div (size upload) CHUNK_SIZE in
          let start := i * CHUNK_SIZE in
          let end_ := Z.min (start + CHUNK_SIZE) (size upload) in
          let chunks := <[Z.to_nat i := Some chunk]> chunks in
          let uploadedBytes := uploadedBytes + blob_size (file upload) start end_ in
          let timeElapsed := t - p_startTime p in
          let progress := calculateProgress (i + 1) totalChunks in
          let speed := calculateUploadSpeed uploadedBytes timeElapsed in
          let remainingBytes := size upload - uploadedBytes in
          let eta := estimateTimeRemaining remainingBytes speed in
          let m := updateUpload (id upload)
                     (patch_chunk_done (i + 1) progress speed eta chunks) m in
          enter_loop p (i + 1) chunks uploadedBytes m
      | ReplyOk false _ => fail (Error "Chunk upload was not successful")
      | ReplyNotOk errorText => fail (Error ("Chunk upload failed: " +:+ errorText))
      | ReplyThrows e => fail e
      end
  | AwaitChunkSleep i retry chunks uploadedBytes, TimerFired =>
      let start := i * CHUNK_SIZE in
      let end_ := Z.min (start + CHUNK_SIZE) (size upload) in
      (m, set_phase (AwaitChunkFetch i (retry + 1) chunks uploadedBytes) p,
       [CallChunk (id upload) i start end_])
  | AwaitImage, ImageSettled reply =>
      match uploadImageDirect_settle reply with
      | Ok result =>
          let uploadTime := t - p_startTime p in
          let speed := calculateUploadSpeed (size upload) uploadTime in
          let cs := map Some (img_chunks result) in
          (updateUpload (id upload)
             (patch_image_completed (img_telegramStorageId result) cs speed) m,
           set_phase AwaitRecord p,
           [CallRecord (id upload) (Some (img_telegramStorageId result)) cs])
      | Throw e => (processUpload_catch p e m, set_phase Finished p, [])
      end
  | AwaitRecord, RecordCreated (Ok _) =>
      (removeFromActive (id upload) m, set_phase Finished p, [])
  | AwaitRecord, RecordCreated (Throw e) =>
      (processUpload_catch p e m, set_phase Finished p, [])
  | _, _ => (m, p, [])
  end.

(** A process followed from [await] to [await]: each item is what the rest
    of the program did to the manager while the process was suspended, the
    input that settles the [await], and the time.  Returns the calls issued
    along the way. *)
Fixpoint proc_run (p : Process) (inputs : list ((Manager -> Manager) * Input * Z))
    (m : Manager) : Manager * Process * list Call :=
  match inputs with
  | [] => (m, p, [])
  | (others, input, t) :: rest =>
      let '(m1, p1, calls1) := proc_step p input t (others m) in
      let '(m2, p2, calls2) := proc_run p1 rest m1 in
      (m2, p2, calls1 ++ calls2)
  end.

(** From index [c0] on: the phase of a process, and the chunk requests in a
    list of calls. *)
Definition at_or_after (c0 : Z) (ph : Phase) : Prop :=
  match ph with
  | AwaitChunkFetch i _ _ _ | AwaitChunkSleep i _ _ _ => c0 <= i
  | _ => True
  end.

Definition calls_from (c0 : Z) (calls : list Call) : Prop :=
  forall i j s e, CallChunk i j s e ∈ calls -> c0 <= j.

(** ** The provider as a transition system *)

Record System := mkSystem {
  mgr : Manager;
  procs : list Process;
}.

(** The loop of the queue over the records it found pending: each is
    started while [canStartUpload()] holds. *)
Fixpoint processQueue_loop (pendingUploads : list string) (t : Z) (s : System) : System :=
  match pendingUploads with
  | [] => s
  | upload_id :: rest =>
      if canStartUpload (mgr s)
      then
        let '(m, p, _) := processUpload_start upload_id t (mgr s) in
        processQueue_loop rest t
          (mkSystem m (match p with Some p => procs s ++ [p] | None => procs s end))
      else s
  end.

(** The ids of the records in use. *)
Definition ids (m : Manager) : list string := map id (uploads m).



Definition initial : System := mkSystem (mkManager [] ∅ []) [].



(** The number of records in the state ["uploading"]. *)
Definition uploading_count (m : Manager) : nat :=
  length (filter (fun u => bool_decide (status u = st_uploading)) (uploads m)).

(** ** Vocabulary of the concurrency cap *)

(** Every record in the state ["uploading"] has its id in the active set. *)
Definition tracks (us : list UploadFile) (active : gset string) : Prop :=
  forall u, u ∈ us -> status u = st_uploading -> id u ∈ active.









(** ** A record paused after its first chunk *)

Definition sample_paused : UploadFile :=
  mkUpload "upload_0"
    {| f_name := "video.mp4"; f_size := 12 * 1024 * 1024; f_type := "video/mp4" |}
    "video.mp4" (12 * 1024 * 1024) "video/mp4" 33%Q st_paused None None "user"
    None (Some "file_0") [] 3 1 None None (Some 0) (Some 0%nat) 0.

Definition paused_manager : Manager := mkManager [sample_paused] ∅ [true].

(** ** A queue of five files *)

Definition sample_env : AddEnv :=
  {| initializeUploadSession := fun k _ => Ok ("file_" +:+ pretty k);
     generateUploadId := fun k => "upload_" +:+ pretty k;
     Date_now := fun _ => 0 |}.

Definition sample_files : list File :=
  map (fun n => {| f_name := "notes.txt"; f_size := n; f_type := "text/plain" |})
      [10; 20; 30; 40; 50].

Definition sample_added : Manager :=
  (addUploads sample_env sample_files None (Some "user") (mgr initial)).1.2.

Definition sample_queued : System :=
  processQueue_loop (ids sample_added) 0 (mkSystem sample_added []).

(** ** Overlapping calls of [processUpload] for one record

    What happens, one event at a time: the queue runs over a list of ids, an
    [await] of the [k]-th call settles, or the user presses a button. *)




(** The request of a chunk fails in the network; it is rejected because
    its signal is aborted; it succeeds. *)
Definition network_failure : Input :=
  ChunkFetched (ReplyThrows (TypeError "Failed to fetch")).

Definition rejected_as_aborted : Input :=
  ChunkFetched (ReplyThrows (AbortError "signal is aborted without reason")).





(** ** The requests of one run *)

(** The number of requests for chunk [j] among the calls. *)
Definition requests_chunk (j : Z) (c : Call) : bool :=
  match c with
  | CallChunk _ k _ _ => bool_decide (k = j)
  | _ => false
  end.

Definition chunk_requests (j : Z) (calls : list Call) : nat :=
  length (filter (fun c => requests_chunk j c) calls).

(** The requests for chunk [j] a process suspended at this [await] may
    still issue. *)
Definition requests_left (j : Z) (ph : Phase) : nat :=
  match ph with
  | AwaitChunkFetch i retry _ _ | AwaitChunkSleep i retry _ _ =>
      if j <? i then 0%nat
      else if j =? i then Z.to_nat (RETRY_ATTEMPTS - retry)
      else S (Z.to_nat RETRY_ATTEMPTS)
  | _ => 0%nat
  end.

(** The retry counter of [uploadChunk] is never negative, and the sleep
    before a retry is entered below [RETRY_ATTEMPTS] only. *)
Definition retry_in_range (ph : Phase) : Prop :=
  match ph with
  | AwaitChunkFetch _ retry _ _ => 0 <= retry
  | AwaitChunkSleep _ retry _ _ => 0 <= retry < RETRY_ATTEMPTS
  | _ => True
  end.

(** The request of chunk [k] of a record. *)
Definition chunk_call (u : UploadFile) (k : Z) : Call :=
  CallChunk (id u) k (k * CHUNK_SIZE) (Z.min (k * CHUNK_SIZE + CHUNK_SIZE) (size u)).

(** A run nothing interferes with, whose requests all succeed: the replies
    carry the chunks [stored], the [k]-th at time [times k]. *)
Definition all_stored (stored : list TelegramChunk) (times : nat -> Z)
  : list ((Manager -> Manager) * Input * Z) :=
  imap (fun k chunk => (fun m : Manager => m, ChunkFetched (ReplyOk true chunk), times k))
       stored.

(** What the chunk loop and the completion have done to the record, [n]
    chunks later. *)
Definition through (u : UploadFile) (n : nat) (f : UploadFile -> UploadFile) : Prop :=
  forall v, id (f v) = id v /\ status (f v) = st_completed /\
            progress (f v) = 100%Q /\ telegramStorageId (f v) = fileId u /\
            totalChunks (f v) = totalChunks v /\
            currentChunk (f v) =
              if n is O then currentChunk v else ceil_div (size u) CHUNK_SIZE.

(** The request a run has just issued is rejected because its signal was
    aborted. *)
Definition rejected_by_abort (calls : list Call) (input : Input) : Prop :=
  match calls, input with
  | [CallChunk _ _ _ _], ChunkFetched (ReplyThrows e) => err_name e = "AbortError"
  | [CallImage _], ImageSettled (ImgThrows e _) => err_name e = "AbortError"
  | _, _ => False
  end.

(** A record as [addUploads] builds it. *)
Definition new_record (folder : option string) (user : string) (u : UploadFile) : Prop :=
  name u = f_name (file u) /\ size u = f_size (file u) /\ type u = f_type (file u) /\
  progress u = 0%Q /\ status u = st_pending /\ error u = None /\
  folderId u = folder /\ userId u = user /\ telegramStorageId u = None /\
  chunks u = [] /\ totalChunks u = ceil_div (size u) CHUNK_SIZE /\
  currentChunk u = 0 /\ retryCount u = Some 0.

(** ** The computed values

    Counts and sizes are integers; averages and rates are rationals. *)

(** What [contextValue] computes from the records; [activeUploads] there is
    [uploading_count]. *)
Definition isUploading (m : Manager) : bool :=
  existsb (fun u => bool_decide (status u = st_uploading)
                    || bool_decide (status u = st_pending)) (uploads m).

Definition totalProgress (m : Manager) : Q :=
  if (0 <? length (uploads m))%nat
  then (foldl (fun sum u => sum + progress u) 0 (uploads m)
        / inject_Z (Z.of_nat (length (uploads m))))%Q
  else 0%Q.

Definition queuedUploads (m : Manager) : nat :=
  length (filter (fun u => bool_decide (status u = st_pending)) (uploads m)).

(** The number of records in a given state. *)
Definition count_status (s : UploadStatus) (us : list UploadFile) : Z :=
  Z.of_nat (length (filter (fun u => bool_decide (status u = s)) us)).

(** The accumulator of [useUploadStats] and its result. *)
Record Stats := mkStats {
  s_total : Z;
  s_pending : Z;
  s_uploading : Z;
  s_paused : Z;
  s_completed : Z;
  s_error : Z;
  s_cancelled : Z;
  s_totalSize : Z;
  s_completedSize : Z;
}.

Definition stats_step (acc : Stats) (upload : UploadFile) : Stats :=
  let count (s : UploadStatus) (n : Z) : Z :=
    if bool_decide (status upload = s) then n + 1 else n in
  mkStats (s_total acc + 1)
    (count st_pending (s_pending acc)) (count st_uploading (s_uploading acc))
    (count st_paused (s_paused acc)) (count st_completed (s_completed acc))
    (count st_error (s_error acc)) (count st_cancelled (s_cancelled acc))
    (s_totalSize acc + size upload)
    (if bool_decide (status upload = st_completed)
     then s_completedSize acc + size upload else s_completedSize acc).

Record UploadStats := mkUploadStats {
  stats : Stats;
  completionRate : Q;
  errorRate : Q;
}.

Definition useUploadStats (uploads : list UploadFile) : UploadStats :=
  let stats := foldl stats_step (mkStats 0 0 0 0 0 0 0 0 0) uploads in
  mkUploadStats stats
    (if 0 <? s_total stats
     then (inject_Z (s_completed stats) / inject_Z (s_total stats) * 100)%Q else 0%Q)
    (if 0 <? s_total stats
     then (inject_Z (s_error stats) / inject_Z (s_total stats) * 100)%Q else 0%Q).

(** ** More sample states *)

(** The paused record resumed, and the manager after that. *)
Definition sample_resumed : UploadFile := patch_resumed 1 sample_paused.

Definition resumed_manager : Manager := resumeUpload "upload_0" paused_manager.

(** The replies to the two chunks the resumed record still has to send. *)
Definition two_stored : list TelegramChunk :=
  [mkChunk "file_0_1" 1 8 "digest" (Some "doc1");
   mkChunk "file_0_2" 2 9 "digest" (Some "doc2")].

(** A record that has failed once. *)
Definition sample_failed : UploadFile :=
  mkUpload "upload_0"
    {| f_name := "video.mp4"; f_size := 12 * 1024 * 1024; f_type := "video/mp4" |}
    "video.mp4" (12 * 1024 * 1024) "video/mp4" 33%Q st_error
    (Some "Network connection lost. (Click retry to try again)") None "user"
    None (Some "file_0") [] 3 1 None None (Some 1) (Some 0%nat) 0.

Definition failed_manager : Manager := mkManager [sample_failed] ∅ [false].

(** A request that fails in the network four times, with the sleeps in
    between. *)
Definition four_failures : list ((Manager -> Manager) * Input * Z) :=
  [ (fun m => m, network_failure, 10);
    (fun m => m, TimerFired, 1010);
    (fun m => m, network_failure, 1020);
    (fun m => m, TimerFired, 3020);
    (fun m => m, network_failure, 3030);
    (fun m => m, TimerFired, 6030);
    (fun m => m, network_failure, 6040) ].

End UploadManager.

(** * Properties *)

(** ** Bytes, blocks and padding *)

Lemma byte_xor_cancel (a b : byte) : byte_xor (byte_xor a b) b = a.
Proof.
  unfold byte_xor.
  destruct (Byte.to_bits a) as (a0 & a1 & a2 & a3 & a4 & a5 & a6 & a7) eqn:Ea.
  destruct (Byte.to_bits b) as (b0 & b1 & b2 & b3 & b4 & b5 & b6 & b7) eqn:Eb.
  rewrite Byte.to_bits_of_bits.
  rewrite !xorb_assoc, !xorb_nilpotent, !xorb_false_r.
  rewrite <- Ea. apply Byte.of_bits_to_bits.
Qed.

Lemma xor_block_length (a b : Buffer) :
  length a = length b -> length (xor_block a b) = length a.
Proof.
  intros H. unfold xor_block. rewrite length_zip_with. lia.
Qed.

Lemma xor_block_cancel (a b : Buffer) :
  length a = length b -> xor_block (xor_block a b) b = a.
Proof.
  revert b. induction a as [|x a IH]; intros [|y b] H; simpl in *; try done.
  f_equal; [apply byte_xor_cancel | apply IH; lia].
Qed.

Lemma byte_to_of_nat (n : nat) : (n < 256)%nat -> Byte.to_nat (byte_of_nat n) = n.
Proof.
  intros Hn. unfold byte_of_nat.
  destruct (Byte.of_nat n) as [b|] eqn:E.
  - by apply Byte.to_of_nat.
  - apply Byte.of_nat_None_iff in E. lia.
Qed.

Lemma byte_eqb_refl (b : byte) : Byte.eqb b b = true.
Proof. by apply Byte.byte_dec_lb. Qed.

Lemma forallb_replicate_eqb (b : byte) (n : nat) :
  forallb (Byte.eqb b) (replicate n b) = true.
Proof. induction n as [|n IH]; simpl; [done|]. by rewrite byte_eqb_refl. Qed.

Lemma pkcs7_pad_length (rest : Buffer) :
  (length rest < AES_BLOCK)%nat -> length (pkcs7_pad rest) = AES_BLOCK.
Proof.
  intros H. unfold pkcs7_pad. rewrite length_app, length_replicate. lia.
Qed.

Lemma pkcs7_unpad_pad (rest : Buffer) :
  (length rest < AES_BLOCK)%nat -> pkcs7_unpad (pkcs7_pad rest) = Ok rest.
Proof.
  intros H. unfold pkcs7_unpad, pkcs7_pad.
  set (n := (AES_BLOCK - length rest)%nat).
  assert (Hn : (1 <= n <= 16)%nat) by (unfold n, AES_BLOCK in *; lia).
  assert (Hlast : last (rest ++ replicate n (byte_of_nat n)) = Some (byte_of_nat n)).
  { destruct n as [|m]; [lia|]. rewrite replicate_S_end.
    rewrite app_assoc. apply last_snoc. }
  rewrite Hlast. rewrite byte_to_of_nat by lia.
  replace ((n =? 0)%nat || (AES_BLOCK <? n)%nat) with false.
  2:{ symmetry. apply orb_false_iff. split.
      - apply Nat.eqb_neq. lia.
      - apply Nat.ltb_ge. unfold AES_BLOCK. lia. }
  replace (AES_BLOCK - n)%nat with (length rest) by (unfold n, AES_BLOCK in *; lia).
  rewrite drop_app_length, take_app_length.
  by rewrite forallb_replicate_eqb.
Qed.

(** ** CBC with padding: decryption inverts encryption *)

Section CipherFacts.
Context `{C : CryptoLib}.

Lemma cbc_encrypt_length k n : forall prev data,
  CryptoLaws C -> length prev = AES_BLOCK -> (n * AES_BLOCK <= length data)%nat ->
  length (cbc_encrypt k prev n data).1 = (n * AES_BLOCK)%nat /\
  length (cbc_encrypt k prev n data).2 = AES_BLOCK.
Proof.
  intros prev data L. revert prev data.
  induction n as [|n IH]; intros prev data Hp Hd; simpl.
  - done.
  - set (c := aes_encrypt_block k _).
    assert (Hc : length c = AES_BLOCK).
    { apply (encrypt_block_length C L). rewrite xor_block_length; rewrite length_take; unfold AES_BLOCK in *; lia. }
    specialize (IH c (drop AES_BLOCK data) Hc).
    destruct (cbc_encrypt k c n (drop AES_BLOCK data)) as [out last]. simpl in *.
    rewrite length_app, Hc. rewrite length_drop in IH. unfold AES_BLOCK in *. lia.
Qed.

Lemma cbc_encrypt_prefix k n : forall prev (a b : Buffer),
  (n * AES_BLOCK <= length a)%nat ->
  cbc_encrypt k prev n (a ++ b) = cbc_encrypt k prev n a.
Proof.
  induction n as [|n IH]; intros prev a b Ha; simpl; [done|].
  rewrite take_app_le by (unfold AES_BLOCK in *; lia).
  rewrite drop_app_le by (unfold AES_BLOCK in *; lia).
  rewrite IH; [done|]. rewrite length_drop. unfold AES_BLOCK in *. lia.
Qed.

Lemma cbc_encrypt_add k n m : forall prev data,
  cbc_encrypt k prev (n + m) data =
  let '(o1, l1) := cbc_encrypt k prev n data in
  let '(o2, l2) := cbc_encrypt k l1 m (drop (n * AES_BLOCK) data) in
  (o1 ++ o2, l2).
Proof.
  induction n as [|n IH]; intros prev data; simpl.
  - destruct (cbc_encrypt k prev m data) as [o l] eqn:E; simpl. rewrite drop_0, E. done.
  - rewrite IH. rewrite drop_drop.
    destruct (cbc_encrypt k _ n _) as [o1 l1].
    destruct (cbc_encrypt k l1 m _) as [o2 l2].
    by rewrite app_assoc.
Qed.

Lemma cbc_decrypt_encrypt k n : forall prev data tail,
  CryptoLaws C -> length prev = AES_BLOCK -> (n * AES_BLOCK <= length data)%nat ->
  cbc_decrypt k prev n ((cbc_encrypt k prev n data).1 ++ tail) =
  (take (n * AES_BLOCK) data, (cbc_encrypt k prev n data).2).
Proof.
  intros prev data tail L. revert prev data tail.
  induction n as [|n IH]; intros prev data tail Hp Hd; [done|].
  cbn [cbc_encrypt cbc_decrypt].
  set (x := xor_block (take AES_BLOCK data) prev).
  assert (Hx : length x = AES_BLOCK).
  { unfold x. rewrite xor_block_length; rewrite length_take; unfold AES_BLOCK in *; lia. }
  set (c := aes_encrypt_block k x).
  assert (Hc : length c = AES_BLOCK) by (by apply (encrypt_block_length C L)).
  specialize (IH c (drop AES_BLOCK data) tail Hc).
  destruct (cbc_encrypt k c n (drop AES_BLOCK data)) as [out last] eqn:E.
  cbn [fst snd] in *. rewrite <- app_assoc.
  rewrite take_app_length' by done. rewrite drop_app_length' by done.
  rewrite IH by (rewrite length_drop; unfold AES_BLOCK in *; lia).
  unfold c. rewrite (decrypt_encrypt_block C L) by done.
  unfold x. rewrite xor_block_cancel by (rewrite length_take; unfold AES_BLOCK in *; lia).
  f_equal. change (S n * AES_BLOCK)%nat with (AES_BLOCK + n * AES_BLOCK)%nat.
  by rewrite <- take_take_drop.
Qed.

Lemma rest_short (chunk : Buffer) :
  (length (drop (length chunk / AES_BLOCK * AES_BLOCK) chunk) < AES_BLOCK)%nat.
Proof.
  rewrite length_drop. unfold AES_BLOCK.
  pose proof (Nat.div_mod_eq (length chunk) 16).
  pose proof (Nat.mod_upper_bound (length chunk) 16). lia.
Qed.

Lemma padded_length (chunk : Buffer) :
  length (padded chunk) = ((length chunk / AES_BLOCK + 1) * AES_BLOCK)%nat.
Proof.
  unfold padded. rewrite length_app, pkcs7_pad_length by apply rest_short.
  rewrite length_take. unfold AES_BLOCK.
  pose proof (Nat.div_mod_eq (length chunk) 16). lia.
Qed.

Lemma encryptChunk_cbc (chunk : Buffer) (key : string) :
  encryptChunk chunk key =
  (cbc_encrypt (EVP_BytesToKey key).1 (EVP_BytesToKey key).2
     (length chunk / AES_BLOCK + 1) (padded chunk)).1.
Proof.
  unfold encryptChunk, createCipher, cipher_update, cipher_final, Buffer_concat.
  destruct (EVP_BytesToKey key) as [k iv]. cbn [c_buf c_key c_chain fst snd app].
  set (n := (length chunk / AES_BLOCK)%nat).
  assert (Hn : (n * AES_BLOCK <= length chunk)%nat).
  { unfold n, AES_BLOCK. pose proof (Nat.div_mod_eq (length chunk) 16). lia. }
  rewrite cbc_encrypt_add. unfold padded. fold n.
  rewrite cbc_encrypt_prefix by (rewrite length_take; lia).
  replace (cbc_encrypt k iv n (take (n * AES_BLOCK) chunk))
    with (cbc_encrypt k iv n chunk).
  2:{ rewrite <- (take_drop (n * AES_BLOCK) chunk) at 1.
      apply cbc_encrypt_prefix. rewrite length_take. lia. }
  destruct (cbc_encrypt k iv n chunk) as [out last].
  rewrite drop_app_length' by (rewrite length_take; lia).
  cbn [cbc_encrypt concat fst].
  rewrite firstn_all2 by (rewrite pkcs7_pad_length; [done | apply rest_short]).
  by rewrite !app_nil_r.
Qed.

Theorem decryptChunk_encryptChunk (chunk : Buffer) (key : string) :
  CryptoLaws C -> decryptChunk (encryptChunk chunk key) key = Ok chunk.
Proof.
  intros L. rewrite encryptChunk_cbc.
  unfold decryptChunk, createDecipher.
  pose proof (iv_length C L key) as Hiv.
  destruct (EVP_BytesToKey key) as [k iv]. cbn [fst snd] in *.
  set (n := (length chunk / AES_BLOCK)%nat).
  pose proof (padded_length chunk) as Hpl. fold n in Hpl.
  destruct (cbc_encrypt_length k (n + 1) iv (padded chunk) L Hiv) as [Hlen _]; [lia|].
  pose proof (cbc_decrypt_encrypt k (n + 1) iv (padded chunk) [] L Hiv) as Hdec.
  rewrite app_nil_r in Hdec. specialize (Hdec ltac:(lia)).
  set (ct := (cbc_encrypt k iv (n + 1) (padded chunk)).1) in *.
  unfold decipher_update.
  destruct ct as [|b0 ct0] eqn:Ect.
  { simpl in Hlen. unfold AES_BLOCK in Hlen. lia. }
  rewrite <- Ect in *. clear Ect b0 ct0.
  cbn [d_buf d_key d_chain d_final app].
  rewrite Hlen.
  replace (((n + 1) * AES_BLOCK) / AES_BLOCK)%nat with (S n).
  2:{ symmetry. rewrite Nat.div_mul; unfold AES_BLOCK; lia. }
  replace (S n) with (n + 1)%nat at 1 by lia.
  rewrite Hdec.
  rewrite drop_ge by lia.
  rewrite firstn_all2 by lia.
  unfold decipher_final. cbn [d_buf d_final].
  unfold padded. fold n.
  assert (Hn : (n * AES_BLOCK <= length chunk)%nat).
  { unfold n, AES_BLOCK. pose proof (Nat.div_mod_eq (length chunk) 16). lia. }
  rewrite drop_app_length' by (rewrite length_take; lia).
  rewrite take_app_length' by (rewrite length_take; lia).
  rewrite pkcs7_unpad_pad by apply rest_short.
  unfold Buffer_concat. cbn [concat]. rewrite app_nil_r.
  by rewrite take_drop.
Qed.
End CipherFacts.

(** The stand-in primitives meet the laws. *)
Lemma standin_crypto_laws : CryptoLaws standin_crypto.
Proof.
  split.
  - by intros pw.
  - intros k b Hb. cbn. by rewrite length_reverse.
  - intros k b Hb. cbn. apply reverse_involutive.
Qed.
Section RetryFacts.
Context `{P : Platform}.

Lemma sleep_never_aborted ms s w :
  never_aborted s -> sleep ms s w = (Ok tt, set_now (now w + Z.max 0 ms) w).
Proof.
  unfold never_aborted, sleep. destruct s as [[[a|]]|]; intros H; done.
Qed.

Lemma attempt_controller_never_aborted s timeoutMs t :
  never_aborted s -> attempt_controller s timeoutMs t = t + timeoutMs.
Proof.
  unfold never_aborted, attempt_controller. destruct s as [[[a|]]|]; intros H; done.
Qed.

Lemma aborted_opt_never s t : never_aborted s -> aborted_opt s t = false.
Proof.
  unfold never_aborted, aborted_opt, aborted. destruct s as [[[a|]]|]; intros H; done.
Qed.

Lemma fetchWithRetry_loop_retryable req timeoutMs signal retryStatuses retries baseDelayMs :
  never_aborted signal ->
  always_retryable req timeoutMs retryStatuses ->
  forall n attempt w, (attempt + n = retries)%nat ->
    exists res w' times,
      fetchWithRetry_loop req timeoutMs signal retryStatuses retries baseDelayMs (S n) attempt w
        = (Ok res, w') /\
      ok res = false /\ includes retryStatuses (status res) = true /\
      length times = S n /\
      sent w' = sent w ++ map (fun t => (t, req)) times.
Proof.
  intros Hs Hr. induction n as [|n IH]; intros attempt w Hn.
  - destruct (Hr (server w) (now w)) as (lat & res & s' & Hserve & Hlat & Hok & Hin).
    exists res. eexists. exists [now w]. cbn [fetchWithRetry_loop].
    unfold bind, fetchWithRetry_attempt, try_catch, bind, fetch.
    rewrite attempt_controller_never_aborted by done.
    replace (now w + timeoutMs <=? now w) with false by lia.
    rewrite Hserve.
    replace (now w + Z.of_N lat <? now w + timeoutMs) with true by lia.
    rewrite Hok, Hin.
    replace (attempt =? retries)%nat with true by (symmetry; apply Nat.eqb_eq; lia).
    cbn [negb orb]. unfold ret. split; [reflexivity|]. by repeat split.
  - destruct (Hr (server w) (now w)) as (lat & res & s' & Hserve & Hlat & Hok & Hin).
    remember (S n) as m.
    cbn [fetchWithRetry_loop].
    unfold bind at 1. unfold fetchWithRetry_attempt, try_catch. unfold bind at 1. unfold fetch.
    rewrite attempt_controller_never_aborted by done.
    replace (now w + timeoutMs <=? now w) with false by lia.
    rewrite Hserve.
    replace (now w + Z.of_N lat <? now w + timeoutMs) with true by lia.
    rewrite Hok, Hin.
    replace (attempt =? retries)%nat with false by (symmetry; apply Nat.eqb_neq; lia).
    cbn [negb orb]. unfold bind, Math_random_floor.
    rewrite sleep_never_aborted by done. unfold ret.
    match goal with |- context [fetchWithRetry_loop _ _ _ _ _ _ _ _ ?w1] =>
      destruct (IH (S attempt) w1) as (res' & w' & times & Hrun & Hok' & Hin' & Hlen & Hsent);
        [lia|] end.
    subst m. rewrite Hrun. exists res', w', (now w :: times). repeat split; try done.
    + cbn. by rewrite Hlen.
    + rewrite Hsent. cbn [sent set_now map]. by rewrite <- app_assoc.
Qed.

(** C3. A request whose every attempt is answered with a retryable status is
    dispatched exactly [retries + 1] times and the last non-OK response is
    returned to the caller; a non-OK status outside the retry list is returned
    after a single dispatch. *)
Theorem fetchWithRetry_retry_budget req timeoutMs signal retryStatuses retries baseDelayMs w :
  never_aborted signal ->
  (always_retryable req timeoutMs retryStatuses ->
   exists res w' times,
     fetchWithRetry req timeoutMs signal retryStatuses retries baseDelayMs w = (Ok res, w') /\
     ok res = false /\ includes retryStatuses (status res) = true /\
     length times = S retries /\
     sent w' = sent w ++ map (fun t => (t, req)) times) /\
  (forall lat res s',
     serve (server w) (now w) req = (Responds lat res, s') ->
     Z.of_N lat < timeoutMs ->
     ok res = false -> includes retryStatuses (status res) = false ->
     exists w',
       fetchWithRetry req timeoutMs signal retryStatuses retries baseDelayMs w = (Ok res, w') /\
       sent w' = sent w ++ [(now w, req)]).
Proof.
  intros Hs. split.
  - intros Hr. unfold fetchWithRetry.
    by apply fetchWithRetry_loop_retryable.
  - intros lat res s' Hserve Hlat Hok Hin. eexists.
    unfold fetchWithRetry. cbn [fetchWithRetry_loop].
    unfold bind, fetchWithRetry_attempt, try_catch, bind, fetch.
    rewrite attempt_controller_never_aborted by done.
    replace (now w + timeoutMs <=? now w) with false by lia.
    rewrite Hserve.
    replace (now w + Z.of_N lat <? now w + timeoutMs) with true by lia.
    rewrite Hok, Hin. cbn [negb orb]. unfold ret. by split.
Qed.
End RetryFacts.

Section CancelFacts.
Context `{P : Platform}.
Variable a : Z.

Lemma cancel_post_refl {A} (w : World) (r : Result A) : now w < a -> cancel_post a w r w.
Proof.
  intros H. split; [|split]; [|lia|lia].
  exists []. by rewrite app_nil_r.
Qed.

Lemma cancel_post_trans {A B} (w w1 w2 : World) (x : A) (r : Result B) :
  cancel_post a w (Ok x) w1 -> cancel_post a w1 r w2 -> cancel_post a w r w2.
Proof.
  intros ([n1 [S1 F1]] & T1 & A1) ([n2 [S2 F2]] & T2 & A2).
  split; [|split].
  - exists (n1 ++ n2). rewrite S2, S1, app_assoc. split; [done|]. by apply Forall_app.
  - lia.
  - done.
Qed.

Lemma cancel_post_ok_before {A} (w w1 : World) (x : A) :
  cancel_post a w (Ok x) w1 -> now w1 < a.
Proof.
  intros (_ & _ & A1). destruct (Z.lt_ge_cases (now w1) a) as [|Hge]; [done|].
  destruct (A1 Hge) as (_ & e & He & _). discriminate.
Qed.

Lemma prompt_ret {A} (x : A) : prompt a (ret x).
Proof. intros w r w' Hw [= <- <-]. by apply cancel_post_refl. Qed.

Lemma prompt_throw {A} (e : JsError) : prompt a (@throw _ A e).
Proof. intros w r w' Hw [= <- <-]. by apply cancel_post_refl. Qed.

Lemma prompt_bind {A B} (m : Async A) (f : A -> Async B) :
  prompt a m -> (forall x, prompt a (f x)) -> prompt a (bind m f).
Proof.
  intros Hm Hf w r w' Hw. unfold bind.
  destruct (m w) as [[x|e] w1] eqn:E.
  - intros Hrun. pose proof (Hm _ _ _ Hw E) as H1.
    eapply cancel_post_trans; [exact H1|].
    eapply Hf; [|exact Hrun]. by eapply cancel_post_ok_before.
  - intros [= <- <-]. pose proof (Hm _ _ _ Hw E) as (S1 & T1 & A1).
    split; [done|]. split; [done|]. intros Hge. destruct (A1 Hge) as (? & e' & [= <-] & ?).
    split; [done|]. by exists e.
Qed.

Lemma prompt_try_catch {A} (m : Async A) (h : JsError -> Async A) :
  prompt a m -> (forall e, prompt a (h e)) ->
  (forall e w, a <= now w -> h e w = (Throw e, w)) ->
  prompt a (try_catch m h).
Proof.
  intros Hm Hh Hre w r w' Hw. unfold try_catch.
  destruct (m w) as [[x|e] w1] eqn:E.
  - intros [= <- <-]. by eapply Hm.
  - pose proof (Hm _ _ _ Hw E) as H1.
    destruct (Z.lt_ge_cases (now w1) a) as [Hlt|Hge].
    + intros Hrun. pose proof (Hh _ _ _ _ Hlt Hrun) as H2.
      destruct H1 as ([n1 [S1 F1]] & T1 & A1). destruct H2 as ([n2 [S2 F2]] & T2 & A2).
      split; [|split].
      * exists (n1 ++ n2). rewrite S2, S1, app_assoc. split; [done|]. by apply Forall_app.
      * lia.
      * done.
    + rewrite Hre by done. intros [= <- <-]. done.
Qed.

Lemma prompt_random m : prompt a (Math_random_floor m).
Proof.
  intros w r w' Hw [= <- <-]. split; [|split]; cbn; [|lia|lia].
  exists []. by rewrite app_nil_r.
Qed.

Lemma prompt_read_aborted s : prompt a (read_aborted s).
Proof. intros w r w' Hw [= <- <-]. by apply cancel_post_refl. Qed.

Lemma prompt_sleep ms s : abort_time s = Some a -> prompt a (sleep ms (Some s)).
Proof.
  intros Hs w r w' Hw. unfold sleep. rewrite Hs.
  destruct (Z.leb_spec a (now w)); [lia|].
  destruct (Z.leb_spec a (now w + Z.max 0 ms)); intros [= <- <-].
  - split; [|split]; cbn; [|lia|].
    + exists []. by rewrite app_nil_r.
    + intros _. split; [done|]. by exists Aborted.
  - split; [|split]; cbn; [|lia|lia].
    exists []. by rewrite app_nil_r.
Qed.

Lemma prompt_fetch req ctrl : ctrl <= a -> prompt a (fetch req ctrl).
Proof.
  intros Hc w r w' Hw. unfold fetch.
  destruct (Z.leb_spec ctrl (now w)).
  { intros [= <- <-]. by apply cancel_post_refl. }
  destruct (serve (server w) (now w) req) as [o s'].
  assert (Hsent : forall (t : Z) (r0 : Result Response), now w <= t ->
            (a <= t -> t = a /\ exists e, r0 = Throw e /\ err_name e = "AbortError") ->
            cancel_post a w r0
              (set_now t (mkWorld (now w) s' (sent w ++ [(now w, req)]) (draws w) (uuids w)))).
  { intros t r0 Ht Ha. split; [|split]; cbn; [|lia|done].
    exists [(now w, req)]. split; [done|]. constructor; [cbn; lia|constructor]. }
  assert (Hab : a <= ctrl -> ctrl = a /\ exists e, Throw fetch_aborted = @Throw Response e /\ err_name e = "AbortError").
  { intros. split; [lia|]. by exists fetch_aborted. }
  destruct o as [lat res|lat e|].
  - destruct (Z.ltb_spec (now w + Z.of_N lat) ctrl); intros [= <- <-]; apply Hsent; try lia; done.
  - destruct (Z.ltb_spec (now w + Z.of_N lat) ctrl); intros [= <- <-]; apply Hsent; try lia; done.
  - intros [= <- <-]. apply Hsent; [lia|done].
Qed.

Lemma attempt_controller_le s timeoutMs t :
  abort_time s = Some a -> attempt_controller (Some s) timeoutMs t <= a.
Proof. intros Hs. unfold attempt_controller. destruct s as [[a'|]]; simplify_eq/=. lia. Qed.

Lemma prompt_attempt req timeoutMs s retryStatuses retries baseDelayMs attempt :
  abort_time s = Some a ->
  prompt a (fetchWithRetry_attempt req timeoutMs (Some s) retryStatuses retries baseDelayMs attempt).
Proof.
  intros Hs. unfold fetchWithRetry_attempt. apply prompt_try_catch.
  - intros w r w' Hw.
    apply prompt_bind; [by apply prompt_fetch, attempt_controller_le| |done].
    intros res. destruct (ok res); [apply prompt_ret|].
    destruct (_ || _); [apply prompt_ret|].
    apply prompt_bind; [apply prompt_random|]. intros j.
    apply prompt_bind; [by apply prompt_sleep|]. intros _. apply prompt_ret.
  - intros e. apply prompt_bind; [apply prompt_read_aborted|]. intros b.
    destruct b; [apply prompt_throw|]. destruct (_ =? _)%nat; [apply prompt_throw|].
    apply prompt_bind; [apply prompt_random|]. intros j.
    apply prompt_bind; [by apply prompt_sleep|]. intros _. apply prompt_ret.
  - intros e w Ha. unfold bind, read_aborted, aborted_opt, aborted. rewrite Hs.
    destruct (Z.leb_spec a (now w)); [done|lia].
Qed.

Lemma prompt_loop req timeoutMs s retryStatuses retries baseDelayMs n :
  abort_time s = Some a ->
  forall attempt,
    prompt a (fetchWithRetry_loop req timeoutMs (Some s) retryStatuses retries baseDelayMs
              n attempt).
Proof.
  intros Hs. induction n as [|n IH]; intros attempt; cbn [fetchWithRetry_loop].
  - apply prompt_throw.
  - apply prompt_bind; [by apply prompt_attempt|].
    intros [res|]; [apply prompt_ret | apply IH].
Qed.

Lemma fetchWithRetry_already_aborted req timeoutMs s retryStatuses retries baseDelayMs w :
  abort_time s = Some a -> a <= now w ->
  fetchWithRetry req timeoutMs (Some s) retryStatuses retries baseDelayMs w
  = (Throw fetch_aborted, w).
Proof.
  intros Hs Ha. unfold fetchWithRetry. cbn [fetchWithRetry_loop].
  unfold bind, fetchWithRetry_attempt, try_catch, bind, fetch.
  pose proof (attempt_controller_le s timeoutMs (now w) Hs).
  destruct (Z.leb_spec (attempt_controller (Some s) timeoutMs (now w)) (now w)); [|lia].
  unfold read_aborted, aborted_opt, aborted. rewrite Hs.
  destruct (Z.leb_spec a (now w)); [done|lia].
Qed.
End CancelFacts.


Lemma CHUNK_SIZE_eq : CHUNK_SIZE = 5242880.
Proof. reflexivity. Qed.

(* The value is used through [CHUNK_SIZE_eq]; conversion leaves it alone. *)
Opaque CHUNK_SIZE.

Lemma buffer_slice_chunk (b : Buffer) (i : Z) :
  0 <= i -> i * CHUNK_SIZE < buffer_length b ->
  buffer_slice b (i * CHUNK_SIZE) (Z.min (i * CHUNK_SIZE + CHUNK_SIZE) (buffer_length b))
  = take (Z.to_nat CHUNK_SIZE) (drop (Z.to_nat (i * CHUNK_SIZE)) b).
Proof.
  intros Hi Hlt. unfold buffer_slice, slice_index, buffer_length in *.
  rewrite !CHUNK_SIZE_eq in *.
  set (L := Z.of_nat (length b)) in *.
  destruct (Z.ltb_spec (i * 5242880) 0); [lia|].
  destruct (Z.ltb_spec (Z.min (i * 5242880 + 5242880) L) 0); [lia|].
  rewrite (Z.min_l (i * 5242880) L) by lia.
  rewrite (Z.min_l (Z.min _ _) L) by lia.
  destruct (Z.ltb_spec (i * 5242880) (Z.min (i * 5242880 + 5242880) L)); [|lia].
  destruct (Z.le_ge_cases (i * 5242880 + 5242880) L).
  - rewrite Z.min_l by lia. f_equal. lia.
  - rewrite Z.min_r by lia.
    rewrite !firstn_all2; [done| |]; rewrite length_drop; unfold L; lia.
Qed.


Section SentFacts.
Context `{P : Platform}.

Lemma sleep_sent ms s w r w' : sleep ms s w = (r, w') -> sent w' = sent w.
Proof.
  unfold sleep. intros H. repeat case_match; by simplify_eq/=.
Qed.

Lemma fetch_sent req ctrl w r w' :
  fetch req ctrl w = (r, w') ->
  (sent w' = sent w /\ is_ok r = false) \/ sent w' = sent w ++ [(now w, req)].
Proof.
  unfold fetch. intros H. repeat case_match; simplify_eq/=; auto.
Qed.

Lemma attempt_sent req timeoutMs signal retryStatuses retries baseDelayMs attempt w r w' :
  fetchWithRetry_attempt req timeoutMs signal retryStatuses retries baseDelayMs attempt w
    = (r, w') ->
  (sent w' = sent w /\ forall res, r <> Ok (Some res)) \/
  sent w' = sent w ++ [(now w, req)].
Proof.
  unfold fetchWithRetry_attempt, try_catch, bind, ret, throw, read_aborted, Math_random_floor.
  intros H.
  destruct (fetch req _ w) as [r1 w1] eqn:Ef.
  apply fetch_sent in Ef.
  repeat (case_match; simplify_eq/=);
    repeat match goal with
    | H : sleep _ _ _ = _ |- _ => apply sleep_sent in H; cbn in H
    end;
    destruct Ef as [[Ef ?]|Ef]; simplify_eq/=; try (right; congruence);
    left; (split; [congruence|done]).
Qed.

Lemma fetchWithRetry_loop_sent req timeoutMs signal retryStatuses retries baseDelayMs n :
  forall attempt w r w',
    fetchWithRetry_loop req timeoutMs signal retryStatuses retries baseDelayMs n attempt w
      = (r, w') ->
    exists times, sent w' = sent w ++ map (fun t => (t, req)) times /\
                  (is_ok r = true -> times <> []).
Proof.
  induction n as [|n IH]; intros attempt w r w'; cbn [fetchWithRetry_loop].
  - intros [= <- <-]. exists []. by rewrite app_nil_r.
  - unfold bind.
    destruct (fetchWithRetry_attempt _ _ _ _ _ _ _ w) as [[[res|]|e] w1] eqn:Ea;
      apply attempt_sent in Ea.
    + intros [= <- <-]. destruct Ea as [[_ Ea]|Ea]; [by destruct (Ea res)|].
      exists [now w]. by split.
    + intros Hrun. apply IH in Hrun as (times & Hs & Hne).
      destruct Ea as [[Ea _]|Ea].
      * exists times. by rewrite Hs, Ea.
      * exists (now w :: times). rewrite Hs, Ea, <- app_assoc. by split.
    + intros [= <- <-]. destruct Ea as [[Ea _]|Ea].
      * exists []. by rewrite app_nil_r.
      * exists [now w]. by split.
Qed.

Lemma fetchWithRetry_sent req timeoutMs signal retryStatuses retries baseDelayMs w r w' :
  fetchWithRetry req timeoutMs signal retryStatuses retries baseDelayMs w = (r, w') ->
  exists times, sent w' = sent w ++ map (fun t => (t, req)) times /\
                (is_ok r = true -> times <> []).
Proof. apply fetchWithRetry_loop_sent. Qed.

End SentFacts.

Section UploadFacts.
Context `{C : CryptoLib} `{P : Platform}.

Lemma sendDocument_sent buffer filename signal w r w' :
  sendDocument buffer filename signal w = (r, w') ->
  exists times,
    sent w' = sent w ++ map (fun t => (t, ReqSendDocument TELEGRAM_CHANNEL_ID buffer filename)) times /\
    (is_ok r = true -> times <> []).
Proof.
  unfold sendDocument, bind.
  destruct (fetchWithRetry _ _ _ _ _ _ w) as [[res|e] w1] eqn:Ef;
    apply fetchWithRetry_sent in Ef as (times & Hs & Hne).
  - intros H. exists times. split; [|by intros; apply Hne].
    unfold throw, ret in H. repeat case_match; by simplify_eq/=.
  - intros [= <- <-]. exists times. by split.
Qed.

(** What [uploadChunk] returns carries the index it was given and the digest
    of the encrypted chunk; what it dispatches is the encrypted chunk. *)
Lemma uploadChunk_spec fileId i chunk filename signal w r w' :
  uploadChunk fileId i chunk filename signal w = (r, w') ->
  (exists times,
     sent w' = sent w ++
       map (fun t => (t, ReqSendDocument TELEGRAM_CHANNEL_ID
                           (encryptChunk chunk (generateEncryptionKey fileId i))
                           (fileId +:+ "_" +:+ show i +:+ "_" +:+ filename))) times /\
     (is_ok r = true -> times <> [])) /\
  (forall c, r = Ok c ->
     chunkIndex c = i /\ chunkId c = fileId +:+ "_" +:+ show i /\
     encryptedHash c = sha256_hex (encryptChunk chunk (generateEncryptionKey fileId i))).
Proof.
  unfold uploadChunk, bind.
  destruct (sendDocument _ _ _ w) as [[m|e] w1] eqn:Es;
    apply sendDocument_sent in Es as (times & Hs & Hne).
  - destruct m as [m|]; intros [= <- <-].
    + split; [exists times; by split|]. by intros c [= <-].
    + split; [exists times; by split|]. done.
  - intros [= <- <-]. split; [exists times; by split|]. done.
Qed.

Lemma uploadFile_loop_spec fileBuffer filename signal fileId totalChunks n :
  forall i chunks w r w',
    0 <= i -> (i + Z.of_nat n) * CHUNK_SIZE < buffer_length fileBuffer + CHUNK_SIZE ->
    uploadFile_loop fileBuffer filename signal fileId totalChunks n i chunks w = (Ok r, w') ->
    exists new timess,
      r = chunks ++ new /\ length new = n /\ length timess = n /\
      Forall (fun ts => ts <> []) timess /\
      sent w' = sent w ++ chunk_requests_from fileId filename fileBuffer i timess /\
      forall k c, new !! k = Some c ->
        chunkIndex c = i + Z.of_nat k /\
        chunkId c = fileId +:+ "_" +:+ show (i + Z.of_nat k) /\
        encryptedHash c =
          sha256_hex (encryptChunk (chunk_plain fileBuffer (i + Z.of_nat k))
                        (generateEncryptionKey fileId (i + Z.of_nat k))).
Proof.
  induction n as [|n IH]; intros i chunks w r w' Hi Hb; cbn [uploadFile_loop].
  - intros [= <- <-]. exists [], []. rewrite !app_nil_r. repeat split; try done.
  - unfold bind at 1.
    destruct (uploadChunk _ _ _ _ _ w) as [[c|e] w1] eqn:Eu; [|done].
    apply uploadChunk_spec in Eu as [(times & Hs & Hne) Hc].
    destruct (Hc c eq_refl) as (Hc1 & Hc2 & Hc3). clear Hc.
    rewrite buffer_slice_chunk in Hs, Hc3 by (rewrite ?CHUNK_SIZE_eq in *; lia).
    fold (chunk_plain fileBuffer i) in Hs, Hc3.
    fold (chunk_request fileId filename fileBuffer i) in Hs.
    unfold bind at 1.
    match goal with |- context [(if ?b then ?m1 else ?m2) w1] =>
      destruct ((if b then m1 else m2) w1) as [[[]|e] w2] eqn:Ew; [|done];
      assert (Hs2 : sent w2 = sent w1) end.
    { destruct (_ <? _) in Ew.
      - unfold bind, Math_random_floor in Ew.
        match type of Ew with sleep ?a ?b ?c = _ => 
          destruct (sleep a b c) as [rr ww] eqn:Esl end.
        apply sleep_sent in Esl. by simplify_eq/=.
      - by injection Ew as <-. }
    intros Hrun. apply IH in Hrun as (new & timess & -> & Hl1 & Hl2 & Hne2 & Hs3 & Hdesc);
      [|lia|rewrite ?CHUNK_SIZE_eq in *; lia].
    exists (c :: new), (times :: timess).
    split; [by rewrite <- app_assoc|].
    split; [cbn; by rewrite Hl1|].
    split; [cbn; by rewrite Hl2|].
    split; [constructor; [by apply Hne|done]|].
    split.
    { rewrite Hs3, Hs2, Hs. cbn [chunk_requests_from]. by rewrite <- app_assoc. }
    intros k c' Hk. destruct k as [|k].
    + injection Hk as <-. change (Z.of_nat 0) with 0. by rewrite Z.add_0_r.
    + change ((c :: new) !! S k) with (new !! k) in Hk.
      apply Hdesc in Hk.
      by replace (i + Z.of_nat (S k)) with (i + 1 + Z.of_nat k) by lia.
Qed.
End UploadFacts.

Lemma ceil_div_chunks (L : Z) :
  0 < L ->
  let n := ceil_div L CHUNK_SIZE in
  0 < n /\ (n - 1) * CHUNK_SIZE < L <= n * CHUNK_SIZE.
Proof.
  intros HL. cbv zeta. unfold ceil_div. rewrite CHUNK_SIZE_eq.
  pose proof (Z.div_mod (L + 5242880 - 1) 5242880 ltac:(lia)).
  pose proof (Z.mod_pos_bound (L + 5242880 - 1) 5242880 ltac:(lia)).
  lia.
Qed.


Section SplitTheorem.
Context `{C : CryptoLib} `{P : Platform}.

End SplitTheorem.
(** ** Sorting the descriptors *)

Section SortFacts.
Context {A : Type} (key : A -> Z).
Let cmp (a b : A) : Z := key a - key b.

Lemma insert_by_perm (x : A) (l : list A) : insert_by cmp x l ≡ₚ x :: l.
Proof.
  induction l as [|y l IH]; cbn; [done|].
  destruct (_ <=? _); [done|]. rewrite IH. apply Permutation_swap.
Qed.

Lemma Array_sort_perm (l : list A) : Array_sort cmp l ≡ₚ l.
Proof.
  induction l as [|x l IH]; cbn; [done|].
  unfold Array_sort in IH. by rewrite insert_by_perm, IH.
Qed.

Lemma insert_by_sorted (x : A) (l : list A) :
  StronglySorted (fun a b => key a <= key b) l ->
  StronglySorted (fun a b => key a <= key b) (insert_by cmp x l).
Proof.
  induction 1 as [|y l Hs IH Hy]; cbn.
  - repeat constructor.
  - unfold cmp at 1. destruct (Z.leb_spec (key x - key y) 0).
    + constructor; [by constructor|].
      constructor; [lia|]. eapply Forall_impl; [exact Hy|]. cbn. intros; lia.
    + constructor; [done|].
      rewrite insert_by_perm. constructor; [lia|done].
Qed.

Lemma Array_sort_sorted (l : list A) :
  StronglySorted (fun a b => key a <= key b) (Array_sort cmp l).
Proof.
  induction l as [|x l IH]; cbn; [constructor|]. by apply insert_by_sorted.
Qed.

Lemma sorted_strict (l : list A) :
  StronglySorted (fun a b => key a <= key b) l -> NoDup (map key l) ->
  StronglySorted (fun a b => key a < key b) l.
Proof.
  induction 1 as [|y l Hs IH Hy]; cbn; [constructor|].
  intros Hnd. apply NoDup_cons in Hnd as [Hnot Hnd].
  constructor; [by apply IH|].
  apply Forall_forall. intros z Hz.
  rewrite Forall_forall in Hy. specialize (Hy z Hz).
  assert (key y <> key z); [|lia].
  intros Heq. apply Hnot. rewrite Heq. apply list_elem_of_fmap. by exists z.
Qed.

(** Two arrangements of the same descriptors with pairwise different keys
    sort to the same array. *)
Lemma Array_sort_permutation (l l' : list A) :
  l ≡ₚ l' -> NoDup (map key l) -> Array_sort cmp l = Array_sort cmp l'.
Proof.
  intros Hp Hnd.
  assert (Htrans : Transitive (fun a b : A => key a < key b)) by (intros ???; lia).
  assert (Hanti : AntiSymm eq (fun a b : A => key a < key b)) by (intros ???; lia).
  apply (StronglySorted_unique (fun a b : A => key a < key b)).
  - apply sorted_strict; [apply Array_sort_sorted|].
    by rewrite Array_sort_perm.
  - apply sorted_strict; [apply Array_sort_sorted|].
    by rewrite Array_sort_perm, <- Hp.
  - by rewrite !Array_sort_perm.
Qed.

Lemma Array_sort_id (l : list A) :
  StronglySorted (fun a b => key a < key b) l -> Array_sort cmp l = l.
Proof.
  intros Hs.
  assert (Htrans : Transitive (fun a b : A => key a < key b)) by (intros ???; lia).
  assert (Hanti : AntiSymm eq (fun a b : A => key a < key b)) by (intros ???; lia).
  apply (StronglySorted_unique (fun a b : A => key a < key b)); [|done|apply Array_sort_perm].
  apply sorted_strict; [apply Array_sort_sorted|].
  rewrite Array_sort_perm. clear -Hs.
  induction Hs as [|y l Hs IH Hy]; cbn; [constructor|].
  apply NoDup_cons. split; [|done].
  intros Hin. apply list_elem_of_fmap in Hin as (z & Hz & Hin).
  rewrite Forall_forall in Hy. specialize (Hy z Hin). lia.
Qed.
End SortFacts.

Section OrderTheorem.
Context `{C : CryptoLib} `{P : Platform}.

End OrderTheorem.
Section IntegrityFacts.
Context `{C : CryptoLib} `{P : Platform}.

Lemma downloadChunk_downloaded fileId chunk handle info enc w w1 w2 :
  getFile handle w = (Ok (Some info), w1) ->
  falsy (file_path info) = false ->
  downloadFile (default "" (file_path info)) w1 = (Ok enc, w2) ->
  downloadChunk fileId chunk handle w =
  (match decryptChunk enc (generateEncryptionKey fileId (chunkIndex chunk)) with
   | Throw e => Throw e
   | Ok plain =>
       if String.eqb (sha256_hex enc) (encryptedHash chunk) then Ok plain
       else Throw (Error (integrity_message chunk))
   end, w2).
Proof.
  intros Hg Hp Hd. unfold downloadChunk, bind. rewrite Hg, Hp, Hd.
  destruct (decryptChunk _ _) as [plain|e]; [|done].
  by destruct (String.eqb _ _).
Qed.

Lemma downloadChunk_ok fileId chunk handle w plain w' :
  downloadChunk fileId chunk handle w = (Ok plain, w') -> verified fileId chunk plain.
Proof.
  unfold downloadChunk, bind.
  destruct (getFile handle w) as [[[info|]|e] w1] eqn:Eg; try done.
  destruct (falsy _); [done|].
  destruct (downloadFile _ w1) as [[enc|e] w2] eqn:Ed; [|done].
  destruct (decryptChunk _ _) as [p|e] eqn:Edec; [|done].
  destruct (String.eqb _ _) eqn:Eh; [|done].
  intros [= <- <-]. exists enc, (default "" (file_path info)), w1, w2.
  split; [done|]. split; [by apply String.eqb_eq|done].
Qed.

Lemma downloadFileByChunks_loop_ok fileId sorted :
  forall acc w bufs w',
    downloadFileByChunks_loop fileId sorted acc w = (Ok bufs, w') ->
    exists plains, bufs = acc ++ plains /\ Forall2 (verified fileId) sorted plains.
Proof.
  induction sorted as [|chunk rest IH]; intros acc w bufs w'; cbn [downloadFileByChunks_loop].
  - intros [= <- <-]. exists []. by rewrite app_nil_r.
  - destruct (falsy _); [done|]. unfold bind at 1, try_catch.
    destruct (downloadChunk _ _ _ w) as [[plain|e] w1] eqn:Ed; [|done].
    apply downloadChunk_ok in Ed.
    intros Hrun. apply IH in Hrun as (plains & -> & Hall).
    exists (plain :: plains). rewrite <- app_assoc. split; [done|]. by constructor.
Qed.

(** C2, as the code has it.  The downloaded bytes are decrypted first and
    their digest is compared afterwards.  When the digest differs from the
    recorded one the download rejects with an error that names the chunk --
    the integrity message when the bytes decrypted, the decryption error
    otherwise -- and whenever a download returns bytes, every part is the
    decryption of downloaded bytes that carried the recorded digest. *)
Theorem download_integrity fileId :
  (forall chunk rest acc handle info enc w w1 w2,
     chunk_fileId chunk = Some handle -> falsy (Some handle) = false ->
     getFile handle w = (Ok (Some info), w1) ->
     falsy (file_path info) = false ->
     downloadFile (default "" (file_path info)) w1 = (Ok enc, w2) ->
     sha256_hex enc <> encryptedHash chunk ->
     downloadFileByChunks_loop fileId (chunk :: rest) acc w =
     (Throw (Error ("Failed to download chunk " +:+ show (chunkIndex chunk) +:+ ": " +:+
                    match decryptChunk enc
                            (generateEncryptionKey fileId (chunkIndex chunk)) with
                    | Ok _ => integrity_message chunk
                    | Throw e => err_message e
                    end)), w2)) /\
  (forall chunks w buf w',
     downloadFileByChunks fileId chunks w = (Ok buf, w') ->
     exists plains,
       buf = Buffer_concat plains /\
       Forall2 (verified fileId)
         (Array_sort (fun a b => chunkIndex a - chunkIndex b) chunks) plains).
Proof.
  split.
  - intros chunk rest acc handle info enc w w1 w2 Hf Hfal Hg Hp Hd Hne.
    cbn [downloadFileByChunks_loop]. rewrite Hf, Hfal.
    unfold bind, try_catch. cbn [default].
    rewrite (downloadChunk_downloaded _ _ _ _ _ _ _ _ Hg Hp Hd).
    destruct (decryptChunk _ _) as [plain|e]; [|done].
    apply String.eqb_neq in Hne. by rewrite Hne.
  - intros chunks w buf w'. unfold downloadFileByChunks, bind.
    destruct (downloadFileByChunks_loop _ _ _ w) as [[bufs|e] w1] eqn:El; [|done].
    intros [= <- <-]. apply downloadFileByChunks_loop_ok in El as (plains & -> & Hall).
    by exists plains.
Qed.
End IntegrityFacts.
(** C2, as stated, fails: the stored chunk has one bit flipped, its digest no
    longer matches, and the download reports a decryption error, because the
    bytes are decrypted before the digests are compared.  The same happens,
    whatever the cipher, when the stored chunk has lost a byte. *)
Lemma download_tampered_reports_bad_decrypt :
  @sha256_hex standin_crypto (flip_first_bit sample_cipher)
    <> encryptedHash tampered_chunk /\
  (@downloadFileByChunks standin_crypto (faithful_backend 20)
     "file" [tampered_chunk] tampered_world).1
    = Throw (Error "Failed to download chunk 0: bad decrypt") /\
  (@downloadFileByChunks standin_crypto (faithful_backend 20)
     "file" [tampered_chunk] truncated_world).1
    = Throw (Error "Failed to download chunk 0: wrong final block length") /\
  ~ @mismatch_is_integrity_error standin_crypto (faithful_backend 20).
Proof.
  assert (Hne : @sha256_hex standin_crypto (flip_first_bit sample_cipher)
                <> encryptedHash tampered_chunk) by (vm_compute; discriminate).
  assert (Hrun : (@downloadFileByChunks standin_crypto (faithful_backend 20)
                    "file" [tampered_chunk] tampered_world).1
                 = Throw (Error "Failed to download chunk 0: bad decrypt"))
    by (vm_compute; reflexivity).
  split; [done|]. split; [done|]. split; [vm_compute; reflexivity|].
  intros Hclaim.
  eapply (Hclaim "file" tampered_chunk "doc0" _ (flip_first_bit sample_cipher)
            tampered_world) in Hne; [| reflexivity | reflexivity | vm_compute; reflexivity
                                     | reflexivity | vm_compute; reflexivity ].
  rewrite Hrun in Hne. vm_compute in Hne. discriminate.
Qed.

(** ** Encryption does not depend on the run *)


(** ** The faithful backend *)

Lemma doc_handle_inj (i j : nat) : doc_handle i = doc_handle j -> i = j.
Proof.
  unfold doc_handle. intros H.
  apply (inj (String.app "doc")) in H. by apply (inj pretty) in H.
Qed.

Lemma find_doc_lookup (docs : list Buffer) :
  forall i j d, docs !! j = Some d -> find_doc (doc_handle (i + j)) i docs = Some d.
Proof.
  induction docs as [|d0 docs IH]; intros i j d Hj; [done|].
  cbn [find_doc]. destruct j as [|j].
  - rewrite Nat.add_0_r, String.eqb_refl. by injection Hj as ->.
  - destruct (String.eqb_spec (doc_handle (i + S j)) (doc_handle i)) as [Heq|_].
    + apply doc_handle_inj in Heq. lia.
    + replace (i + S j)%nat with (S i + j)%nat by lia. by apply IH.
Qed.

Section FirstAttempt.
Context `{P : Platform}.

(** A first attempt that is answered in time with an OK status returns at
    once. *)
Lemma fetchWithRetry_first_ok req timeoutMs signal retryStatuses retries baseDelayMs
    w lat res s' :
  serve (server w) (now w) req = (Responds lat res, s') ->
  Z.of_N lat < timeoutMs -> never_aborted signal -> ok res = true ->
  fetchWithRetry req timeoutMs signal retryStatuses retries baseDelayMs w
  = (Ok res, mkWorld (now w + Z.of_N lat) s' (sent w ++ [(now w, req)])
               (draws w) (uuids w)).
Proof.
  intros Hserve Hlat Hs Hok. unfold fetchWithRetry. cbn [fetchWithRetry_loop].
  unfold bind, fetchWithRetry_attempt, try_catch, bind, fetch.
  rewrite attempt_controller_never_aborted by done.
  replace (now w + timeoutMs <=? now w) with false by lia.
  rewrite Hserve.
  replace (now w + Z.of_N lat <? now w + timeoutMs) with true by lia.
  by rewrite Hok.
Qed.
End FirstAttempt.

Lemma falsy_doc_handle (j : nat) : falsy (Some (doc_handle j)) = false.
Proof. reflexivity. Qed.

Lemma take_chunks_concat (cs : nat) : forall (n : nat) (b : Buffer),
  (length b <= n * cs)%nat ->
  concat (map (fun k => take cs (drop (k * cs) b)) (seq 0 n)) = b.
Proof.
  induction n as [|n IH]; intros b Hb.
  - destruct b; [done|]. cbn in Hb. lia.
  - cbn [seq map concat]. rewrite <- seq_shift, map_map.
    change (0 * cs)%nat with 0%nat. rewrite drop_0.
    trans (take cs b ++ drop cs b); [|apply take_drop]. f_equal.
    rewrite <- (IH (drop cs b)) at 1 by (rewrite length_drop; lia).
    f_equal. apply map_ext. intros k. by rewrite drop_drop.
Qed.

Lemma chunk_plain_concat (b : Buffer) (n : nat) :
  buffer_length b <= Z.of_nat n * CHUNK_SIZE ->
  concat (map (fun k => chunk_plain b (0 + Z.of_nat k)) (seq 0 n)) = b.
Proof.
  intros Hb. trans (concat (map (fun k => take (Z.to_nat CHUNK_SIZE)
                                   (drop (k * Z.to_nat CHUNK_SIZE) b)) (seq 0 n)));
    [f_equal|apply take_chunks_concat].
  - apply map_ext. intros k. unfold chunk_plain. do 2 f_equal.
    rewrite Z.add_0_l, Z2Nat.inj_mul, Nat2Z.id; [done|lia|]. by rewrite CHUNK_SIZE_eq.
  - unfold buffer_length in Hb. rewrite CHUNK_SIZE_eq in *. lia.
Qed.

Lemma sorted_by_position (i : Z) (l : list TelegramChunk) :
  (forall k c, l !! k = Some c -> chunkIndex c = i + Z.of_nat k) ->
  StronglySorted (fun a b => chunkIndex a < chunkIndex b) l.
Proof.
  revert i. induction l as [|c l IH]; intros i H; [constructor|].
  constructor.
  - apply (IH (i + 1)). intros k c' Hk. rewrite (H (S k) c' Hk). lia.
  - apply Forall_forall. intros c' Hin.
    apply list_elem_of_lookup in Hin as [k Hk].
    rewrite (H 0%nat c eq_refl), (H (S k) c' Hk). lia.
Qed.

Lemma sorted_NoDup (l : list TelegramChunk) :
  StronglySorted (fun a b => chunkIndex a < chunkIndex b) l -> NoDup (map chunkIndex l).
Proof.
  induction 1 as [|c l Hs IH Hc]; cbn; [constructor|].
  apply NoDup_cons. split; [|done].
  intros Hin. apply list_elem_of_fmap in Hin as (c' & Heq & Hin).
  rewrite Forall_forall in Hc. specialize (Hc c' Hin). lia.
Qed.

Section Faithful.
Context `{C : CryptoLib} (lat : N).
Let FB : Platform := faithful_backend lat.
Local Existing Instance FB.

Lemma stored_mono docs docs' fileId chunk plain :
  docs `prefix_of` docs' -> stored docs fileId chunk plain -> stored docs' fileId chunk plain.
Proof.
  intros Hp (j & H1 & H2 & H3). exists j. split; [done|]. split; [|done].
  by eapply prefix_lookup_Some.
Qed.

Lemma sendDocument_faithful buffer filename signal (w : World) :
  Z.of_N lat < 120000 -> never_aborted signal ->
  exists m,
    sendDocument buffer filename signal w =
      (Ok (Some m),
       mkWorld (now w + Z.of_N lat) (server w ++ [buffer])
         (sent w ++ [(now w, ReqSendDocument TELEGRAM_CHANNEL_ID buffer filename)])
         (draws w) (uuids w)) /\
    option_map doc_file_id (document m) = Some (doc_handle (length (server w))).
Proof.
  intros Hlat Hs. eexists. unfold sendDocument, bind.
  erewrite fetchWithRetry_first_ok; [| reflexivity | done | done | reflexivity].
  cbn. split; reflexivity.
Qed.

Lemma uploadChunk_faithful fid i chunk filename signal (w : World) :
  Z.of_N lat < 120000 -> never_aborted signal ->
  exists c,
    uploadChunk fid i chunk filename signal w =
      (Ok c,
       mkWorld (now w + Z.of_N lat)
         (server w ++ [encryptChunk chunk (generateEncryptionKey fid i)])
         (sent w ++ [(now w, ReqSendDocument TELEGRAM_CHANNEL_ID
                               (encryptChunk chunk (generateEncryptionKey fid i))
                               (fid +:+ "_" +:+ show i +:+ "_" +:+ filename))])
         (draws w) (uuids w)) /\
    chunkIndex c = i /\
    stored (server w ++ [encryptChunk chunk (generateEncryptionKey fid i)])
      fid c chunk.
Proof.
  intros Hlat Hs. unfold uploadChunk, bind.
  destruct (sendDocument_faithful (encryptChunk chunk (generateEncryptionKey fid i))
              (fid +:+ "_" +:+ show i +:+ "_" +:+ filename) signal w Hlat Hs)
    as (m & -> & Hdoc).
  eexists. split; [reflexivity|]. split; [reflexivity|].
  exists (length (server w)). unfold chunk_fileId.
  cbn [fileId chunkIndex encryptedHash].
  split; [|split; [|done]].
  - destruct (document m) as [d|]; cbn [option_map] in Hdoc; [exact Hdoc|discriminate].
  - by rewrite lookup_app_r, Nat.sub_diag.
Qed.

Lemma uploadFile_loop_faithful fileBuffer filename signal fid totalChunks n :
  Z.of_N lat < 120000 -> never_aborted signal ->
  forall i acc (w : World),
    0 <= i -> (i + Z.of_nat n) * CHUNK_SIZE < buffer_length fileBuffer + CHUNK_SIZE ->
    exists new w',
      uploadFile_loop fileBuffer filename signal fid totalChunks n i acc w
        = (Ok (acc ++ new), w') /\
      length new = n /\
      server w `prefix_of` server w' /\
      forall k c, new !! k = Some c ->
        chunkIndex c = i + Z.of_nat k /\
        stored (server w') fid c (chunk_plain fileBuffer (i + Z.of_nat k)).
Proof.
  intros Hlat Hs. induction n as [|n IH]; intros i acc w Hi Hb; cbn [uploadFile_loop].
  - exists [], w. rewrite app_nil_r. by repeat split.
  - rewrite buffer_slice_chunk by (rewrite ?CHUNK_SIZE_eq in *; lia).
    fold (chunk_plain fileBuffer i).
    unfold bind at 1.
    destruct (uploadChunk_faithful fid i (chunk_plain fileBuffer i) filename signal w Hlat Hs)
      as (c & -> & Hc1 & Hc2).
    set (w1 := mkWorld _ _ _ _ _).
    unfold bind at 1.
    assert (exists w2, (if i <? totalChunks - 1
         then jitter <- Math_random_floor 300 ;;
              sleep (Z.min 2500 (800 + i * 50) + jitter) signal
         else ret tt) w1 = (Ok tt, w2) /\ server w2 = server w1) as (w2 & -> & Hsrv).
    { destruct (_ <? _).
      - unfold bind, Math_random_floor. rewrite sleep_never_aborted by done.
        eexists. split; reflexivity.
      - by exists w1. }
    destruct (IH (i + 1) (acc ++ [c]) w2) as (new & w' & -> & Hl & Hp & Hnew);
      [lia|lia|].
    exists (c :: new), w'. rewrite <- app_assoc. split; [done|].
    split; [cbn; by rewrite Hl|].
    assert (Hp1 : server w `prefix_of` server w').
    { trans (server w2); [|exact Hp]. rewrite Hsrv. by apply prefix_app_r. }
    split; [done|].
    intros k c' Hk. destruct k as [|k].
    + injection Hk as <-. change (Z.of_nat 0) with 0. rewrite Z.add_0_r.
      split; [done|]. eapply stored_mono; [|exact Hc2].
      change (server w1 `prefix_of` server w'). by rewrite <- Hsrv.
    + change ((c :: new) !! S k) with (new !! k) in Hk.
      apply Hnew in Hk.
      by replace (i + Z.of_nat (S k)) with (i + 1 + Z.of_nat k) by lia.
Qed.

Lemma getFile_faithful handle d (w : World) :
  Z.of_N lat < 60000 ->
  find_doc handle 0 (server w) = Some d ->
  exists info,
    getFile handle w =
      (Ok (Some info),
       mkWorld (now w + Z.of_N lat) (server w) (sent w ++ [(now w, ReqGetFile handle)])
         (draws w) (uuids w)) /\
    file_path info = Some handle.
Proof.
  intros Hlat Hfind. eexists. unfold getFile, bind.
  erewrite fetchWithRetry_first_ok; [| cbn; rewrite Hfind; reflexivity | done | done | reflexivity].
  cbn. split; reflexivity.
Qed.

Lemma downloadFile_faithful path d (w : World) :
  Z.of_N lat < 60000 ->
  find_doc path 0 (server w) = Some d ->
  downloadFile path w =
    (Ok d, mkWorld (now w + Z.of_N lat) (server w)
             (sent w ++ [(now w, ReqDownloadFile path)]) (draws w) (uuids w)).
Proof.
  intros Hlat Hfind. unfold downloadFile, bind.
  erewrite fetchWithRetry_first_ok; [| cbn; rewrite Hfind; reflexivity | done | done | reflexivity].
  reflexivity.
Qed.

Lemma downloadFileByChunks_loop_faithful (L : CryptoLaws C) fid sorted :
  Z.of_N lat < 60000 ->
  forall plains acc (w : World),
    Forall2 (stored (server w) fid) sorted plains ->
    exists w',
      downloadFileByChunks_loop fid sorted acc w = (Ok (acc ++ plains), w') /\
      server w' = server w.
Proof.
  intros Hlat. induction sorted as [|chunk rest IH]; intros plains acc w Hall.
  - apply Forall2_nil_inv_l in Hall as ->. exists w. by rewrite app_nil_r.
  - apply Forall2_cons_inv_l in Hall as (plain & plains' & (j & Hj1 & Hj2 & Hj3) & Hall & ->).
    cbn [downloadFileByChunks_loop]. rewrite Hj1, falsy_doc_handle. cbn [default].
    pose proof (find_doc_lookup (server w) 0 j _ Hj2) as Hfind. cbn [Nat.add] in Hfind.
    destruct (getFile_faithful _ _ w Hlat Hfind) as (info & Hg & Hpath).
    unfold bind at 1, try_catch.
    erewrite downloadChunk_downloaded;
      [ | exact Hg | by rewrite Hpath
        | rewrite Hpath; cbn [default]; by apply downloadFile_faithful ].
    rewrite (decryptChunk_encryptChunk _ _ L), Hj3, String.eqb_refl.
    match goal with |- context [downloadFileByChunks_loop _ _ _ ?w1] =>
      destruct (IH plains' (acc ++ [plain]) w1) as (w' & -> & Hsrv); [exact Hall|] end.
    exists w'. by rewrite <- app_assoc.
Qed.
Lemma uploadFile_faithful fileBuffer filename signal (w : World) :
  Z.of_N lat < 120000 -> never_aborted signal ->
  exists r w1 plains,
    uploadFile fileBuffer filename signal w = (Ok r, w1) /\
    Forall2 (stored (server w1) (telegramStorageId r)) (chunks r) plains /\
    concat plains = fileBuffer /\
    StronglySorted (fun a b => chunkIndex a < chunkIndex b) (chunks r).
Proof.
  intros Hlat Hs. unfold uploadFile, bind at 1, crypto_randomUUID.
  set (fid := randomUUID (uuids w)). set (w0 := mkWorld _ _ _ _ _).
  unfold bind at 1.
  destruct (Z.leb_spec (buffer_length fileBuffer) CHUNK_SIZE) as [Hle|Hgt].
  - unfold bind at 1.
    destruct (uploadChunk_faithful fid 0 fileBuffer filename signal w0 Hlat Hs)
      as (c & -> & Hc1 & Hc2).
    eexists _, _, [fileBuffer]. split; [reflexivity|].
    cbn [chunks telegramStorageId server].
    split; [by repeat constructor|]. split; [cbn; by rewrite app_nil_r|].
    repeat constructor.
  - pose proof (ceil_div_chunks (buffer_length fileBuffer) ltac:(rewrite CHUNK_SIZE_eq in *; lia))
      as (Hn0 & Hn1 & Hn2).
    set (n := ceil_div (buffer_length fileBuffer) CHUNK_SIZE) in *.
    destruct (uploadFile_loop_faithful fileBuffer filename signal fid n (Z.to_nat n)
                Hlat Hs 0 [] w0) as (new & w1 & -> & Hl & Hp & Hnew);
      [lia|rewrite Z2Nat.id by lia; rewrite CHUNK_SIZE_eq in *; lia|].
    exists {| telegramStorageId := fid; chunks := new;
              totalChunks := Z.of_nat (length new) |}, w1,
           (map (fun k => chunk_plain fileBuffer (0 + Z.of_nat k)) (seq 0 (Z.to_nat n))).
    split; [reflexivity|]. cbn [chunks telegramStorageId app].
    split; [|split].
    + apply Forall2_same_length_lookup. split; [by rewrite length_map, length_seq|].
      intros k c p Hc Hk. apply Hnew in Hc as [_ Hc].
      apply list_lookup_fmap_Some in Hk as (k' & -> & Hk).
      apply lookup_seq in Hk as [-> _]. exact Hc.
    + apply chunk_plain_concat. rewrite Z2Nat.id by lia. lia.
    + apply (sorted_by_position 0). intros k c Hc. by apply Hnew in Hc as [-> _].
Qed.

(** C1. On a backend that returns for every chunk the bytes it was sent, an
    upload that is not cancelled succeeds, and downloading its descriptors --
    in any order, at any later time -- returns the uploaded buffer; decryption
    inverts encryption for every buffer and key. *)
Theorem upload_download_roundtrip (B : Buffer) filename signal (w : World) :
  CryptoLaws C -> Z.of_N lat < 60000 -> never_aborted signal ->
  (exists r w1,
     uploadFile B filename signal w = (Ok r, w1) /\
     forall (w2 : World) chunks',
       server w1 `prefix_of` server w2 -> chunks' ≡ₚ chunks r ->
       exists w3, downloadFileByChunks (telegramStorageId r) chunks' w2 = (Ok B, w3)) /\
  (forall p k, decryptChunk (encryptChunk p k) k = Ok p).
Proof.
  intros L Hlat Hs. split; [|intros p k; by apply decryptChunk_encryptChunk].
  destruct (uploadFile_faithful B filename signal w ltac:(lia) Hs)
    as (r & w1 & plains & Hup & Hst & Hcat & Hsorted).
  exists r, w1. split; [done|].
  intros w2 chunks' Hp Hperm. unfold downloadFileByChunks, bind.
  rewrite (Array_sort_permutation chunkIndex chunks' (chunks r) Hperm)
    by (rewrite Hperm; by apply sorted_NoDup).
  rewrite (Array_sort_id chunkIndex) by done.
  destruct (downloadFileByChunks_loop_faithful L (telegramStorageId r) (chunks r)
              Hlat plains [] w2) as (w3 & -> & _).
  { eapply Forall2_impl; [exact Hst|]. intros c p. by apply stored_mono. }
  exists w3. unfold ret, Buffer_concat. cbn [app]. by rewrite Hcat.
Qed.
End Faithful.
(** * The upload manager *)

Module UploadManagerFacts.
Import UploadManager.

(** ** [resumeUpload] *)

Lemma resume_map_spec (i : string) (us : list UploadFile) :
  forall heap us' heap',
    map_refs (resume_fun i) us heap = (us', heap') ->
    length us' = length us /\
    (exists fresh, heap' = heap ++ fresh /\ Forall (fun b => b = false) fresh) /\
    forall k u, us !! k = Some u ->
      if String.eqb (id u) i && bool_decide (status u = st_paused)
      then exists c, us' !! k = Some (patch_resumed c u) /\
                     (length heap <= c < length heap')%nat
      else us' !! k = Some u.
Proof.
  induction us as [|u0 us IH]; intros heap us' heap'; cbn [map_refs].
  - intros [= <- <-]. split; [done|]. split; [exists []; by rewrite app_nil_r|]. done.
  - destruct (resume_fun i u0 heap) as [u0' heap1] eqn:E0.
    destruct (map_refs (resume_fun i) us heap1) as [rest heap2] eqn:Er.
    intros [= <- <-]. apply IH in Er as (Hlen & (fresh & -> & Hfresh) & Hrest).
    unfold resume_fun in E0.
    destruct (String.eqb (id u0) i && bool_decide (status u0 = st_paused)) eqn:Ec.
    + injection E0 as <- <-. split; [cbn; by rewrite Hlen|]. split.
      { exists (false :: fresh). rewrite <- app_assoc. split; [done|]. by constructor. }
      intros k u Hk. destruct k as [|k].
      * injection Hk as <-. rewrite Ec. exists (length heap). split; [done|].
        rewrite !length_app. cbn. lia.
      * specialize (Hrest k u Hk).
        destruct (String.eqb (id u) i && bool_decide (status u = st_paused)); [|done].
        destruct Hrest as (c & Hc & Hb). exists c. split; [done|].
        rewrite !length_app in *. cbn in *. lia.
    + injection E0 as <- <-. split; [cbn; by rewrite Hlen|]. split; [by exists fresh|].
      intros k u Hk. destruct k as [|k].
      * injection Hk as <-. by rewrite Ec.
      * apply (Hrest k u Hk).
Qed.

Lemma find_upload_Some (i : string) (us : list UploadFile) (u : UploadFile) :
  find_upload i us = Some u <->
  exists k, us !! k = Some u /\ id u = i /\
            forall j v, (j < k)%nat -> us !! j = Some v -> id v <> i.
Proof.
  unfold find_upload. induction us as [|u0 us IH]; cbn [List.find].
  - split; [done|]. by intros (k & Hk & _).
  - destruct (String.eqb_spec (id u0) i) as [Heq|Hne].
    + split.
      * intros [= <-]. exists 0%nat. split; [done|]. split; [done|]. intros; lia.
      * intros (k & Hk & Hi & Hfirst). destruct k as [|k]; [by injection Hk as <-|].
        by destruct (Hfirst 0%nat u0 ltac:(lia) eq_refl).
    + rewrite IH. split.
      * intros (k & Hk & Hi & Hfirst). exists (S k). split; [done|]. split; [done|].
        intros j v Hj Hv. destruct j as [|j]; [by injection Hv as <-|].
        apply (Hfirst j v); [lia|done].
      * intros (k & Hk & Hi & Hfirst). destruct k as [|k].
        { injection Hk as <-. done. }
        exists k. split; [done|]. split; [done|].
        intros j v Hj Hv. apply (Hfirst (S j) v); [lia|done].
Qed.

Lemma find_upload_id (i : string) (us : list UploadFile) (u : UploadFile) :
  find_upload i us = Some u -> id u = i.
Proof. intros H. by apply find_upload_Some in H as (_ & _ & ? & _). Qed.

(** ** The chunk loop never goes back *)

Lemma calls_from_nil c0 : calls_from c0 [].
Proof. intros i j s e H. by apply not_elem_of_nil in H. Qed.

Lemma calls_from_app c0 l1 l2 :
  calls_from c0 l1 -> calls_from c0 l2 -> calls_from c0 (l1 ++ l2).
Proof.
  intros H1 H2 i j s e H. apply elem_of_app in H as [H|H]; eauto.
Qed.

Lemma enter_loop_from c0 p i chunks ub m m' p' calls :
  c0 <= i ->
  enter_loop p i chunks ub m = (m', p', calls) ->
  at_or_after c0 (p_phase p') /\ calls_from c0 calls.
Proof.
  intros Hi. unfold enter_loop.
  repeat case_match; intros [= <- <- <-]; cbn; (split; [done|]);
    try apply calls_from_nil.
  - intros i' j s e Hin. apply list_elem_of_singleton in Hin. by injection Hin as _ <- _ _.
  - intros i' j s e Hin. apply list_elem_of_singleton in Hin. discriminate.
Qed.

Lemma proc_step_from c0 p input t m m' p' calls :
  at_or_after c0 (p_phase p) ->
  proc_step p input t m = (m', p', calls) ->
  at_or_after c0 (p_phase p') /\ calls_from c0 calls.
Proof.
  intros Hp. unfold proc_step.
  destruct (p_phase p) as [|i retry chunks ub|i retry chunks ub| |] eqn:Eph;
    destruct input as [reply| |reply|r]; cbn in Hp;
    try (intros [= <- <- <-]; rewrite Eph; cbn; split; [done|apply calls_from_nil]).
  - case_match; intros [= <- <- <-]; cbn; (split; [done|]); [|apply calls_from_nil].
    intros i' j s e Hin. apply list_elem_of_singleton in Hin. discriminate.
  - destruct reply as [[] chunk|text|e].
    + intros Hrun. eapply enter_loop_from in Hrun; [done|lia].
    + case_match; intros [= <- <- <-]; cbn; (split; [done|apply calls_from_nil]).
    + case_match; intros [= <- <- <-]; cbn; (split; [done|apply calls_from_nil]).
    + case_match; intros [= <- <- <-]; cbn; (split; [done|apply calls_from_nil]).
  - intros [= <- <- <-]. cbn. split; [done|].
    intros i' j s e Hin. apply list_elem_of_singleton in Hin. by injection Hin as _ <- _ _.
  - destruct r; intros [= <- <- <-]; cbn; (split; [done|apply calls_from_nil]).
Qed.

Lemma proc_run_from c0 inputs :
  forall p m m' p' calls,
    at_or_after c0 (p_phase p) ->
    proc_run p inputs m = (m', p', calls) ->
    at_or_after c0 (p_phase p') /\ calls_from c0 calls.
Proof.
  induction inputs as [|[[others input] t] rest IH]; intros p m m' p' calls Hp;
    cbn [proc_run].
  - intros [= <- <- <-]. split; [done|apply calls_from_nil].
  - destruct (proc_step p input t (others m)) as [[m1 p1] calls1] eqn:E1.
    destruct (proc_run p1 rest m1) as [[m2 p2] calls2] eqn:E2.
    intros [= <- <- <-].
    apply (proc_step_from c0) in E1 as [Hp1 Hc1]; [|done].
    apply IH in E2 as [Hp2 Hc2]; [|done].
    split; [done|]. by apply calls_from_app.
Qed.

(** ** Resuming *)

Lemma resumeUpload_spec (i : string) (m : Manager) :
  let m' := resumeUpload i m in
  activeUploads m' = activeUploads m /\
  length (uploads m') = length (uploads m) /\
  (exists fresh, controllers m' = controllers m ++ fresh /\
                 Forall (fun b => b = false) fresh) /\
  forall k u, uploads m !! k = Some u ->
    if String.eqb (id u) i && bool_decide (status u = st_paused)
    then exists c, uploads m' !! k = Some (patch_resumed c u) /\
                   (length (controllers m) <= c < length (controllers m'))%nat
    else uploads m' !! k = Some u.
Proof.
  cbv zeta. unfold resumeUpload.
  destruct (map_refs (resume_fun i) (uploads m) (controllers m)) as [us heap] eqn:E.
  apply resume_map_spec in E as (H1 & H2 & H3). cbn. by repeat split.
Qed.

Lemma fresh_controller_unaborted (heap fresh : list bool) (c : nat) :
  Forall (fun b => b = false) fresh ->
  (length heap <= c < length (heap ++ fresh))%nat ->
  (heap ++ fresh) !! c = Some false.
Proof.
  intros Hf Hc. rewrite lookup_app_r by lia.
  rewrite length_app in Hc.
  destruct (fresh !! (c - length heap)%nat) as [b|] eqn:E.
  - rewrite Forall_forall in Hf. f_equal. apply Hf.
    apply list_elem_of_lookup. by eexists.
  - apply lookup_ge_None in E. lia.
Qed.

(** C8. [resumeUpload] on a paused record changes its status to pending,
    clears its error and gives it a controller that did not exist before and
    is not aborted; every other field, every other record, the older
    controllers and the active set are as they were.  When the record is
    then processed, the first chunk requested is [currentChunk], and no
    request of that run ever carries a smaller index. *)
Theorem resume_frame_and_continuation (m : Manager) (i : string) (u : UploadFile) :
  find_upload i (uploads m) = Some u ->
  status u = st_paused ->
  let m' := resumeUpload i m in
  exists u' c,
    find_upload i (uploads m') = Some u' /\
    (* what changes *)
    status u' = st_pending /\ error u' = None /\ abortController u' = Some c /\
    (length (controllers m) <= c)%nat /\
    signal_aborted (Some c) (controllers m') = false /\
    (forall j b, controllers m !! j = Some b -> controllers m' !! j = Some b) /\
    (* what does not *)
    (id u' = id u /\ file u' = file u /\ name u' = name u /\ size u' = size u /\
     type u' = type u /\ progress u' = progress u /\ folderId u' = folderId u /\
     userId u' = userId u /\ telegramStorageId u' = telegramStorageId u /\
     fileId u' = fileId u /\ chunks u' = chunks u /\ totalChunks u' = totalChunks u /\
     currentChunk u' = currentChunk u /\ uploadSpeed u' = uploadSpeed u /\
     estimatedTimeRemaining u' = estimatedTimeRemaining u /\
     retryCount u' = retryCount u /\ createdAt u' = createdAt u) /\
    activeUploads m' = activeUploads m /\
    (forall k v, uploads m !! k = Some v ->
       ~ (id v = i /\ status v = st_paused) -> uploads m' !! k = Some v) /\
    (* the run that follows *)
    (canStartUpload m' = true -> String.prefix "image/" (type u) = false ->
     forall t, exists m1 p calls,
       processUpload_start i t m' = (m1, Some p, calls) /\
       p_upload p = u' /\
       (currentChunk u < ceil_div (size u) CHUNK_SIZE ->
        calls = [CallChunk i (currentChunk u) (currentChunk u * CHUNK_SIZE)
                   (Z.min (currentChunk u * CHUNK_SIZE + CHUNK_SIZE) (size u))]) /\
       calls_from (currentChunk u) calls /\
       forall inputs m2 m3 p3 calls3,
         proc_run p inputs m2 = (m3, p3, calls3) ->
         calls_from (currentChunk u) calls3).
Proof.
  intros Hfind Hst m'.
  destruct (resumeUpload_spec i m) as (Hact & Hlen & (fresh & Hheap & Hfresh) & Hrec).
  fold m' in Hact, Hlen, Hheap, Hrec.
  apply find_upload_Some in Hfind as (k & Hk & Hid & Hfirst).
  pose proof (Hrec k u Hk) as Hu.
  rewrite Hid, String.eqb_refl, Hst in Hu. cbn in Hu.
  destruct Hu as (c & Hu & Hc).
  assert (Hfind' : find_upload i (uploads m') = Some (patch_resumed c u)).
  { apply find_upload_Some. exists k. split; [done|]. split; [done|].
    intros j v Hj Hv.
    destruct (uploads m !! j) as [v0|] eqn:Ev0.
    - pose proof (Hrec j v0 Ev0) as Hv0. pose proof (Hfirst j v0 Hj Ev0) as Hne.
      apply String.eqb_neq in Hne. rewrite Hne in Hv0. cbn in Hv0.
      rewrite Hv0 in Hv. injection Hv as <-. by apply String.eqb_neq.
    - apply lookup_ge_None in Ev0. apply lookup_lt_Some in Hv. lia. }
  assert (Hsig : signal_aborted (Some c) (controllers m') = false).
  { unfold signal_aborted. rewrite Hheap.
    rewrite (fresh_controller_unaborted _ _ c Hfresh); [done|]. by rewrite <- Hheap. }
  exists (patch_resumed c u), c.
  split; [done|]. split; [done|]. split; [done|]. split; [done|].
  split; [lia|]. split; [done|].
  split. { intros j b Hj. rewrite Hheap. by apply lookup_app_l_Some. }
  split; [by repeat split|]. split; [done|].
  split.
  { intros j v Hv Hnot. pose proof (Hrec j v Hv) as Hv'.
    destruct (String.eqb_spec (id v) i) as [Heq|_]; [|done].
    destruct (bool_decide_reflect (status v = st_paused)) as [Hp|_]; [|done].
    by destruct Hnot. }
  intros Hcan Himg t.
  unfold processUpload_start. rewrite Hcan, Hfind'. cbn [negb].
  rewrite bool_decide_eq_true_2 by done. cbn [negb].
  change (type (patch_resumed c u)) with (type u). rewrite Himg.
  change (size (patch_resumed c u)) with (size u).
  change (currentChunk (patch_resumed c u)) with (currentChunk u).
  change (id (patch_resumed c u)) with (id u). rewrite Hid.
  match goal with |- context [enter_loop ?p ?i0 ?cs ?ub ?mm] =>
    destruct (enter_loop p i0 cs ub mm) as [[m1 p1] calls] eqn:Eloop;
    set (p0 := p) in *; set (m0 := mm) in * end.
  exists m1, p1, calls. split; [done|].
  pose proof Eloop as Eloop2.
  apply (enter_loop_from (currentChunk u)) in Eloop2 as [Hph Hcalls]; [|lia].
  assert (Hup : p_upload p1 = patch_resumed c u).
  { revert Eloop. unfold enter_loop. repeat case_match; by intros [= <- <- <-]. }
  split; [done|]. split; [|split; [done|]].
  - intros Hlt. revert Eloop. unfold enter_loop.
    change (p_upload p0) with (patch_resumed c u).
    change (size (patch_resumed c u)) with (size u).
    change (id (patch_resumed c u)) with (id u). rewrite Hid.
    change (abortController (patch_resumed c u)) with (Some c).
    change (controllers m0) with (controllers m'). rewrite Hsig.
    destruct (Z.ltb_spec (currentChunk u) (ceil_div (size u) CHUNK_SIZE)); [|lia].
    by intros [= <- <- <-].
  - intros inputs m2 m3 p3 calls3 Hrun.
    by apply (proc_run_from (currentChunk u)) in Hrun as [_ ?].
Qed.
End UploadManagerFacts.
Module CapFacts.
Import UploadManager UploadManagerFacts.
















(** ** What a process does to the manager *)





(** ** The invariant *)






(** ** The active set alone *)












(** ** The invariant is kept *)

Lemma tracks_filter (P : UploadFile -> bool) us (A A' : gset string) i :
  tracks us A -> A ∖ {[i]} ⊆ A' ->
  (forall u, u ∈ us -> P u = true -> id u = i -> status u <> st_uploading) ->
  tracks (filter P us) A'.
Proof.
  intros Ht HA HP u Hin Hup. apply list_elem_of_filter in Hin as [HPu Hin].
  destruct (decide (id u = i)) as [Heq|Hne].
  - by destruct (HP u Hin (Is_true_true_1 _ HPu) Heq).
  - apply HA. apply elem_of_difference. split; [by apply Ht|].
    by apply not_elem_of_singleton.
Qed.













(** ** Only the queue adds to the active set, and only below the limit *)






End CapFacts.

Module RaceFacts.
Import UploadManager UploadManagerFacts CapFacts.




End RaceFacts.
(** * Empty inputs *)

Section DispatchFacts.
Context `{P : Platform}.

Lemma fetch_dispatches req ctrl w r w' :
  now w < ctrl -> fetch req ctrl w = (r, w') -> sent w' = sent w ++ [(now w, req)].
Proof.
  unfold fetch. intros Hlt. destruct (Z.leb_spec ctrl (now w)) as [Hle|_]; [lia|].
  intros Hrun. by repeat case_match; simplify_eq/=.
Qed.

Lemma attempt_dispatches req timeoutMs signal retryStatuses retries baseDelayMs attempt
    w r w' :
  never_aborted signal -> 0 < timeoutMs ->
  fetchWithRetry_attempt req timeoutMs signal retryStatuses retries baseDelayMs attempt w
    = (r, w') ->
  sent w' = sent w ++ [(now w, req)].
Proof.
  intros Hs Ht.
  unfold fetchWithRetry_attempt, try_catch, bind, ret, throw, read_aborted, Math_random_floor.
  rewrite attempt_controller_never_aborted by done.
  intros Hrun.
  destruct (fetch req _ w) as [r1 w1] eqn:Ef.
  apply fetch_dispatches in Ef; [|lia].
  repeat (case_match; simplify_eq/=);
    repeat match goal with
    | H : sleep _ _ _ = _ |- _ => apply sleep_sent in H; cbn in H
    end; congruence.
Qed.

Lemma fetchWithRetry_dispatches req timeoutMs signal retryStatuses retries baseDelayMs
    w r w' :
  never_aborted signal -> 0 < timeoutMs ->
  fetchWithRetry req timeoutMs signal retryStatuses retries baseDelayMs w = (r, w') ->
  exists times, sent w' = sent w ++ map (fun t => (t, req)) (now w :: times).
Proof.
  intros Hs Ht. unfold fetchWithRetry. cbn [fetchWithRetry_loop]. unfold bind.
  destruct (fetchWithRetry_attempt _ _ _ _ _ _ _ w) as [[[res|]|e] w1] eqn:Ea;
    apply attempt_dispatches in Ea; try done.
  - intros [= <- <-]. by exists [].
  - intros Hrun. apply fetchWithRetry_loop_sent in Hrun as (times & Hrun & _).
    exists times. by rewrite Hrun, Ea, <- app_assoc.
  - intros [= <- <-]. by exists [].
Qed.
End DispatchFacts.

(** ** What [addUploads] does with empty files *)

Lemma addUploads_loop_skips env folder user files :
  forall k heap,
    UploadManager.addUploads_loop env folder user files k heap =
    UploadManager.addUploads_loop env folder user
      (filter (fun f => UploadManager.f_size f <> 0) files) k heap.
Proof.
  induction files as [|f rest IH]; intros k heap; [done|].
  rewrite filter_cons. cbn [UploadManager.addUploads_loop].
  destruct (Z.eqb_spec (UploadManager.f_size f) 0) as [Hz|Hnz].
  - rewrite decide_False by (intros Hne; by apply Hne). apply IH.
  - rewrite decide_True by done. cbn [UploadManager.addUploads_loop].
    destruct (Z.eqb_spec (UploadManager.f_size f) 0) as [Hz|_]; [done|].
    destruct (UploadManager.initializeUploadSession env k f); [|done].
    cbn [UploadManager.new_controller]. by rewrite IH.
Qed.

Lemma addUploads_loop_nonempty env folder user files :
  forall k heap r heap' opened,
    UploadManager.addUploads_loop env folder user files k heap = (r, heap', opened) ->
    Forall (fun f => UploadManager.f_size f <> 0) opened /\
    forall new, r = Ok new ->
      Forall (fun u => UploadManager.size u <> 0 /\
                       UploadManager.status u = UploadManager.st_pending) new.
Proof.
  induction files as [|f rest IH]; intros k heap r heap' opened;
    cbn [UploadManager.addUploads_loop].
  - intros [= <- <- <-]. split; [constructor|]. intros new [= <-]. constructor.
  - destruct (Z.eqb_spec (UploadManager.f_size f) 0) as [Hz|Hnz]; [apply IH|].
    destruct (UploadManager.initializeUploadSession env k f) as [session|e].
    + cbn [UploadManager.new_controller].
      destruct (UploadManager.addUploads_loop env folder user rest (S k) _)
        as [[r1 heap2] opened1] eqn:E.
      apply IH in E as [Hop Hnew].
      intros [= <- <- <-]. split; [by constructor|].
      intros new Heq. destruct r1 as [new1|e]; [|discriminate].
      injection Heq as <-. constructor; [done|]. by apply Hnew.
    + intros [= <- <- <-]. split; [by repeat constructor|]. intros new; discriminate.
Qed.

Lemma addUploads_loop_all_empty env folder user files :
  Forall (fun f => UploadManager.f_size f = 0) files ->
  forall k heap,
    UploadManager.addUploads_loop env folder user files k heap = (Ok [], heap, []).
Proof.
  induction 1 as [|f rest Hf _ IH]; intros k heap; cbn [UploadManager.addUploads_loop];
    [done|].
  rewrite Hf. cbn. apply IH.
Qed.

(** The reading of C9 as written is refuted: on the reference backend the
    upload of the empty buffer succeeds; one 16-byte document is stored and
    one descriptor comes back. *)
Lemma uploadFile_accepts_empty_buffer :
  (exists r w',
     @uploadFile standin_crypto (faithful_backend 20) [] "empty.bin" None empty_world
       = (Ok r, w') /\
     length (chunks r) = 1%nat /\ totalChunks r = 1 /\
     length (sent w') = 1%nat /\ map buffer_length (server w') = [16]) /\
  ~ @rejects_empty_upfront standin_crypto (faithful_backend 20).
Proof.
  assert (Hrun : exists r w',
     @uploadFile standin_crypto (faithful_backend 20) [] "empty.bin" None empty_world
       = (Ok r, w') /\
     length (chunks r) = 1%nat /\ totalChunks r = 1 /\
     length (sent w') = 1%nat /\ map buffer_length (server w') = [16]).
  { eexists _, _. split; [by vm_compute|]. by vm_compute. }
  split; [exact Hrun|].
  intros Hrej. destruct Hrun as (r & w' & Hrun & _).
  destruct (Hrej "empty.bin" None empty_world) as (e & w'' & Hthrow & _).
  rewrite Hrun in Hthrow. discriminate.
Qed.

Section ChunkDispatch.
Context `{C : CryptoLib} `{P : Platform}.

Lemma uploadChunk_dispatches fid i chunk filename signal w r w' :
  never_aborted signal ->
  uploadChunk fid i chunk filename signal w = (r, w') ->
  exists times,
    sent w' = sent w ++
      map (fun t => (t, ReqSendDocument TELEGRAM_CHANNEL_ID
                          (encryptChunk chunk (generateEncryptionKey fid i))
                          (fid +:+ "_" +:+ show i +:+ "_" +:+ filename)))
          (now w :: times).
Proof.
  intros Hs. unfold uploadChunk, bind at 1, sendDocument, bind at 1.
  destruct (fetchWithRetry _ _ _ _ _ _ w) as [[resp|e] w2] eqn:Ef;
    apply fetchWithRetry_dispatches in Ef as (times & Ef); try done;
    intros Hrun; exists times;
    (replace (sent w') with (sent w2);
     [exact Ef|unfold throw, ret in Hrun; by repeat case_match; simplify_eq/=]).
Qed.
End ChunkDispatch.

Section EmptyTheorem.
Context `{C : CryptoLib} `{P : Platform}.

(** C9 (amended). [uploadFile] does not refuse an empty buffer: it takes the
    branch of the single chunk, encrypts the empty buffer to one block of
    padding and, unless the caller's token is aborted, sends it; a run that
    succeeds returns one descriptor, of index 0.  Empty files are left out
    earlier, by [addUploads] in the browser, and silently: the call behaves
    as if they were not in the list, opens no session and builds no record
    for them, and succeeds when all the files are empty. *)
Theorem empty_input_handling :
  CryptoLaws C ->
  (forall filename signal w r w',
     uploadFile [] filename signal w = (r, w') ->
     let fid := randomUUID (uuids w) in
     let payload := encryptChunk [] (generateEncryptionKey fid 0) in
     let req := ReqSendDocument TELEGRAM_CHANNEL_ID payload
                  (fid +:+ "_" +:+ show 0 +:+ "_" +:+ filename) in
     buffer_length payload = 16 /\
     (never_aborted signal ->
        exists times, sent w' = sent w ++ map (fun t => (t, req)) (now w :: times)) /\
     (forall res, r = Ok res ->
        telegramStorageId res = fid /\ totalChunks res = 1 /\
        exists c, chunks res = [c] /\ chunkIndex c = 0 /\
                  encryptedHash c = sha256_hex payload)) /\
  (forall env files folder user m,
     UploadManager.addUploads env files folder user m =
     UploadManager.addUploads env
       (filter (fun f => UploadManager.f_size f <> 0) files) folder user m) /\
  (forall env files folder user m r m' opened,
     UploadManager.addUploads env files folder user m = (r, m', opened) ->
     Forall (fun f => UploadManager.f_size f <> 0) opened /\
     forall u, u ∈ UploadManager.uploads m' ->
               u ∈ UploadManager.uploads m \/ UploadManager.size u <> 0) /\
  (forall env files folder user m,
     Forall (fun f => UploadManager.f_size f = 0) files -> falsy user = false ->
     UploadManager.addUploads env files folder user m = (Ok tt, m, [])).
Proof.
  intros HC. split; [|split; [|split]].
  - intros filename signal w r w' Hrun fid payload req.
    split.
    { unfold payload, buffer_length. rewrite encryptChunk_cbc.
      destruct (cbc_encrypt_length (EVP_BytesToKey (generateEncryptionKey fid 0)).1
                  (length ([] : Buffer) / AES_BLOCK + 1)
                  (EVP_BytesToKey (generateEncryptionKey fid 0)).2 (padded [])
                  HC (iv_length C HC _)) as [Hlen _].
      { by rewrite padded_length. }
      rewrite Hlen. done. }
    revert Hrun. unfold uploadFile, bind at 1, crypto_randomUUID.
    fold fid. set (w0 := mkWorld _ _ _ _ _). unfold bind at 1.
    destruct (Z.leb_spec (buffer_length ([] : Buffer)) CHUNK_SIZE) as [_|Hgt];
      [|rewrite CHUNK_SIZE_eq in Hgt; unfold buffer_length in Hgt;
        cbn [length] in Hgt; lia].
    unfold bind at 1.
    destruct (uploadChunk fid 0 [] filename signal w0) as [[c|e] w1] eqn:Eu;
      intros [= <- <-].
    + split.
      * intros Hs. by apply uploadChunk_dispatches in Eu.
      * intros res [= <-]. cbn [chunks totalChunks telegramStorageId length].
        split; [done|]. split; [done|]. exists c. split; [done|].
        apply uploadChunk_spec in Eu as [_ Hc].
        by destruct (Hc c eq_refl) as (? & _ & ?).
    + split; [|done]. intros Hs. by apply uploadChunk_dispatches in Eu.
  - intros env files folder user m. unfold UploadManager.addUploads.
    by rewrite addUploads_loop_skips.
  - intros env files folder user m r m' opened. unfold UploadManager.addUploads.
    destruct (falsy user).
    { intros [= <- <- <-]. split; [constructor|]. by left. }
    destruct (UploadManager.addUploads_loop _ _ _ _ _ _) as [[[new|e] heap] op] eqn:E;
      apply addUploads_loop_nonempty in E as [Hop Hnew]; intros [= <- <- <-]; cbn.
    + split; [done|]. intros u Hin. apply elem_of_app in Hin as [Hin|Hin]; [by left|].
      right. specialize (Hnew new eq_refl). eapply Forall_forall in Hnew; [|exact Hin].
      by destruct Hnew.
    + split; [done|]. by left.
  - intros env files folder user m Hall Huser. unfold UploadManager.addUploads.
    rewrite Huser, addUploads_loop_all_empty by done.
    destruct m. cbn. by rewrite app_nil_r.
Qed.
End EmptyTheorem.

Lemma empty_input_handling_witness :
  CryptoLaws standin_crypto /\
  UploadManager.addUploads UploadManager.sample_env
    [{| UploadManager.f_name := "empty.bin"; UploadManager.f_size := 0;
        UploadManager.f_type := "application/octet-stream" |}]
    None (Some "user") (UploadManager.mgr UploadManager.initial)
  = (Ok tt, UploadManager.mgr UploadManager.initial, []).
Proof.
  split; [exact standin_crypto_laws|].
  destruct (@empty_input_handling standin_crypto (faithful_backend 20) standin_crypto_laws)
    as (_ & _ & _ & Hempty).
  apply Hempty; [|reflexivity]. by repeat constructor.
Defined.
(** * The theorems at sample inputs *)

Lemma upload_download_roundtrip_witness :
  exists r w1,
    @uploadFile standin_crypto (faithful_backend 20) sample_plain "a.bin" None empty_world
      = (Ok r, w1) /\
    exists w3,
      @downloadFileByChunks standin_crypto (faithful_backend 20)
        (telegramStorageId r) (reverse (chunks r)) w1 = (Ok sample_plain, w3).
Proof.
  destruct (@upload_download_roundtrip standin_crypto 20 sample_plain "a.bin" None
              empty_world standin_crypto_laws ltac:(reflexivity) I)
    as [(r & w1 & Hup & Hdown) _].
  exists r, w1. split; [exact Hup|].
  apply Hdown; [reflexivity|]. apply reverse_Permutation.
Defined.

Lemma download_integrity_witness :
  exists w2,
    @downloadFileByChunks_loop standin_crypto (faithful_backend 20)
      "file" [tampered_chunk] [] tampered_world
    = (Throw (Error "Failed to download chunk 0: bad decrypt"), w2).
Proof.
  destruct (@download_integrity standin_crypto (faithful_backend 20) "file") as [Hfirst _].
  eexists.
  erewrite (Hfirst tampered_chunk [] [] "doc0" _ (flip_first_bit sample_cipher)
              tampered_world);
    [ | reflexivity | reflexivity | vm_compute; reflexivity | reflexivity
      | vm_compute; reflexivity | vm_compute; discriminate ].
  vm_compute. reflexivity.
Defined.

Lemma fetchWithRetry_retry_budget_witness :
  exists res w' times,
    @fetchWithRetry (fixed_status_backend 503 20) (ReqGetFile "doc0") 60000 None
      default_retryStatuses 4 1000 busy_world = (Ok res, w') /\
    status res = 503 /\ length times = 5%nat /\
    sent w' = map (fun t => (t, ReqGetFile "doc0")) times.
Proof.
  destruct (@fetchWithRetry_retry_budget (fixed_status_backend 503 20)
              (ReqGetFile "doc0") 60000 None default_retryStatuses 4 1000 busy_world I)
    as [Hretry _].
  destruct Hretry as (res & w' & times & Hrun & _ & _ & Hlen & Hsent).
  { intros s t. exists 20%N, (error_reply 503 "" ""), tt.
    split; [reflexivity|]. split; [reflexivity|]. split; reflexivity. }
  exists res, w', times. split; [exact Hrun|]. split; [|split; [exact Hlen|exact Hsent]].
  vm_compute in Hrun. by injection Hrun as <- _.
Defined.





Lemma resume_frame_and_continuation_witness :
  exists u' c,
    UploadManager.find_upload "upload_0"
      (UploadManager.uploads
         (UploadManager.resumeUpload "upload_0" UploadManager.paused_manager))
      = Some u' /\
    UploadManager.status u' = UploadManager.st_pending /\
    UploadManager.error u' = None /\
    UploadManager.abortController u' = Some c /\
    UploadManager.currentChunk u' = 1.
Proof.
  destruct (UploadManagerFacts.resume_frame_and_continuation
              UploadManager.paused_manager "upload_0" UploadManager.sample_paused
              eq_refl eq_refl)
    as (u' & c & Hfind & Hst & Herr & Hctl & _ & _ & _ & Hsame & _).
  exists u', c. split; [exact Hfind|]. split; [exact Hst|]. split; [exact Herr|].
  split; [exact Hctl|].
  destruct Hsame as (_ & _ & _ & _ & _ & _ & _ & _ & _ & _ & _ & _ & Hcur & _).
  exact Hcur.
Defined.

(** * Further properties of the storage gateway *)

Section CipherShape.
Context `{C : CryptoLib}.

Lemma encryptChunk_blocks (chunk : Buffer) (key : string) :
  CryptoLaws C ->
  length (encryptChunk chunk key) = ((length chunk / AES_BLOCK + 1) * AES_BLOCK)%nat.
Proof.
  intros L. rewrite encryptChunk_cbc.
  destruct (cbc_encrypt_length (EVP_BytesToKey key).1 (length chunk / AES_BLOCK + 1)
              (EVP_BytesToKey key).2 (padded chunk) L (iv_length C L _)) as [Hl _];
    [by rewrite padded_length|done].
Qed.

(** X1. The ciphertext of a chunk is a whole number of blocks, one more
    than the complete blocks of the plaintext: it is longer than the
    plaintext by 1 to 16 bytes. *)
Theorem encryptChunk_length (chunk : Buffer) (key : string) :
  CryptoLaws C ->
  length (encryptChunk chunk key) = ((length chunk / AES_BLOCK + 1) * AES_BLOCK)%nat /\
  (length chunk < length (encryptChunk chunk key) <= length chunk + AES_BLOCK)%nat /\
  (length (encryptChunk chunk key) mod AES_BLOCK = 0)%nat.
Proof.
  intros L. pose proof (encryptChunk_blocks chunk key L) as Hlen.
  split; [done|]. rewrite Hlen. unfold AES_BLOCK.
  pose proof (Nat.div_mod_eq (length chunk) 16).
  pose proof (Nat.mod_upper_bound (length chunk) 16).
  split; [lia|]. apply Nat.Div0.mod_mul.
Qed.

(** X2. A ciphertext that is empty or not a whole number of blocks is
    refused by [decryptChunk] with the error of [final], whatever the key. *)
Theorem decryptChunk_partial_block (enc : Buffer) (key : string) :
  enc = [] \/ (length enc mod AES_BLOCK <> 0)%nat ->
  decryptChunk enc key = Throw wrong_final_block_length.
Proof.
  intros Henc. unfold decryptChunk, createDecipher.
  destruct (EVP_BytesToKey key) as [k iv]. unfold decipher_update.
  destruct enc as [|b enc]; [done|].
  destruct Henc as [|Hmod]; [done|].
  cbn [d_buf d_key d_chain d_final app].
  set (input := b :: enc) in *.
  destruct (cbc_decrypt k iv (length input / AES_BLOCK) input) as [plain last].
  assert (Hrest : drop (length input / AES_BLOCK * AES_BLOCK) input <> []).
  { intros Hnil. apply (f_equal length) in Hnil. rewrite length_drop in Hnil.
    cbn [length] in Hnil. apply Hmod.
    pose proof (Nat.div_mod_eq (length input) AES_BLOCK). lia. }
  destruct (drop (length input / AES_BLOCK * AES_BLOCK) input) as [|x rest] eqn:Hd;
    [done|].
  by destruct (length input / AES_BLOCK)%nat.
Qed.
End CipherShape.

Lemma encryptChunk_length_witness :
  length (@encryptChunk standin_crypto sample_plain "key") = 16%nat.
Proof.
  destruct (@encryptChunk_length standin_crypto sample_plain "key" standin_crypto_laws)
    as [Hlen _].
  rewrite Hlen. reflexivity.
Defined.

Lemma decryptChunk_partial_block_witness :
  @decryptChunk standin_crypto (removelast sample_cipher) "key"
  = Throw wrong_final_block_length.
Proof.
  apply decryptChunk_partial_block. right. vm_compute. discriminate.
Defined.

(** ** How long a call of [fetchWithRetry] can take *)

Section RetryBounds.
Context `{P : Platform}.

Lemma sleep_bounds ms s w r w' :
  sleep ms s w = (r, w') -> now w <= now w' <= now w + Z.max 0 ms.
Proof.
  unfold sleep. intros Hrun.
  repeat case_match; simplify_eq/=; lia.
Qed.

Lemma sleep_throw_aborted ms s w e w' :
  sleep ms s w = (Throw e, w') -> aborted_opt s (now w') = true.
Proof.
  unfold sleep, aborted_opt, aborted. intros Hrun.
  repeat case_match; simplify_eq/=; lia.
Qed.

Lemma fetch_bounds req ctrl w r w' :
  fetch req ctrl w = (r, w') -> now w <= now w' <= Z.max (now w) ctrl.
Proof.
  unfold fetch. intros Hrun.
  repeat case_match; simplify_eq/=; lia.
Qed.

Lemma attempt_controller_bound signal timeoutMs t :
  0 <= timeoutMs -> attempt_controller signal timeoutMs t <= t + timeoutMs.
Proof.
  intros Ht. unfold attempt_controller. destruct signal as [[[a|]]|]; lia.
Qed.

(** One turn of the loop: it takes the time of one request, and of one
    backoff unless it is the last turn or it returns a response. *)
Lemma attempt_bounds req timeoutMs signal retryStatuses retries baseDelayMs attempt
    w r w' :
  0 <= timeoutMs ->
  fetchWithRetry_attempt req timeoutMs signal retryStatuses retries baseDelayMs attempt w
    = (r, w') ->
  now w <= now w' <= now w + timeoutMs + 15000 /\
  (attempt = retries \/ (exists res, r = Ok (Some res)) -> now w' <= now w + timeoutMs) /\
  (r = Ok None -> attempt <> retries).
Proof.
  intros Ht.
  unfold fetchWithRetry_attempt, try_catch, bind, ret, throw, read_aborted, Math_random_floor.
  pose proof (attempt_controller_bound signal timeoutMs (now w) Ht) as Hc.
  destruct (fetch req _ w) as [r1 w1] eqn:Ef. apply fetch_bounds in Ef.
  destruct r1 as [res|e].
  - destruct (ok res); [intros [= <- <-]; split; [lia|split; [lia|done]]|].
    destruct (negb _ || _) eqn:Hlast.
    { intros [= <- <-]. split; [lia|]. split; [lia|done]. }
    apply orb_false_iff in Hlast as [_ Hlast]. apply Nat.eqb_neq in Hlast.
    destruct (sleep _ signal _) as [[u|e] w2] eqn:Es.
    + apply sleep_bounds in Es; cbn [now] in Es. intros [= <- <-].
      split; [lia|]. split; [intros [?|[? ?]]; [done|discriminate]|done].
    + rewrite (sleep_throw_aborted _ _ _ _ _ Es).
      apply sleep_bounds in Es; cbn [now] in Es. intros [= <- <-].
      split; [lia|]. split; [intros [?|[? ?]]; [done|discriminate]|done].
  - destruct (aborted_opt signal (now w1)).
    { intros [= <- <-]. split; [lia|]. split; [lia|done]. }
    destruct (Nat.eqb_spec attempt retries) as [Heq|Hne].
    { intros [= <- <-]. split; [lia|]. split; [lia|done]. }
    destruct (sleep _ signal _) as [[u|e'] w2] eqn:Es;
      apply sleep_bounds in Es; cbn [now] in Es; cbv beta iota zeta; intros [= <- <-];
      (split; [lia|]); (split; [intros [?|[? ?]]; [done|discriminate]|done]).
Qed.

Lemma fetchWithRetry_loop_bounds req timeoutMs signal retryStatuses retries baseDelayMs n :
  0 <= timeoutMs ->
  forall attempt w r w',
    (attempt + n = S retries)%nat -> (0 < n)%nat ->
    fetchWithRetry_loop req timeoutMs signal retryStatuses retries baseDelayMs n attempt w
      = (r, w') ->
    (exists times,
       sent w' = sent w ++ map (fun t => (t, req)) times /\
       (length times <= n)%nat /\ Forall (fun t => now w <= t <= now w') times) /\
    now w <= now w' <= now w + Z.of_nat n * timeoutMs + (Z.of_nat n - 1) * 15000.
Proof.
  intros Ht. induction n as [|n IH]; intros attempt w r w' Hn Hpos; [lia|].
  cbn [fetchWithRetry_loop]. unfold bind.
  destruct (fetchWithRetry_attempt _ _ _ _ _ _ _ w) as [[[res|]|e] w1] eqn:Ea;
    pose proof (attempt_bounds _ _ _ _ _ _ _ _ _ _ Ht Ea) as (Hb1 & Hb2 & Hb3);
    pose proof (attempt_sent _ _ _ _ _ _ _ _ _ _ Ea) as Hs.
  - intros [= <- <-]. specialize (Hb2 (or_intror (ex_intro _ res eq_refl))). split.
    + destruct Hs as [[_ Hs]|Hs]; [by destruct (Hs res)|].
      exists [now w]. split; [done|]. split; [cbn; lia|]. constructor; [lia|done].
    + nia.
  - specialize (Hb3 eq_refl). intros Hrun.
    apply IH in Hrun as ((times & Hsent & Hlen & Hall) & Hnow); [|lia|lia]. split.
    + destruct Hs as [[Hs _]|Hs].
      * exists times. rewrite Hsent, Hs. split; [done|]. split; [lia|].
        eapply Forall_impl; [exact Hall|]. intros t; cbn; lia.
      * exists (now w :: times). rewrite Hsent, Hs, <- app_assoc. split; [done|].
        split; [cbn; lia|]. constructor; [lia|].
        eapply Forall_impl; [exact Hall|]. intros t; cbn; lia.
    + nia.
  - intros [= <- <-]. split.
    + destruct Hs as [[Hs _]|Hs].
      * exists []. rewrite app_nil_r. split; [done|]. split; [cbn; lia|constructor].
      * exists [now w]. split; [done|]. split; [cbn; lia|]. constructor; [lia|done].
    + destruct (decide (attempt = retries)) as [Heq|Hne].
      * specialize (Hb2 (or_introl Heq)). nia.
      * assert (1 <= Z.of_nat n) by lia. nia.
Qed.

(** X3. Whatever the server, the random source and the caller's token do,
    a call of [fetchWithRetry] dispatches its request at most [retries + 1]
    times and settles within [retries + 1] timeouts and [retries] backoffs
    of at most 15 seconds each. *)
Theorem fetchWithRetry_bounded req timeoutMs signal retryStatuses retries baseDelayMs
    w r w' :
  0 <= timeoutMs ->
  fetchWithRetry req timeoutMs signal retryStatuses retries baseDelayMs w = (r, w') ->
  (exists times,
     sent w' = sent w ++ map (fun t => (t, req)) times /\
     (length times <= S retries)%nat /\ Forall (fun t => now w <= t <= now w') times) /\
  now w <= now w' <= now w + (Z.of_nat retries + 1) * timeoutMs + Z.of_nat retries * 15000.
Proof.
  intros Ht Hrun. unfold fetchWithRetry in Hrun.
  apply fetchWithRetry_loop_bounds in Hrun as [Hsent Hnow]; [|done|lia|lia].
  split; [done|]. lia.
Qed.
End RetryBounds.

Lemma fetchWithRetry_bounded_witness :
  exists r w',
    @fetchWithRetry (fixed_status_backend 503 20) (ReqGetFile "doc0") 60000 None
      default_retryStatuses 4 1000 busy_world = (r, w') /\
    length (sent w') = 5%nat /\ now w' = 15100 /\ now w' <= 5 * 60000 + 4 * 15000.
Proof.
  destruct (@fetchWithRetry (fixed_status_backend 503 20) (ReqGetFile "doc0") 60000 None
              default_retryStatuses 4 1000 busy_world) as [r w'] eqn:Hrun.
  exists r, w'. split; [reflexivity|].
  destruct (@fetchWithRetry_bounded (fixed_status_backend 503 20) (ReqGetFile "doc0")
              60000 None default_retryStatuses 4 1000 busy_world r w'
              ltac:(discriminate) Hrun) as [_ Hnow].
  vm_compute in Hrun. injection Hrun as <- <-.
  split; [reflexivity|]. split; [reflexivity|exact (proj2 Hnow)].
Defined.

(** ** Attempts that fail in the network, or are never answered *)

Section RetryFailures.
Context `{P : Platform}.

Lemma fetchWithRetry_loop_failing req timeoutMs signal retryStatuses retries baseDelayMs e :
  never_aborted signal ->
  always_fails req timeoutMs e ->
  forall n attempt w, (attempt + n = retries)%nat ->
    exists w' times,
      fetchWithRetry_loop req timeoutMs signal retryStatuses retries baseDelayMs (S n) attempt w
        = (Throw e, w') /\
      length times = S n /\
      sent w' = sent w ++ map (fun t => (t, req)) times.
Proof.
  intros Hs Hf. induction n as [|n IH]; intros attempt w Hn.
  - destruct (Hf (server w) (now w)) as (lat & s' & Hserve & Hlat).
    eexists. exists [now w]. cbn [fetchWithRetry_loop].
    unfold bind, fetchWithRetry_attempt, try_catch, bind, fetch.
    rewrite attempt_controller_never_aborted by done.
    replace (now w + timeoutMs <=? now w) with false by lia.
    rewrite Hserve.
    replace (now w + Z.of_N lat <? now w + timeoutMs) with true by lia.
    unfold read_aborted. rewrite aborted_opt_never by done.
    replace (attempt =? retries)%nat with true by (symmetry; apply Nat.eqb_eq; lia).
    unfold throw. split; [reflexivity|]. by split.
  - destruct (Hf (server w) (now w)) as (lat & s' & Hserve & Hlat).
    remember (S n) as m.
    cbn [fetchWithRetry_loop].
    unfold bind at 1. unfold fetchWithRetry_attempt, try_catch. unfold bind at 1. unfold fetch.
    rewrite attempt_controller_never_aborted by done.
    replace (now w + timeoutMs <=? now w) with false by lia.
    rewrite Hserve.
    replace (now w + Z.of_N lat <? now w + timeoutMs) with true by lia.
    unfold bind at 1. unfold read_aborted. rewrite aborted_opt_never by done.
    replace (attempt =? retries)%nat with false by (symmetry; apply Nat.eqb_neq; lia).
    unfold bind, Math_random_floor.
    rewrite sleep_never_aborted by done. unfold ret.
    match goal with |- context [fetchWithRetry_loop _ _ _ _ _ _ _ _ ?w1] =>
      destruct (IH (S attempt) w1) as (w' & times & Hrun & Hlen & Hsent); [lia|] end.
    subst m. rewrite Hrun. exists w', (now w :: times). split; [done|]. split.
    + cbn. by rewrite Hlen.
    + rewrite Hsent. cbn [sent set_now map]. by rewrite <- app_assoc.
Qed.

(** X4. When every attempt fails in the network, and the caller does not
    cancel, the request is dispatched exactly [retries + 1] times and the
    call rejects with the network error itself. *)
Theorem fetchWithRetry_network_failure req timeoutMs signal retryStatuses retries
    baseDelayMs e w :
  never_aborted signal ->
  always_fails req timeoutMs e ->
  exists w' times,
    fetchWithRetry req timeoutMs signal retryStatuses retries baseDelayMs w = (Throw e, w') /\
    length times = S retries /\
    sent w' = sent w ++ map (fun t => (t, req)) times.
Proof.
  intros Hs Hf. unfold fetchWithRetry. by apply fetchWithRetry_loop_failing.
Qed.
End RetryFailures.

Section RetryTimeouts.
Context `{P : Platform}.

Lemma fetchWithRetry_loop_silent req timeoutMs signal retryStatuses retries baseDelayMs :
  never_aborted signal -> 0 < timeoutMs ->
  never_answers req ->
  forall n attempt w, (attempt + n = retries)%nat ->
    exists w' times,
      fetchWithRetry_loop req timeoutMs signal retryStatuses retries baseDelayMs (S n) attempt w
        = (Throw fetch_aborted, w') /\
      length times = S n /\
      sent w' = sent w ++ map (fun t => (t, req)) times /\
      now w + Z.of_nat (S n) * timeoutMs <= now w'.
Proof.
  intros Hs Ht Hf. induction n as [|n IH]; intros attempt w Hn.
  - destruct (Hf (server w) (now w)) as (s' & Hserve).
    eexists. exists [now w]. cbn [fetchWithRetry_loop].
    unfold bind, fetchWithRetry_attempt, try_catch, bind, fetch.
    rewrite attempt_controller_never_aborted by done.
    replace (now w + timeoutMs <=? now w) with false by lia.
    rewrite Hserve.
    unfold read_aborted. rewrite aborted_opt_never by done.
    replace (attempt =? retries)%nat with true by (symmetry; apply Nat.eqb_eq; lia).
    unfold throw. split; [reflexivity|]. split; [done|]. split; [done|]. cbn. lia.
  - destruct (Hf (server w) (now w)) as (s' & Hserve).
    remember (S n) as m.
    cbn [fetchWithRetry_loop].
    unfold bind at 1. unfold fetchWithRetry_attempt, try_catch. unfold bind at 1. unfold fetch.
    rewrite attempt_controller_never_aborted by done.
    replace (now w + timeoutMs <=? now w) with false by lia.
    rewrite Hserve.
    unfold bind at 1. unfold read_aborted. rewrite aborted_opt_never by done.
    replace (attempt =? retries)%nat with false by (symmetry; apply Nat.eqb_neq; lia).
    unfold bind, Math_random_floor.
    rewrite sleep_never_aborted by done. unfold ret.
    match goal with |- context [fetchWithRetry_loop _ _ _ _ _ _ _ _ ?w1] =>
      destruct (IH (S attempt) w1) as (w' & times & Hrun & Hlen & Hsent & Hnow); [lia|] end.
    subst m. rewrite Hrun. exists w', (now w :: times). split; [done|]. split.
    + cbn. by rewrite Hlen.
    + split.
      * rewrite Hsent. cbn [sent set_now map]. by rewrite <- app_assoc.
      * cbn [now set_now] in Hnow. lia.
Qed.

(** X5. A request that is never answered is dispatched [retries + 1] times,
    each attempt running into its timeout, and the call then rejects with
    an [AbortError] although the caller's token was never aborted. *)
Theorem fetchWithRetry_timeouts req timeoutMs signal retryStatuses retries baseDelayMs w :
  never_aborted signal -> 0 < timeoutMs ->
  never_answers req ->
  exists w' times e,
    fetchWithRetry req timeoutMs signal retryStatuses retries baseDelayMs w = (Throw e, w') /\
    err_name e = "AbortError" /\
    aborted_opt signal (now w') = false /\
    length times = S retries /\
    sent w' = sent w ++ map (fun t => (t, req)) times /\
    now w + (Z.of_nat retries + 1) * timeoutMs <= now w'.
Proof.
  intros Hs Ht Hf. unfold fetchWithRetry.
  destruct (fetchWithRetry_loop_silent req timeoutMs signal retryStatuses retries
              baseDelayMs Hs Ht Hf retries 0%nat w eq_refl)
    as (w' & times & Hrun & Hlen & Hsent & Hnow).
  exists w', times, fetch_aborted. split; [done|]. split; [done|].
  split; [by apply aborted_opt_never|]. split; [done|]. split; [done|]. lia.
Qed.
End RetryTimeouts.

(** ** Cancelling an upload *)

Section UploadCancel.
Context `{C : CryptoLib} `{P : Platform}.
Variable a : Z.
Variable s : AbortSignal.
Hypothesis Hs : abort_time s = Some a.

Lemma prompt_uuid : prompt a crypto_randomUUID.
Proof.
  intros w r w' Hw [= <- <-]. split; [|split]; cbn; [|lia|lia].
  exists []. by rewrite app_nil_r.
Qed.

Lemma prompt_sendDocument buffer filename :
  prompt a (sendDocument buffer filename (Some s)).
Proof.
  unfold sendDocument. apply prompt_bind.
  - unfold fetchWithRetry. by apply prompt_loop.
  - intros response. repeat case_match; (apply prompt_throw || apply prompt_ret).
Qed.

Lemma prompt_uploadChunk fid i chunk filename :
  prompt a (uploadChunk fid i chunk filename (Some s)).
Proof.
  unfold uploadChunk. apply prompt_bind; [apply prompt_sendDocument|].
  intros [m|]; [apply prompt_ret|apply prompt_throw].
Qed.

Lemma prompt_uploadFile_loop fileBuffer filename fid totalChunks n :
  forall i chunks,
    prompt a (uploadFile_loop fileBuffer filename (Some s) fid totalChunks n i chunks).
Proof.
  induction n as [|n IH]; intros i chunks; cbn [uploadFile_loop]; [apply prompt_ret|].
  apply prompt_bind; [apply prompt_uploadChunk|]. intros c.
  apply prompt_bind; [|intros _; apply IH].
  destruct (i <? totalChunks - 1); [|apply prompt_ret].
  apply prompt_bind; [apply prompt_random|]. intros jitter. by apply prompt_sleep.
Qed.

Lemma prompt_uploadFile fileBuffer filename :
  prompt a (uploadFile fileBuffer filename (Some s)).
Proof.
  unfold uploadFile. apply prompt_bind; [apply prompt_uuid|]. intros fid.
  apply prompt_bind; [|intros cs; apply prompt_ret].
  destruct (buffer_length fileBuffer <=? CHUNK_SIZE).
  - apply prompt_bind; [apply prompt_uploadChunk|]. intros c. apply prompt_ret.
  - apply prompt_uploadFile_loop.
Qed.

Lemma uploadChunk_already_aborted fid i chunk filename w :
  a <= now w ->
  uploadChunk fid i chunk filename (Some s) w = (Throw fetch_aborted, w).
Proof.
  intros Hw. unfold uploadChunk, bind at 1, sendDocument, bind at 1.
  by rewrite (fetchWithRetry_already_aborted a) by done.
Qed.

Lemma uploadFile_already_aborted fileBuffer filename w :
  a <= now w ->
  exists w', uploadFile fileBuffer filename (Some s) w = (Throw fetch_aborted, w') /\
             now w' = now w /\ sent w' = sent w.
Proof.
  intros Hw. unfold uploadFile, bind at 1, crypto_randomUUID.
  set (fid := randomUUID (uuids w)). set (w0 := mkWorld _ _ _ _ _).
  exists w0. split; [|done]. unfold bind at 1.
  destruct (Z.leb_spec (buffer_length fileBuffer) CHUNK_SIZE) as [Hle|Hgt].
  - unfold bind at 1. by rewrite uploadChunk_already_aborted.
  - pose proof (ceil_div_chunks (buffer_length fileBuffer)) as Hc.
    destruct Hc as (H0 & H1 & H2); [rewrite CHUNK_SIZE_eq in *; lia|].
    destruct (Z.to_nat (ceil_div (buffer_length fileBuffer) CHUNK_SIZE)) as [|n] eqn:En;
      [rewrite CHUNK_SIZE_eq in *; lia|].
    cbn [uploadFile_loop]. unfold bind at 1.
    by rewrite uploadChunk_already_aborted.
Qed.
End UploadCancel.

Section UploadCancelTheorem.
Context `{C : CryptoLib} `{P : Platform}.

(** X6. Cancelling an upload stops it.  With a token aborted at [a],
    [uploadFile] dispatches no request at or after [a]; a call still running
    at [a] rejects at [a] with an [AbortError], also when the abort falls
    into the pause between two chunks; a call made with a token that is
    already aborted rejects at once and sends nothing. *)
Theorem uploadFile_cancellation fileBuffer filename s (a : Z) w r w' :
  abort_time s = Some a ->
  uploadFile fileBuffer filename (Some s) w = (r, w') ->
  (exists new, sent w' = sent w ++ new /\ Forall (fun tq : Z * Request => tq.1 < a) new) /\
  (if aborted s (now w')
   then now w' = Z.max a (now w) /\ exists e, r = Throw e /\ err_name e = "AbortError"
   else now w <= now w') /\
  (a <= now w -> sent w' = sent w).
Proof.
  intros Hs Hrun.
  destruct (Z.lt_ge_cases (now w) a) as [Hlt|Hge].
  - destruct (prompt_uploadFile a s Hs fileBuffer filename w r w' Hlt Hrun)
      as (H1 & H2 & H3).
    split; [done|]. split; [|lia].
    unfold aborted. rewrite Hs.
    destruct (Z.leb_spec a (now w')) as [Hab|]; [|done].
    destruct (H3 Hab) as [-> He]. split; [lia|done].
  - destruct (uploadFile_already_aborted a s Hs fileBuffer filename w Hge)
      as (w0 & Hrun0 & Hnow & Hsent).
    rewrite Hrun0 in Hrun. injection Hrun as <- <-.
    split; [exists []; by rewrite app_nil_r|]. split; [|done].
    unfold aborted. rewrite Hs, Hnow.
    destruct (Z.leb_spec a (now w)); [|lia]. split; [lia|]. by exists fetch_aborted.
Qed.
End UploadCancelTheorem.

(** ** What an upload sends *)

Lemma buffer_slice_length (b : Buffer) (start end_ : Z) :
  0 <= start -> 0 <= end_ ->
  buffer_length (buffer_slice b start end_) <= Z.max 0 (end_ - start).
Proof.
  intros Hs He. unfold buffer_slice, slice_index, buffer_length.
  set (L := Z.of_nat (length b)).
  destruct (Z.ltb_spec start 0); [lia|]. destruct (Z.ltb_spec end_ 0); [lia|].
  destruct (Z.ltb_spec (Z.min start L) (Z.min end_ L)); [|cbn; lia].
  rewrite length_take, length_drop. lia.
Qed.

Lemma chunk_slice_length (b : Buffer) (i : Z) :
  0 <= i ->
  buffer_length
    (buffer_slice b (i * CHUNK_SIZE)
       (Z.min (i * CHUNK_SIZE + CHUNK_SIZE) (buffer_length b))) <= CHUNK_SIZE.
Proof.
  intros Hi. etrans; [apply buffer_slice_length|];
    unfold buffer_length; rewrite ?CHUNK_SIZE_eq; lia.
Qed.

Section UploadDocuments.
Context `{C : CryptoLib} `{P : Platform}.

Lemma uploadChunk_documents (L : CryptoLaws C) fid i chunk filename signal w r w' :
  buffer_length chunk <= CHUNK_SIZE ->
  uploadChunk fid i chunk filename signal w = (r, w') ->
  exists new, sent w' = sent w ++ new /\ Forall upload_document new.
Proof.
  intros Hlen Hrun. apply uploadChunk_spec in Hrun as [(times & Hsent & _) _].
  eexists. split; [exact Hsent|]. apply Forall_forall. intros tq Hin.
  apply list_elem_of_fmap in Hin as (t & -> & _).
  eexists _, _. split; [reflexivity|].
  unfold buffer_length in *. rewrite (encryptChunk_blocks _ _ L).
  unfold AES_BLOCK. pose proof (Nat.div_mod_eq (length chunk) 16).
  pose proof (Nat.mod_upper_bound (length chunk) 16).
  split; [lia|].
  rewrite Nat2Z.inj_mul. apply Z.mod_mul. lia.
Qed.

Lemma uploadFile_loop_documents (L : CryptoLaws C) fileBuffer filename signal fid total n :
  forall i chunks w r w',
    0 <= i ->
    uploadFile_loop fileBuffer filename signal fid total n i chunks w = (r, w') ->
    exists new, sent w' = sent w ++ new /\ Forall upload_document new.
Proof.
  induction n as [|n IH]; intros i chunks w r w' Hi; cbn [uploadFile_loop].
  - intros [= <- <-]. exists []. by rewrite app_nil_r.
  - unfold bind at 1.
    destruct (uploadChunk _ _ _ _ _ w) as [[c|e] w1] eqn:Eu;
      apply uploadChunk_documents in Eu as (new1 & Hs1 & Hd1); try done;
      try (by apply chunk_slice_length).
    + unfold bind at 1. destruct (i <? total - 1).
      * unfold bind at 1, Math_random_floor.
        destruct (sleep _ signal _) as [[u|e] w2] eqn:Ep; apply sleep_sent in Ep;
          cbn [sent] in Ep.
        -- intros Hrun. apply IH in Hrun as (new2 & Hs2 & Hd2); [|lia].
           exists (new1 ++ new2). rewrite Hs2, Ep, Hs1, app_assoc. split; [done|].
           by apply Forall_app.
        -- intros [= <- <-]. exists new1. by rewrite Ep.
      * unfold ret at 1.
        intros Hrun. apply IH in Hrun as (new2 & Hs2 & Hd2); [|lia].
        exists (new1 ++ new2). rewrite Hs2, Hs1, app_assoc. split; [done|].
        by apply Forall_app.
    + intros [= <- <-]. by exists new1.
Qed.

Lemma uploadFile_documents_any (L : CryptoLaws C) fileBuffer filename signal w r w' :
  uploadFile fileBuffer filename signal w = (r, w') ->
  exists new, sent w' = sent w ++ new /\ Forall upload_document new.
Proof.
  unfold uploadFile, bind at 1, crypto_randomUUID.
  set (fid := randomUUID (uuids w)). set (w0 := mkWorld _ _ _ _ _).
  unfold bind at 1.
  destruct (Z.leb_spec (buffer_length fileBuffer) CHUNK_SIZE) as [Hle|Hgt].
  - unfold bind at 1.
    destruct (uploadChunk _ _ _ _ _ w0) as [[c|e] w1] eqn:Eu;
      apply uploadChunk_documents in Eu as (new1 & Hs1 & Hd1); try done;
      intros [= <- <-]; by exists new1.
  - destruct (uploadFile_loop _ _ _ _ _ _ _ _ w0) as [[cs|e] w1] eqn:El;
      apply uploadFile_loop_documents in El as (new1 & Hs1 & Hd1); try done;
      intros [= <- <-]; by exists new1.
Qed.

(** X7. Everything [uploadFile] sends is a document for the configured
    channel that is a whole number of AES blocks and at most one block
    longer than [CHUNK_SIZE]; this holds for the runs that fail as well. *)
Theorem uploadFile_documents fileBuffer filename signal w r w' :
  CryptoLaws C ->
  uploadFile fileBuffer filename signal w = (r, w') ->
  (exists new, sent w' = sent w ++ new /\ Forall upload_document new) /\
  (forall res, r = Ok res -> sent w' <> sent w).
Proof.
  intros L Hrun. split; [by eapply uploadFile_documents_any|].
  intros res ->. revert Hrun.
  unfold uploadFile, bind at 1, crypto_randomUUID.
  set (fid := randomUUID (uuids w)). set (w0 := mkWorld _ _ _ _ _).
  unfold bind at 1.
  assert (Hgrow : forall i chunk ws c ws',
    uploadChunk fid i chunk filename signal ws = (Ok c, ws') -> sent ws' <> sent ws).
  { intros i chunk ws c ws' Eu.
    apply uploadChunk_spec in Eu as [(times & Hsent & Hne) _].
    rewrite Hsent. destruct times as [|t times]; [by destruct (Hne eq_refl)|].
    intros Heq. apply (f_equal length) in Heq. rewrite length_app in Heq.
    cbn in Heq. lia. }
  destruct (Z.leb_spec (buffer_length fileBuffer) CHUNK_SIZE) as [Hle|Hgt].
  - unfold bind at 1.
    destruct (uploadChunk _ _ _ _ _ w0) as [[c|e] w1] eqn:Eu; [|done].
    intros [= <- <-]. by apply Hgrow in Eu.
  - destruct (uploadFile_loop _ _ _ _ _ _ _ _ w0) as [[cs|e] w1] eqn:El; [|done].
    intros [= <- <-].
    pose proof (ceil_div_chunks (buffer_length fileBuffer)) as Hc.
    destruct Hc as (H0 & H1 & H2); [rewrite CHUNK_SIZE_eq in *; lia|].
    apply uploadFile_loop_spec in El
      as (new & timess & _ & Hl1 & Hl2 & Hne & Hs & _);
      [|lia|rewrite Z2Nat.id by lia; rewrite CHUNK_SIZE_eq in *; lia].
    change (sent w0) with (sent w) in Hs. rewrite Hs.
    destruct timess as [|ts timess]; [cbn in Hl2; lia|].
    apply Forall_cons in Hne as [Hts _].
    destruct ts as [|t ts]; [done|].
    intros Heq. apply (f_equal length) in Heq. rewrite length_app in Heq.
    cbn in Heq. lia.
Qed.
End UploadDocuments.

(** ** What a download sends, and how it fails *)

Section DownloadFacts.
Context `{C : CryptoLib} `{P : Platform}.

Lemma getFile_sent handle w r w' :
  getFile handle w = (r, w') ->
  exists times,
    sent w' = sent w ++ map (fun t => (t, ReqGetFile handle)) times /\
    (is_ok r = true -> times <> []).
Proof.
  unfold getFile, bind.
  destruct (fetchWithRetry _ _ _ _ _ _ w) as [[res|e] w1] eqn:Ef;
    apply fetchWithRetry_sent in Ef as (times & Hs & Hne).
  - intros Hrun. exists times. split; [|by intros; apply Hne].
    unfold throw, ret in Hrun. repeat case_match; by simplify_eq/=.
  - intros [= <- <-]. exists times. by split.
Qed.

Lemma downloadFile_sent path w r w' :
  downloadFile path w = (r, w') ->
  exists times,
    sent w' = sent w ++ map (fun t => (t, ReqDownloadFile path)) times /\
    (is_ok r = true -> times <> []).
Proof.
  unfold downloadFile, bind.
  destruct (fetchWithRetry _ _ _ _ _ _ w) as [[res|e] w1] eqn:Ef;
    apply fetchWithRetry_sent in Ef as (times & Hs & Hne).
  - intros Hrun. exists times. split; [|by intros; apply Hne].
    unfold throw, ret in Hrun. repeat case_match; by simplify_eq/=.
  - intros [= <- <-]. exists times. by split.
Qed.

(** The requests of one descriptor: [getFile] on its file id, then the
    download of a path; one of each at least when the chunk comes back. *)
Lemma downloadChunk_sent fid chunk handle w r w' :
  downloadChunk fid chunk handle w = (r, w') ->
  exists times1 times2 path,
    sent w' = sent w ++ map (fun t => (t, ReqGetFile handle)) times1
                     ++ map (fun t => (t, ReqDownloadFile path)) times2 /\
    (is_ok r = true -> times1 <> [] /\ times2 <> []).
Proof.
  unfold downloadChunk. unfold bind at 1.
  destruct (getFile handle w) as [[info|e] w1] eqn:Eg;
    apply getFile_sent in Eg as (times1 & Hs1 & Hne1).
  - destruct info as [info|].
    + destruct (falsy (file_path info)).
      * intros [= <- <-]. exists times1, [], "". rewrite app_nil_r. by split.
      * unfold bind at 1.
        destruct (downloadFile _ w1) as [[enc|e] w2] eqn:Ed;
          apply downloadFile_sent in Ed as (times2 & Hs2 & Hne2).
        -- intros Hrun. exists times1, times2, (default "" (file_path info)).
           assert (w' = w2) as ->.
           { unfold throw, ret in Hrun. by repeat case_match; simplify_eq/=. }
           rewrite Hs2, Hs1, <- app_assoc. split; [done|]. intros _. split; auto.
        -- intros [= <- <-]. exists times1, times2, (default "" (file_path info)).
           rewrite Hs2, Hs1, <- app_assoc. by split.
    + intros [= <- <-]. exists times1, [], "". rewrite app_nil_r. by split.
  - intros [= <- <-]. exists times1, [], "". rewrite app_nil_r. by split.
Qed.

Lemma falsy_default (o : option string) :
  falsy o = false -> o = Some (default "" o).
Proof. by destruct o as [[|]|]. Qed.

Lemma downloadFileByChunks_loop_requests fid sorted :
  forall acc w r w',
    downloadFileByChunks_loop fid sorted acc w = (r, w') ->
    exists new,
      sent w' = sent w ++ new /\
      Forall (download_request sorted) new /\
      (forall e, r = Throw e -> names_chunk sorted e) /\
      (is_ok r = true ->
       Forall (fun c => falsy (chunk_fileId c) = false) sorted /\
       (2 * length sorted <= length new)%nat).
Proof.
  induction sorted as [|c rest IH]; intros acc w r w'; cbn [downloadFileByChunks_loop].
  - intros [= <- <-]. exists []. rewrite app_nil_r. split; [done|]. split; [done|].
    split; [done|]. intros _. split; [done|cbn; lia].
  - destruct (falsy (chunk_fileId c)) eqn:Hf.
    { intros [= <- <-]. exists []. rewrite app_nil_r. split; [done|]. split; [done|].
      split; [|done]. intros e [= <-]. split; [done|]. exists c.
      split; [apply list_elem_of_here|by left]. }
    unfold bind at 1, try_catch.
    destruct (downloadChunk fid c _ w) as [[plain|e] w1] eqn:Ed;
      apply downloadChunk_sent in Ed as (times1 & times2 & path & Hs1 & Hne1).
    + intros Hrun. apply IH in Hrun as (new & Hs & Hreq & Herr & Hok).
      exists ((map (fun t => (t, ReqGetFile (default "" (chunk_fileId c)))) times1
               ++ map (fun t => (t, ReqDownloadFile path)) times2) ++ new).
      split; [by rewrite Hs, Hs1, !app_assoc|]. split; [|split].
      * apply Forall_app. split.
        -- apply Forall_app. split; apply Forall_forall; intros tq Hin;
             apply list_elem_of_fmap in Hin as (t & -> & _).
           ++ left. exists c. split; [apply list_elem_of_here|].
              split; [by apply falsy_default|done].
           ++ right. by exists path.
        -- eapply Forall_impl; [exact Hreq|]. intros tq [(c' & Hin & Hc')|Hd].
           ++ left. exists c'. split; [by apply list_elem_of_further|done].
           ++ by right.
      * intros e He. destruct (Herr e He) as (Hname & c' & Hin & Hmsg).
        split; [done|]. exists c'. split; [by apply list_elem_of_further|done].
      * intros Hr. destruct (Hok Hr) as [Hall Hlen]. split; [by constructor|].
        destruct (Hne1 eq_refl) as [Hn1 Hn2].
        rewrite !length_app, !length_map. cbn [length].
        destruct times1; [done|]. destruct times2; [done|]. cbn [length]. lia.
    + intros [= <- <-].
      exists (map (fun t => (t, ReqGetFile (default "" (chunk_fileId c)))) times1
              ++ map (fun t => (t, ReqDownloadFile path)) times2).
      split; [by rewrite Hs1|]. split; [|split; [|done]].
      * apply Forall_app. split; apply Forall_forall; intros tq Hin;
          apply list_elem_of_fmap in Hin as (t & -> & _).
        -- left. exists c. split; [apply list_elem_of_here|].
           split; [by apply falsy_default|done].
        -- right. by exists path.
      * intros e' [= <-]. split; [done|]. exists c.
        split; [apply list_elem_of_here|]. right. by exists (err_message e).
Qed.


(** X8. A download only reads.  Every request of [downloadFileByChunks] is
    a [getFile] on the file id of one of the descriptors or the download of
    a file path -- never a [sendDocument] -- and a download that returns
    has made at least two requests for each descriptor. *)
Theorem downloadFileByChunks_requests fid chunks w r w' :
  downloadFileByChunks fid chunks w = (r, w') ->
  exists new,
    sent w' = sent w ++ new /\
    Forall (download_request chunks) new /\
    (is_ok r = true -> (2 * length chunks <= length new)%nat).
Proof.
  unfold downloadFileByChunks, bind.
  set (sorted := Array_sort _ chunks).
  assert (Hperm : sorted ≡ₚ chunks) by apply Array_sort_perm.
  destruct (downloadFileByChunks_loop fid sorted [] w) as [[bufs|e] w1] eqn:El;
    apply downloadFileByChunks_loop_requests in El as (new & Hs & Hreq & Herr & Hok);
    intros [= <- <-]; exists new; (split; [done|]); split.
  - eapply Forall_impl; [exact Hreq|]. intros tq [(c & Hin & Hc)|Hd]; [left|by right].
    exists c. by rewrite <- Hperm.
  - intros _. destruct (Hok eq_refl) as [_ Hlen]. by rewrite <- Hperm.
  - eapply Forall_impl; [exact Hreq|]. intros tq [(c & Hin & Hc)|Hd]; [left|by right].
    exists c. by rewrite <- Hperm.
  - done.
Qed.

(** X9. A download that fails says which descriptor failed: the error is
    an [Error] whose message is that of the missing file id of a descriptor
    of the list, or begins with the failed download of one.  A download
    returns bytes only when every descriptor has a file id. *)
Theorem downloadFileByChunks_failure fid chunks w r w' :
  downloadFileByChunks fid chunks w = (r, w') ->
  (forall e, r = Throw e -> names_chunk chunks e) /\
  (is_ok r = true -> Forall (fun c => falsy (chunk_fileId c) = false) chunks).
Proof.
  unfold downloadFileByChunks, bind.
  set (sorted := Array_sort _ chunks).
  assert (Hperm : sorted ≡ₚ chunks) by apply Array_sort_perm.
  destruct (downloadFileByChunks_loop fid sorted [] w) as [[bufs|e] w1] eqn:El;
    apply downloadFileByChunks_loop_requests in El as (new & Hs & Hreq & Herr & Hok);
    intros [= <- <-]; split; try done.
  - intros _. destruct (Hok eq_refl) as [Hall _]. by rewrite <- Hperm.
  - intros e' [= <-]. destruct (Herr e eq_refl) as (Hname & c & Hin & Hmsg).
    split; [done|]. exists c. by rewrite <- Hperm.
Qed.
End DownloadFacts.

(** * The route handlers *)

Section RouteFacts.
Context `{C : CryptoLib} `{P : Platform}.

(** A handler whose [catch] replies always replies. *)
Lemma route_replies (m : Async HttpReply) w r w' :
  try_catch m (fun error => ret (json 500 (BodyError (err_message error)))) w = (r, w') ->
  (exists reply, m w = (Ok reply, w') /\ r = Ok reply) \/
  (exists e, m w = (Throw e, w') /\ r = Ok (json 500 (BodyError (err_message e)))).
Proof.
  unfold try_catch. destruct (m w) as [[reply|e] w1]; intros [= <- <-]; eauto.
Qed.

(** X10. The upload route always answers, with 200, 400 or 500.  Without a
    file in the form it answers 400 and nothing is sent to Telegram; a 200
    carries the result of [uploadFile] on the bytes of the file, called
    with the signal of the request; a 500 carries the message of the error.
    Whatever the answer, everything the route has sent is a document of at
    most [CHUNK_SIZE + 16] bytes. *)
Theorem upload_POST_replies formData signal w r w' :
  CryptoLaws C ->
  upload_POST formData signal w = (r, w') ->
  exists reply,
    r = Ok reply /\
    (exists new, sent w' = sent w ++ new /\ Forall upload_document new) /\
    ((http_status reply = 400 /\ http_body reply = BodyError "No file provided" /\
      w' = w /\
      exists form, formData = Ok form /\
                   forall bytes name, form "file" <> Some (FormFile bytes name)) \/
     (http_status reply = 200 /\
      exists form bytes name filename result,
        formData = Ok form /\ form "file" = Some (FormFile bytes name) /\
        uploadFile bytes filename (Some signal) w = (Ok result, w') /\
        http_body reply = BodyUpload result) \/
     (http_status reply = 500 /\
      exists e, http_body reply = BodyError (err_message e) /\
                (formData = Throw e \/
                 exists bytes filename,
                   uploadFile bytes filename (Some signal) w = (Throw e, w')))).
Proof.
  intros L Hrun. unfold upload_POST in Hrun.
  apply route_replies in Hrun as [(reply & Hm & ->)|(e & Hm & ->)];
    unfold bind at 1, settled_with in Hm; destruct formData as [form|e0].
  - destruct (form "file") as [[s|bytes name]|] eqn:Hfile.
    + injection Hm as <- <-. eexists. split; [done|].
      split; [exists []; by rewrite app_nil_r|]. left. cbn.
      split; [done|]. split; [done|]. split; [done|]. exists form. split; [done|].
      intros bytes name. by rewrite Hfile.
    + unfold bind in Hm.
      destruct (uploadFile bytes _ (Some signal) w) as [[result|e] w1] eqn:Eu;
        [|discriminate].
      injection Hm as <- <-. eexists. split; [done|].
      split; [exact (uploadFile_documents_any L _ _ _ _ _ _ Eu)|]. right; left. cbn.
      split; [done|]. exists form, bytes, name. eexists _, result.
      split; [done|]. split; [done|]. split; [exact Eu|done].
    + injection Hm as <- <-. eexists. split; [done|].
      split; [exists []; by rewrite app_nil_r|]. left. cbn.
      split; [done|]. split; [done|]. split; [done|]. exists form. split; [done|].
      intros bytes name. by rewrite Hfile.
  - discriminate.
  - destruct (form "file") as [[s|bytes name]|] eqn:Hfile; try discriminate.
    unfold bind in Hm.
    destruct (uploadFile bytes _ (Some signal) w) as [[result|e1] w1] eqn:Eu;
      [discriminate|].
    injection Hm as <- <-. eexists. split; [done|].
    split; [exact (uploadFile_documents_any L _ _ _ _ _ _ Eu)|]. right; right. cbn.
    split; [done|]. exists e1. split; [done|]. right. exists bytes. eexists. exact Eu.
  - injection Hm as <- <-. eexists. split; [done|].
    split; [exists []; by rewrite app_nil_r|]. right; right. cbn.
    split; [done|]. exists e0. split; [done|]. by left.
Qed.
End RouteFacts.

Section ChunkRouteFacts.
Context `{C : CryptoLib} `{P : Platform}.
Variable Number_ : string -> Z.

(** X11. The chunk route always answers.  A form that lacks a field, or
    whose chunk is longer than [CHUNK_SIZE], is answered with 400 and
    nothing is sent to Telegram; whatever the route sends is a document of at
    most [CHUNK_SIZE + 16] bytes; and a 200 carries a descriptor for which a
    document was sent. *)
Theorem upload_chunk_POST_limits formData w r w' :
  CryptoLaws C ->
  upload_chunk_POST Number_ formData w = (r, w') ->
  exists reply,
    r = Ok reply /\
    (exists new, sent w' = sent w ++ new /\ Forall upload_document new) /\
    (http_status reply = 400 -> w' = w) /\
    (forall form bytes name,
       formData = Ok form -> form "chunk" = Some (FormFile bytes name) ->
       CHUNK_SIZE < buffer_length bytes -> http_status reply = 400) /\
    (forall form, formData = Ok form ->
       (exists x, x ∈ ["fileId"; "chunkIndex"; "totalChunks"; "filename"; "chunk"] /\
                  form x = None) ->
       http_status reply = 400) /\
    (http_status reply = 200 ->
     exists c, http_body reply = BodyChunk c /\ sent w' <> sent w).
Proof.
  intros L Hrun. unfold upload_chunk_POST in Hrun.
  assert (Hnone : exists new, sent w = sent w ++ new /\ Forall upload_document new)
    by (exists []; by rewrite app_nil_r).
  apply route_replies in Hrun as [(reply & Hm & ->)|(e & Hm & ->)];
    unfold bind at 1, settled_with in Hm; destruct formData as [form|e0];
    try discriminate.
  - destruct (form "fileId") as [[fid|? ?]|] eqn:H1;
      [destruct (form "chunkIndex") as [[idx|? ?]|] eqn:H2;
       [destruct (form "totalChunks") as [[tot|? ?]|] eqn:H3;
        [destruct (form "filename") as [[fname|? ?]|] eqn:H4;
         [destruct (form "chunk") as [[?|bytes name]|] eqn:H5|..]|..]|..]|..];
      try (injection Hm as <- <-; eexists; split; [done|]; split; [done|];
           split; [done|]; split; [done|];
           split; [done|]; by intros [=]).
    destruct (Z.ltb_spec CHUNK_SIZE (buffer_length bytes)) as [Hbig|Hfit].
    + injection Hm as <- <-. eexists. split; [done|]. split; [done|].
      split; [done|]. split; [done|]. split; [done|]. by intros [=].
    + unfold bind in Hm.
      destruct (uploadChunk fid _ bytes fname None w) as [[c|e] w1] eqn:Eu;
        [|discriminate].
      injection Hm as <- <-. eexists. split; [done|].
      split; [by eapply uploadChunk_documents|].
      split; [by intros [=]|]. split.
      { intros form' bytes' name' [= <-]. rewrite H5. intros [= <- <-]. lia. }
      split.
      { intros form' [= <-] (x & Hx & Hnone'). cbn.
        repeat (apply elem_of_cons in Hx as [->|Hx]; [congruence|]).
        by apply elem_of_nil in Hx. }
      intros _. exists c. split; [done|].
      apply uploadChunk_spec in Eu as [(times & Hsent & Hne) _].
      rewrite Hsent. destruct times as [|t times]; [by destruct (Hne eq_refl)|].
      intros Heq. apply (f_equal length) in Heq. rewrite length_app in Heq.
      cbn in Heq. lia.
  - destruct (form "fileId") as [[fid|? ?]|] eqn:H1; try discriminate.
    destruct (form "chunkIndex") as [[idx|? ?]|] eqn:H2; try discriminate.
    destruct (form "totalChunks") as [[tot|? ?]|] eqn:H3; try discriminate.
    destruct (form "filename") as [[fname|? ?]|] eqn:H4; try discriminate.
    destruct (form "chunk") as [[?|bytes name]|] eqn:H5; try discriminate.
    destruct (Z.ltb_spec CHUNK_SIZE (buffer_length bytes)) as [Hbig|Hfit];
      [discriminate|].
    unfold bind in Hm.
    destruct (uploadChunk fid _ bytes fname None w) as [[c|e1] w1] eqn:Eu;
      [discriminate|].
    injection Hm as <- <-. eexists. split; [done|].
    split; [by eapply uploadChunk_documents|].
    split; [by intros [=]|]. split.
    { intros form' bytes' name' [= <-]. rewrite H5. intros [= <- <-]. lia. }
    split; [|by intros [=]].
    intros form' [= <-] (x & Hx & Hnone'). cbn.
    repeat (apply elem_of_cons in Hx as [->|Hx]; [congruence|]).
    by apply elem_of_nil in Hx.
  - injection Hm as <- <-. eexists. split; [done|]. split; [done|].
    split; [by intros [=]|]. split; [by intros ? ? ? [=]|].
    split; [by intros ? [=]|by intros [=]].
Qed.
End ChunkRouteFacts.

(** ** The routes on a backend that serves back what it was sent *)

Section FaithfulRoutes.
Context `{C : CryptoLib} (lat : N).
Let FB : Platform := faithful_backend lat.
Local Existing Instance FB.

(** Descriptors in the order of their indices, each stored on the server,
    download to the concatenation of their chunks. *)
Lemma downloadFileByChunks_stored (L : CryptoLaws C) fid chunks plains (w : World) :
  Z.of_N lat < 60000 ->
  StronglySorted (fun a b => chunkIndex a < chunkIndex b) chunks ->
  Forall2 (stored (server w) fid) chunks plains ->
  exists w',
    downloadFileByChunks fid chunks w = (Ok (concat plains), w') /\ server w' = server w.
Proof.
  intros Hlat Hsorted Hst. unfold FB in *. unfold downloadFileByChunks, bind.
  rewrite (Array_sort_id chunkIndex) by done.
  destruct (downloadFileByChunks_loop_faithful lat L fid chunks Hlat plains [] w Hst)
    as (w' & -> & Hserver).
  exists w'. by split.
Qed.

Lemma uploadFile_storage_id fileBuffer filename signal (w : World) r w' :
  uploadFile fileBuffer filename signal w = (Ok r, w') ->
  telegramStorageId r = randomUUID (uuids w).
Proof.
  unfold uploadFile, bind at 1, crypto_randomUUID. unfold bind at 1.
  destruct (buffer_length fileBuffer <=? CHUNK_SIZE).
  - unfold bind at 1. destruct (uploadChunk _ _ _ _ _ _) as [[c|e] w1]; [|done].
    by intros [= <- <-].
  - destruct (uploadFile_loop _ _ _ _ _ _ _ _ _) as [[cs|e] w1]; [|done].
    by intros [= <- <-].
Qed.

(** X12. A file sent through the upload route comes back through the
    download route.  On a backend that serves back what it was sent, with a
    request that is not aborted, the upload route answers 200 with a storage
    id and descriptors; the download route, given that id and those
    descriptors at any later time, answers 200 with the bytes of the file. *)
Theorem upload_download_routes (form : Form) bytes name signal (w : World) :
  CryptoLaws C -> Z.of_N lat < 60000 -> abort_time signal = None ->
  form "file" = Some (FormFile bytes name) ->
  exists result w1,
    upload_POST (Ok form) signal w = (Ok (json 200 (BodyUpload result)), w1) /\
    forall w2 : World,
      server w1 `prefix_of` server w2 ->
      exists reply w3,
        download_POST (Ok {| dl_fileId := Some (telegramStorageId result);
                             dl_chunks := Some (chunks result) |}) w2
          = (Ok reply, w3) /\
        http_status reply = 200 /\ http_body reply = BodyBytes bytes.
Proof.
  intros L Hlat Hs Hfile. unfold FB in *.
  unfold upload_POST, try_catch, bind at 1, settled_with. rewrite Hfile.
  set (filename := match match form "filename" with
                         | Some (FormString s) => Some s | _ => None end with
                   | Some s => js_or s name | None => name end).
  assert (Hnever : never_aborted (Some signal)).
  { unfold never_aborted. destruct signal as [[a|]]; [discriminate|done]. }
  destruct (uploadFile_faithful lat bytes filename (Some signal) w ltac:(lia) Hnever)
    as (r & w1 & plains & Hup & Hst & Hcat & Hsorted).
  exists r, w1. unfold bind at 1. rewrite Hup. split; [done|].
  intros w2 Hprefix.
  unfold download_POST, try_catch, bind at 1, settled_with.
  cbn [dl_chunks dl_fileId default].
  assert (falsy (Some (telegramStorageId r)) = false) as ->
    by (by rewrite (uploadFile_storage_id _ _ _ _ _ _ Hup)).
  destruct (downloadFileByChunks_stored L (telegramStorageId r) (chunks r) plains w2
              Hlat Hsorted) as (w3 & Hdown & _).
  { eapply Forall2_impl; [exact Hst|]. intros c p. by apply stored_mono. }
  unfold FB in Hdown. cbv beta iota zeta. unfold id, bind at 1. rewrite Hdown. eexists _, w3. split; [done|].
  cbn. by rewrite Hcat.
Qed.




End FaithfulRoutes.

Section DownloadRouteFacts.
Context `{C : CryptoLib} `{P : Platform}.

End DownloadRouteFacts.

(** * The upload manager: the buttons *)

Module ButtonFacts.
Import UploadManager UploadManagerFacts CapFacts.

(** A callback that leaves every record but the [k]-th alone is run once. *)
Lemma map_refs_one {St : Type} (f : UploadFile -> St -> UploadFile * St) :
  forall l s k u,
    l !! k = Some u ->
    (forall j v, l !! j = Some v -> j <> k -> forall s', f v s' = (v, s')) ->
    map_refs f l s = (<[k := (f u s).1]> l, (f u s).2).
Proof.
  induction l as [|v l IH]; intros s k u Hk Hid; [done|].
  destruct k as [|k]; cbn [map_refs].
  - injection Hk as ->. destruct (f u s) as [u' s1]. cbn.
    assert (Hrest : forall s', map_refs f l s' = (l, s')).
    { clear -Hid. induction l as [|x l IHl]; intros s'; [done|]. cbn.
      rewrite (Hid 1%nat x eq_refl ltac:(lia)).
      rewrite IHl; [done|]. intros j v' Hj Hne.
      destruct j as [|j]; [done|]. by apply (Hid (S (S j)) v'). }
    by rewrite Hrest.
  - rewrite (Hid 0%nat v eq_refl ltac:(lia)).
    rewrite (IH s k u Hk); [done|].
    intros j v' Hj Hne. apply (Hid (S j) v' Hj). lia.
Qed.

Lemma map_refs_none {St : Type} (f : UploadFile -> St -> UploadFile * St) :
  forall l s,
    (forall v, v ∈ l -> forall s', f v s' = (v, s')) -> map_refs f l s = (l, s).
Proof.
  induction l as [|v l IH]; intros s Hid; [done|]. cbn [map_refs].
  rewrite (Hid v) by apply list_elem_of_here.
  rewrite IH; [done|]. intros v' Hin. apply Hid. by apply list_elem_of_further.
Qed.

(** With ids that are pairwise different, the other records have another id. *)
Lemma NoDup_ids_other (m : Manager) k u j v :
  NoDup (ids m) -> uploads m !! k = Some u -> uploads m !! j = Some v -> j <> k ->
  id v <> id u.
Proof.
  intros Hnd Hk Hj Hne Heq. apply Hne.
  eapply (NoDup_lookup (ids m)); [done| |];
    unfold ids; rewrite list_lookup_fmap.
  - by rewrite Hj.
  - rewrite Hk. cbn. by rewrite Heq.
Qed.

Lemma eqb_id_ne (v : UploadFile) (i : string) : id v <> i -> String.eqb (id v) i = false.
Proof. by intros H; apply String.eqb_neq. Qed.

Lemma signal_aborted_abort (c : nat) (heap : list bool) :
  (c < length heap)%nat -> signal_aborted (Some c) (abort (Some c) heap) = true.
Proof. intros Hc. cbn. by rewrite list_lookup_insert_eq. Qed.

(** X17. With ids that are pairwise different, [pauseUpload] acts on a record
    that is uploading, and only on it: the record becomes paused, its
    controller is aborted, it gets a new controller that is not, its id leaves
    the active set, and nothing else changes.  On a record in any other state
    it does nothing at all. *)
Theorem pauseUpload_spec (m : Manager) (i : string) (k : nat) (u : UploadFile) :
  NoDup (ids m) -> uploads m !! k = Some u -> id u = i ->
  (status u = st_uploading ->
   pauseUpload i m =
     mkManager (<[k := patch_paused (length (controllers m)) u]> (uploads m))
       (activeUploads m ∖ {[i]})
       (abort (abortController u) (controllers m) ++ [false]) /\
   signal_aborted (Some (length (controllers m))) (controllers (pauseUpload i m)) = false /\
   forall c, abortController u = Some c -> (c < length (controllers m))%nat ->
             signal_aborted (Some c) (controllers (pauseUpload i m)) = true) /\
  (status u <> st_uploading -> pauseUpload i m = m).
Proof.
  intros Hnd Hk Hid. split.
  - intros Hst.
    assert (Heq : pauseUpload i m =
      mkManager (<[k := patch_paused (length (controllers m)) u]> (uploads m))
        (activeUploads m ∖ {[i]})
        (abort (abortController u) (controllers m) ++ [false])).
    { unfold pauseUpload.
      rewrite (map_refs_one (pause_fun i) (uploads m) _ k u Hk).
      - unfold pause_fun. rewrite Hid, String.eqb_refl, Hst, bool_decide_eq_true_2 by done.
        cbn. destruct (abortController u) as [c|]; cbn; by rewrite ?length_insert.
      - intros j v Hj Hne [act heap]. unfold pause_fun.
        rewrite eqb_id_ne; [done|]. rewrite <- Hid. by eapply NoDup_ids_other. }
    split; [done|]. rewrite Heq. cbn [controllers]. split.
    + cbn. rewrite lookup_app_r; destruct (abortController u) as [c|]; cbn;
        rewrite ?length_insert; try lia; by rewrite Nat.sub_diag.
    + intros c -> Hc. cbn. rewrite lookup_app_l by (by rewrite length_insert).
      by rewrite list_lookup_insert_eq.
  - intros Hst. unfold pauseUpload. rewrite map_refs_none; [by destruct m|].
    intros v Hin [act heap]. unfold pause_fun.
    destruct (String.eqb_spec (id v) i) as [Hv|Hv]; [|done].
    apply list_elem_of_lookup in Hin as (j & Hj).
    destruct (decide (j = k)) as [->|Hne].
    + rewrite Hk in Hj. injection Hj as <-. by rewrite bool_decide_eq_false_2.
    + exfalso. eapply (NoDup_ids_other m k u j v); eauto. congruence.
Qed.

(** X18. With ids that are pairwise different, [cancelUpload] marks the record
    cancelled whatever its state, aborts its controller and takes its id out
    of the active set; nothing else changes, and for an id that no record has
    nothing changes at all. *)
Theorem cancelUpload_spec (m : Manager) (i : string) :
  NoDup (ids m) ->
  (forall k u, uploads m !! k = Some u -> id u = i ->
     cancelUpload i m =
       mkManager (<[k := patch_status st_cancelled u]> (uploads m))
         (activeUploads m ∖ {[i]})
         (abort (abortController u) (controllers m)) /\
     forall c, abortController u = Some c -> (c < length (controllers m))%nat ->
               signal_aborted (Some c) (controllers (cancelUpload i m)) = true) /\
  (find_upload i (uploads m) = None -> cancelUpload i m = m).
Proof.
  intros Hnd. split.
  - intros k u Hk Hid.
    assert (Heq : cancelUpload i m =
      mkManager (<[k := patch_status st_cancelled u]> (uploads m))
        (activeUploads m ∖ {[i]}) (abort (abortController u) (controllers m))).
    { unfold cancelUpload.
      rewrite (map_refs_one (cancel_fun i) (uploads m) _ k u Hk).
      - unfold cancel_fun. by rewrite Hid, String.eqb_refl.
      - intros j v Hj Hne [act heap]. unfold cancel_fun.
        rewrite eqb_id_ne; [done|]. rewrite <- Hid. by eapply NoDup_ids_other. }
    split; [done|]. rewrite Heq. intros c -> Hc. by apply signal_aborted_abort.
  - intros Hnone. unfold cancelUpload. rewrite map_refs_none; [by destruct m|].
    intros v Hin [act heap]. unfold cancel_fun.
    destruct (String.eqb_spec (id v) i) as [Hv|Hv]; [|done].
    unfold find_upload in Hnone.
    pose proof (find_none _ _ Hnone v (proj1 (list_elem_of_In _ _) Hin)) as Hf.
    cbv beta in Hf. apply String.eqb_neq in Hf. done.
Qed.

(** X19. With ids that are pairwise different, [retryUpload] requeues a record
    in error that has failed fewer than [2 * RETRY_ATTEMPTS] times: it becomes
    pending again with its progress and its chunk counter back at zero, its
    error cleared, its retry count kept and a new controller.  A record that
    has failed [2 * RETRY_ATTEMPTS] times, or is not in error, is left as it
    is. *)
Theorem retryUpload_spec (m : Manager) (i : string) (k : nat) (u : UploadFile) :
  NoDup (ids m) -> uploads m !! k = Some u -> id u = i ->
  (status u = st_error -> retryCount_or_0 u < 2 * RETRY_ATTEMPTS ->
   retryUpload i m =
     mkManager
       (<[k := patch_retried (retryCount_or_0 u) (length (controllers m)) u]> (uploads m))
       (activeUploads m) (controllers m ++ [false]) /\
   signal_aborted (Some (length (controllers m))) (controllers (retryUpload i m)) = false) /\
  (status u <> st_error \/ 2 * RETRY_ATTEMPTS <= retryCount_or_0 u ->
   retryUpload i m = m).
Proof.
  intros Hnd Hk Hid.
  assert (Hother : forall j v, uploads m !! j = Some v -> j <> k ->
                     forall s', retry_fun i v s' = (v, s')).
  { intros j v Hj Hne heap. unfold retry_fun.
    rewrite eqb_id_ne; [done|]. rewrite <- Hid. by eapply NoDup_ids_other. }
  split.
  - intros Hst Hcount.
    assert (Heq : retryUpload i m =
      mkManager
        (<[k := patch_retried (retryCount_or_0 u) (length (controllers m)) u]> (uploads m))
        (activeUploads m) (controllers m ++ [false])).
    { unfold retryUpload.
      rewrite (map_refs_one (retry_fun i) (uploads m) _ k u Hk Hother).
      unfold retry_fun.
      rewrite Hid, String.eqb_refl, Hst, bool_decide_eq_true_2 by done. cbn [andb].
      by destruct (Z.leb_spec (RETRY_ATTEMPTS * 2) (retryCount_or_0 u)); [lia|]. }
    split; [done|]. rewrite Heq. cbn.
    by rewrite lookup_app_r, Nat.sub_diag by lia.
  - intros Hno. unfold retryUpload.
    rewrite (map_refs_one (retry_fun i) (uploads m) _ k u Hk Hother).
    assert (retry_fun i u (controllers m) = (u, controllers m)) as ->.
    { unfold retry_fun. rewrite Hid, String.eqb_refl. cbn [andb].
      destruct (bool_decide_reflect (status u = st_error)) as [Hst|Hst]; [|done].
      destruct Hno as [Hno|Hno]; [done|].
      by destruct (Z.leb_spec (RETRY_ATTEMPTS * 2) (retryCount_or_0 u)); [|lia]. }
    cbn. rewrite list_insert_id by done. by destruct m.
Qed.

Lemma filter_all (P : UploadFile -> bool) (l : list UploadFile) :
  (forall v, v ∈ l -> P v = true) -> filter P l = l.
Proof.
  induction l as [|v l IH]; intros H; [done|].
  rewrite filter_cons_True by (apply Is_true_true_2, H, list_elem_of_here).
  f_equal. apply IH. intros v' Hin. apply H. by apply list_elem_of_further.
Qed.

Lemma filter_other_ids (i : string) (l : list UploadFile) (k : nat) (u : UploadFile) :
  NoDup (map id l) -> l !! k = Some u -> id u = i ->
  filter (fun v => negb (String.eqb (id v) i)) l = delete k l.
Proof.
  revert k. induction l as [|v l IH]; intros k Hnd Hk Hid; [done|].
  change (map id (v :: l)) with (id v :: map id l) in Hnd.
  apply NoDup_cons in Hnd as [Hnot Hnd]. destruct k as [|k].
  - injection Hk as ->.
    rewrite filter_cons_False by (rewrite Hid, String.eqb_refl; by intros []).
    cbn [delete list_delete]. apply filter_all. intros v Hin.
    apply negb_true_iff, String.eqb_neq. intros Hv. apply Hnot.
    rewrite Hid, <- Hv. apply list_elem_of_fmap. by exists v.
  - assert (Hne : id v <> i).
    { intros Hv. apply Hnot. rewrite Hv, <- Hid. apply list_elem_of_fmap.
      exists u. split; [done|]. apply list_elem_of_lookup. by exists k. }
    rewrite filter_cons_True
      by (apply Is_true_true_2, negb_true_iff; by apply String.eqb_neq).
    cbn [delete list_delete]. f_equal. by apply IH.
Qed.

(** X20. With ids that are pairwise different, [removeUpload] takes the record
    with that id out of the list and keeps the others in their order, aborts
    the record's controller and takes the id out of the active set; afterwards
    no record has that id. *)
Theorem removeUpload_spec (m : Manager) (i : string) (k : nat) (u : UploadFile) :
  NoDup (ids m) -> uploads m !! k = Some u -> id u = i ->
  removeUpload i m =
    mkManager (delete k (uploads m)) (activeUploads m ∖ {[i]})
      (abort (abortController u) (controllers m)) /\
  find_upload i (uploads (removeUpload i m)) = None /\
  (forall c, abortController u = Some c -> (c < length (controllers m))%nat ->
             signal_aborted (Some c) (controllers (removeUpload i m)) = true).
Proof.
  intros Hnd Hk Hid.
  assert (Hfind : find_upload i (uploads m) = Some u).
  { apply find_upload_Some. exists k. split; [done|]. split; [done|].
    intros j v Hlt Hj Hv. eapply (NoDup_ids_other m k u j v); eauto; [lia|congruence]. }
  assert (Heq : removeUpload i m =
    mkManager (delete k (uploads m)) (activeUploads m ∖ {[i]})
      (abort (abortController u) (controllers m))).
  { unfold removeUpload. rewrite Hfind. by rewrite (filter_other_ids i _ k u). }
  split; [done|]. split.
  - unfold removeUpload. cbn [uploads]. unfold find_upload.
    destruct (List.find _ _) as [v|] eqn:Hv; [|done].
    apply find_some in Hv as [Hin Hv]. apply list_elem_of_In in Hin.
    apply list_elem_of_filter in Hin as [Hin _]. by rewrite Hv in Hin.
  - rewrite Heq. intros c -> Hc. by apply signal_aborted_abort.
Qed.

Lemma foldl_abort_length (l : list UploadFile) (heap : list bool) :
  length (foldl (fun heap u => abort (abortController u) heap) heap l) = length heap.
Proof.
  revert heap. induction l as [|u l IH]; intros heap; [done|]. cbn [foldl].
  rewrite IH. destruct (abortController u); cbn [abort]; [by rewrite length_insert|done].
Qed.

Lemma foldl_abort_lookup (l : list UploadFile) (heap : list bool) (c : nat) (b : bool) :
  heap !! c = Some b ->
  foldl (fun heap u => abort (abortController u) heap) heap l !! c
  = Some (b || bool_decide (Some c ∈ map abortController l)).
Proof.
  revert heap b. induction l as [|u l IH]; intros heap b Hc.
  - cbn. rewrite bool_decide_eq_false_2 by apply not_elem_of_nil.
    by rewrite orb_false_r.
  - cbn [foldl]. destruct (abortController u) as [c'|] eqn:Hu; cbn [abort].
    + destruct (decide (c' = c)) as [->|Hne].
      * rewrite (IH _ true) by (apply list_lookup_insert_eq; by eapply lookup_lt_Some).
        cbn [map]. rewrite Hu.
        rewrite (bool_decide_eq_true_2 (Some c ∈ Some c :: _)) by apply list_elem_of_here.
        by rewrite orb_true_r.
      * rewrite (IH _ b) by (by rewrite list_lookup_insert_ne). f_equal. f_equal.
        cbn [map]. rewrite Hu. apply bool_decide_ext.
        rewrite elem_of_cons. naive_solver.
    + rewrite (IH _ b Hc). f_equal. f_equal. cbn [map]. rewrite Hu.
      apply bool_decide_ext. rewrite elem_of_cons. naive_solver.
Qed.

(** X21. [clearAll] empties the list and aborts exactly the controllers
    that some record holds: a controller is aborted afterwards if and only if
    it was aborted before or a record referred to it.  The set of active ids
    is left as it was. *)
Theorem clearAll_spec (m : Manager) :
  uploads (clearAll m) = [] /\
  activeUploads (clearAll m) = activeUploads m /\
  length (controllers (clearAll m)) = length (controllers m) /\
  forall c, (c < length (controllers m))%nat ->
    signal_aborted (Some c) (controllers (clearAll m))
    = signal_aborted (Some c) (controllers m)
      || bool_decide (Some c ∈ map abortController (uploads m)).
Proof.
  unfold clearAll. cbn [uploads activeUploads controllers].
  split; [done|]. split; [done|]. split; [apply foldl_abort_length|].
  intros c Hc. apply lookup_lt_is_Some in Hc as [b Hb].
  cbn [signal_aborted]. by rewrite (foldl_abort_lookup _ _ c b Hb), Hb.
Qed.

End ButtonFacts.

Module RunFacts.
Import UploadManager UploadManagerFacts CapFacts.

Lemma chunk_requests_app (j : Z) (l1 l2 : list Call) :
  chunk_requests j (l1 ++ l2) = (chunk_requests j l1 + chunk_requests j l2)%nat.
Proof. unfold chunk_requests. by rewrite filter_app, length_app. Qed.

Lemma chunk_requests_one (j : Z) (i : string) (k s e : Z) :
  chunk_requests j [CallChunk i k s e] = if k =? j then 1%nat else 0%nat.
Proof.
  unfold chunk_requests. rewrite filter_cons, filter_nil. cbn [requests_chunk].
  destruct (Z.eqb_spec k j) as [->|Hne].
  - by rewrite decide_True by (by rewrite bool_decide_eq_true_2).
  - rewrite decide_False; [done|]. intros H. by apply (bool_decide_unpack (k = j)) in H.
Qed.

Lemma chunk_requests_record (j : Z) (i : string) (sid : option string) cs :
  chunk_requests j [CallRecord i sid cs] = 0%nat.
Proof.
  unfold chunk_requests. rewrite filter_cons, filter_nil. cbn [requests_chunk].
  by rewrite decide_False by (by intros []).
Qed.

Lemma chunk_requests_image (j : Z) (i : string) :
  chunk_requests j [CallImage i] = 0%nat.
Proof.
  unfold chunk_requests. rewrite filter_cons, filter_nil. cbn [requests_chunk].
  by rewrite decide_False by (by intros []).
Qed.

Lemma chunk_requests_nil (j : Z) : chunk_requests j [] = 0%nat.
Proof. done. Qed.

Ltac no_requests :=
  cbn [set_phase p_phase requests_left retry_in_range];
  rewrite ?chunk_requests_record, ?chunk_requests_image, ?chunk_requests_nil;
  (split; [done|lia]).

Lemma enter_loop_budget (j : Z) p i chunks ub m m' p' calls :
  enter_loop p i chunks ub m = (m', p', calls) ->
  retry_in_range (p_phase p') /\
  (chunk_requests j calls + requests_left j (p_phase p')
   <= if (j <? i)%Z then 0 else S (Z.to_nat RETRY_ATTEMPTS))%nat.
Proof.
  unfold enter_loop. destruct (i <? _).
  - destruct (signal_aborted _ _); intros [= <- <- <-]; cbn [set_phase p_phase].
    + split; [done|]. cbn. destruct (j <? i); lia.
    + split; [cbn; lia|]. rewrite chunk_requests_one. cbn [requests_left].
      destruct (Z.ltb_spec j i), (Z.eqb_spec i j), (Z.eqb_spec j i);
        try lia; cbn; lia.
  - intros [= <- <- <-]. cbn [set_phase p_phase requests_left retry_in_range].
    rewrite chunk_requests_record. split; [done|]. destruct (j <? i); lia.
Qed.

Lemma proc_step_budget (j : Z) p input t m m' p' calls :
  retry_in_range (p_phase p) ->
  proc_step p input t m = (m', p', calls) ->
  retry_in_range (p_phase p') /\
  (chunk_requests j calls + requests_left j (p_phase p')
   <= requests_left j (p_phase p))%nat.
Proof.
  intros Hr. unfold proc_step.
  destruct (p_phase p) as [|i r chunks ub|i r chunks ub| |] eqn:Eph;
    destruct input as [reply| |reply|res];
    try (intros [= <- <- <-]; rewrite Eph, chunk_requests_nil; split; [done|lia]).
  - destruct (uploadImageDirect_settle reply); intros [= <- <- <-]; no_requests.
  - assert (Hfail : forall e,
      (if (r <? RETRY_ATTEMPTS)
          && negb (signal_aborted (abortController (p_upload p)) (controllers m))
       then (m, set_phase (AwaitChunkSleep i r chunks ub) p, [])
       else (processUpload_catch p e m, set_phase Finished p, [])) = (m', p', calls) ->
      retry_in_range (p_phase p') /\
      (chunk_requests j calls + requests_left j (p_phase p')
       <= requests_left j (AwaitChunkFetch i r chunks ub))%nat).
    { intros e. destruct (Z.ltb_spec r RETRY_ATTEMPTS); cbn [andb];
        [destruct (negb _)|]; intros [= <- <- <-]; cbn [set_phase p_phase].
      - split; [cbn in *; lia|]. cbn. lia.
      - split; [done|]. cbn. lia.
      - split; [done|]. cbn. lia. }
    destruct reply as [[] chunk|errorText|e]; try apply Hfail.
    intros Hrun. apply (enter_loop_budget j) in Hrun as [Hr' Hb].
    split; [done|]. etrans; [exact Hb|]. cbn [requests_left].
    destruct (Z.ltb_spec j (i + 1)), (Z.ltb_spec j i), (Z.eqb_spec j i); lia.
  - intros [= <- <- <-]. cbn [set_phase p_phase]. cbn in Hr.
    split; [cbn; lia|]. rewrite chunk_requests_one. cbn [requests_left].
    unfold RETRY_ATTEMPTS in *.
    destruct (Z.ltb_spec j i), (Z.eqb_spec i j), (Z.eqb_spec j i); lia.
  - destruct res; intros [= <- <- <-]; no_requests.
Qed.

Lemma proc_run_budget (j : Z) inputs :
  forall p m m' p' calls,
    retry_in_range (p_phase p) ->
    proc_run p inputs m = (m', p', calls) ->
    (chunk_requests j calls <= requests_left j (p_phase p))%nat.
Proof.
  induction inputs as [|[[others input] t] rest IH]; intros p m m' p' calls Hr;
    cbn [proc_run].
  - intros [= <- <- <-]. cbn. lia.
  - destruct (proc_step p input t (others m)) as [[m1 p1] calls1] eqn:E1.
    destruct (proc_run p1 rest m1) as [[m2 p2] calls2] eqn:E2.
    intros [= <- <- <-].
    apply (proc_step_budget j) in E1 as [Hr1 Hb1]; [|done].
    apply IH in E2; [|done]. rewrite chunk_requests_app. lia.
Qed.

(** X22. Within one call of [processUpload], whatever happens to the
    manager in between and however the requests settle, no chunk is
    requested more than [RETRY_ATTEMPTS + 1] times. *)
Theorem chunk_request_budget (i : string) (t : Z) (m m1 : Manager) (p : Process)
    (calls0 : list Call) (inputs : list ((Manager -> Manager) * Input * Z))
    (m2 : Manager) (p2 : Process) (calls : list Call) (j : Z) :
  processUpload_start i t m = (m1, Some p, calls0) ->
  proc_run p inputs m1 = (m2, p2, calls) ->
  (chunk_requests j (calls0 ++ calls) <= Z.to_nat (RETRY_ATTEMPTS + 1))%nat.
Proof.
  intros Hstart Hrun.
  assert (Hp : retry_in_range (p_phase p) /\
               (chunk_requests j calls0 + requests_left j (p_phase p)
                <= S (Z.to_nat RETRY_ATTEMPTS))%nat).
  { revert Hstart. unfold processUpload_start.
    destruct (negb (canStartUpload m)); [discriminate|].
    destruct (find_upload i (uploads m)) as [cu|]; [|discriminate].
    destruct (negb (bool_decide _)); [discriminate|].
    destruct (String.prefix "image/" (type cu)).
    - destruct (signal_aborted _ _); intros [= <- <- <-]; no_requests.
    - destruct (enter_loop _ _ _ _ _) as [[m' p'] calls'] eqn:E.
      intros [= <- <- <-]. apply (enter_loop_budget j) in E as [Hr Hb].
      split; [done|]. etrans; [exact Hb|]. destruct (j <? _); lia. }
  destruct Hp as [Hr Hb]. apply (proc_run_budget j) in Hrun; [|done].
  rewrite chunk_requests_app. unfold RETRY_ATTEMPTS in *. lia.
Qed.


(** ** A run that nothing interrupts *)

Lemma updateUpload_compose (i : string) (f g : UploadFile -> UploadFile) (m : Manager) :
  (forall v, id (g v) = id v) ->
  updateUpload i f (updateUpload i g m) = updateUpload i (fun v => f (g v)) m.
Proof.
  intros Hg. unfold updateUpload. cbn [uploads activeUploads controllers].
  f_equal. rewrite map_map. apply map_ext. intros v.
  destruct (String.eqb_spec (id v) i) as [Hv|Hv].
  - by rewrite Hg, Hv, String.eqb_refl.
  - by apply String.eqb_neq in Hv as ->.
Qed.

Lemma find_upload_updateUpload (i : string) (f : UploadFile -> UploadFile)
    (m : Manager) (u : UploadFile) :
  (forall v, id (f v) = id v) ->
  find_upload i (uploads m) = Some u ->
  find_upload i (uploads (updateUpload i f m)) = Some (f u).
Proof.
  intros Hf. unfold updateUpload, find_upload. cbn [uploads].
  induction (uploads m) as [|v l IH]; [done|]. cbn [map List.find].
  destruct (String.eqb_spec (id v) i) as [Hv|Hv].
  - intros [= ->]. by rewrite Hf, Hv, String.eqb_refl.
  - intros Hl. apply String.eqb_neq in Hv. rewrite Hv. by apply IH.
Qed.

Lemma all_stored_cons (c : TelegramChunk) (rest : list TelegramChunk) (times : nat -> Z) :
  all_stored (c :: rest) times =
  (fun m : Manager => m, ChunkFetched (ReplyOk true c), times 0%nat)
    :: all_stored rest (fun k => times (S k)).
Proof. done. Qed.

Section Uninterrupted.
Variable u : UploadFile.

Lemma enter_loop_all_stored (stored : list TelegramChunk) :
  forall times p i pre ub m,
    p_upload p = u ->
    signal_aborted (abortController u) (controllers m) = false ->
    length pre = Z.to_nat i -> 0 <= i ->
    i + Z.of_nat (length stored) = ceil_div (size u) CHUNK_SIZE ->
    exists m1 p1 calls1 m2 p2 calls2 f,
      enter_loop p i (pre ++ replicate (length stored) None) ub m = (m1, p1, calls1) /\
      proc_run p1 (all_stored stored times) m1 = (m2, p2, calls2) /\
      p_phase p2 = AwaitRecord /\
      calls1 ++ calls2 =
        map (chunk_call u) (seqZ i (Z.of_nat (length stored))) ++
        [CallRecord (id u) (fileId u) (pre ++ map Some stored)] /\
      m2 = updateUpload (id u) f m /\ through u (length stored) f.
Proof.
  induction stored as [|c rest IH]; intros times p i pre ub m Hp Hsig Hpre Hi Htot.
  - cbn [length] in Htot. unfold enter_loop. rewrite Hp.
    destruct (Z.ltb_spec i (ceil_div (size u) CHUNK_SIZE)) as [Hlt|_]; [lia|].
    eexists _, _, _, _, _, _, (patch_completed (fileId u)).
    split; [done|]. split; [done|]. split; [done|].
    cbn [length replicate map seqZ]. rewrite !app_nil_r.
    split; [done|]. split; [done|]. by intros v.
  - cbn [length] in Htot.
    unfold enter_loop at 1. rewrite Hp.
    destruct (Z.ltb_spec i (ceil_div (size u) CHUNK_SIZE)) as [Hlt|Hge]; [|lia].
    rewrite Hsig. rewrite all_stored_cons.
    set (p1 := set_phase
                 (AwaitChunkFetch i 0 (pre ++ replicate (length (c :: rest)) None) ub) p).
    set (ub' := ub + blob_size (file u) (i * CHUNK_SIZE)
                       (Z.min (i * CHUNK_SIZE + CHUNK_SIZE) (size u))).
    set (g := patch_chunk_done (i + 1)
                (calculateProgress (i + 1) (ceil_div (size u) CHUNK_SIZE))
                (calculateUploadSpeed ub' (times 0%nat - p_startTime p))
                (estimateTimeRemaining (size u - ub')
                   (calculateUploadSpeed ub' (times 0%nat - p_startTime p)))
                ((pre ++ [Some c]) ++ replicate (length rest) None)).
    assert (Hcs : <[Z.to_nat i := Some c]> (pre ++ replicate (length (c :: rest)) None)
                  = (pre ++ [Some c]) ++ replicate (length rest) None).
    { cbn [length replicate]. rewrite <- Hpre.
      rewrite insert_app_r_alt by lia. rewrite Nat.sub_diag. cbn.
      by rewrite <- app_assoc. }
    assert (Hstep : proc_step p1 (ChunkFetched (ReplyOk true c)) (times 0%nat) m
                    = enter_loop p1 (i + 1)
                        ((pre ++ [Some c]) ++ replicate (length rest) None) ub'
                        (updateUpload (id u) g m)).
    { unfold proc_step, p1. cbn [set_phase p_phase p_upload p_startTime].
      rewrite Hp, Hcs. done. }
    destruct (IH (fun k => times (S k)) p1 (i + 1) (pre ++ [Some c]) ub'
                (updateUpload (id u) g m))
      as (m1 & p1' & calls1 & m2 & p2 & calls2 & f & He & Hr & Hph & Hcalls & Hm & Hf).
    { done. }
    { done. }
    { rewrite length_app. cbn [length]. lia. }
    { lia. }
    { lia. }
    exists m, p1, [chunk_call u i], m2, p2, (calls1 ++ calls2), (fun v => f (g v)).
    split; [done|]. split; [|split; [done|split; [|split]]].
    + cbn [proc_run]. by rewrite Hstep, He, Hr.
    + cbn [app]. rewrite Hcalls.
      replace (Z.of_nat (length (c :: rest))) with (Z.succ (Z.of_nat (length rest)))
        by (cbn [length]; lia).
      rewrite (seqZ_cons i) by lia. cbn [map app].
      replace (Z.succ i) with (i + 1) by lia.
      replace (Z.pred (Z.succ (Z.of_nat (length rest)))) with (Z.of_nat (length rest))
        by lia.
      f_equal. f_equal. by rewrite <- app_assoc.
    + rewrite Hm. by rewrite updateUpload_compose.
    + intros v. destruct (Hf (g v)) as (H1 & H2 & H3 & H4 & H5 & H6).
      split; [exact H1|]. split; [exact H2|]. split; [exact H3|]. split; [exact H4|].
      split; [exact H5|].
      cbn [length]. rewrite H6. destruct (length rest) eqn:El; [|done].
      unfold g. cbn [patch_chunk_done currentChunk]. lia.
Qed.
End Uninterrupted.

(** X23. A record that is not an image, pending, with a controller that is not
    aborted, started with a free slot and then left alone while every chunk
    request succeeds: the run requests the chunks from [currentChunk] up to
    the last, each once and in order, and then the file record; the record is
    marked completed with progress 100 and still holds its slot while the file
    record is being created.  The chunk list sent with the file record holds
    the chunks of this run only: the places before [currentChunk] are holes.
    *)
Theorem uninterrupted_run (m : Manager) (u : UploadFile) (t : Z)
    (stored : list TelegramChunk) (times : nat -> Z) :
  canStartUpload m = true ->
  find_upload (id u) (uploads m) = Some u ->
  status u = st_pending ->
  String.prefix "image/" (type u) = false ->
  signal_aborted (abortController u) (controllers m) = false ->
  0 <= currentChunk u ->
  currentChunk u + Z.of_nat (length stored) = ceil_div (size u) CHUNK_SIZE ->
  exists m1 p calls0 m2 p2 calls u2,
    processUpload_start (id u) t m = (m1, Some p, calls0) /\
    proc_run p (all_stored stored times) m1 = (m2, p2, calls) /\
    p_phase p2 = AwaitRecord /\
    calls0 ++ calls =
      map (chunk_call u) (seqZ (currentChunk u) (Z.of_nat (length stored))) ++
      [CallRecord (id u) (fileId u)
         (replicate (Z.to_nat (currentChunk u)) None ++ map Some stored)] /\
    find_upload (id u) (uploads m2) = Some u2 /\
    status u2 = st_completed /\ progress u2 = 100%Q /\
    telegramStorageId u2 = fileId u /\
    currentChunk u2 = ceil_div (size u) CHUNK_SIZE /\
    totalChunks u2 = ceil_div (size u) CHUNK_SIZE /\
    id u ∈ activeUploads m2.
Proof.
  intros Hcan Hfind Hst Himg Hsig Hcur Htot.
  unfold processUpload_start.
  rewrite Hcan, Hfind, Hst, Himg. cbn [negb].
  rewrite bool_decide_eq_true_2 by done. cbn [negb].
  assert (Hrep : replicate (Z.to_nat (ceil_div (size u) CHUNK_SIZE)) (@None TelegramChunk)
                 = replicate (Z.to_nat (currentChunk u)) None
                   ++ replicate (length stored) None).
  { rewrite <- replicate_add. f_equal. lia. }
  rewrite Hrep.
  match goal with
  | |- context [enter_loop ?p' ?i' _ ?ub' ?m'] =>
      destruct (enter_loop_all_stored u stored times p' i'
                  (replicate (Z.to_nat (currentChunk u)) None) ub' m')
        as (m1 & p1 & calls1 & m2 & p2 & calls2 & f & He & Hr & Hph & Hcalls & Hm & Hf)
  end.
  - done.
  - done.
  - by rewrite length_replicate.
  - done.
  - done.
  - rewrite He.
    exists m1, p1, calls1, m2, p2, calls2,
      (f (patch_totalChunks (ceil_div (size u) CHUNK_SIZE) (patch_start u))).
    split; [done|]. split; [done|]. split; [done|]. split; [done|].
    destruct (Hf (patch_totalChunks (ceil_div (size u) CHUNK_SIZE) (patch_start u)))
      as (H1 & H2 & H3 & H4 & H5 & H6).
    split.
    { rewrite Hm. apply find_upload_updateUpload; [intros v; apply Hf|].
      apply find_upload_updateUpload; [done|].
      apply find_upload_updateUpload; [done|]. done. }
    split; [done|]. split; [done|]. split; [done|]. split; [|split].
    + rewrite H6. destruct (length stored) eqn:El; [|done].
      cbn [patch_totalChunks patch_start currentChunk]. lia.
    + by rewrite H5.
    + rewrite Hm. cbn. set_solver.
Qed.


(** ** Cancelling a record that is being uploaded *)

Lemma cancel_map (i : string) (l : list UploadFile) :
  forall act heap,
    exists act',
      map_refs (cancel_fun i) l (act, heap) =
      (map (fun v => if String.eqb (id v) i then patch_status st_cancelled v else v) l,
       (act',
        foldl (fun heap v => abort (abortController v) heap) heap
          (filter (fun v => String.eqb (id v) i) l))).
Proof.
  induction l as [|v l IH]; intros act heap; [by exists act|].
  cbn [map_refs map]. unfold cancel_fun at 1. rewrite filter_cons.
  destruct (String.eqb (id v) i).
  - destruct (IH (act ∖ {[i]}) (abort (abortController v) heap)) as [act' ->].
    exists act'. by rewrite decide_True by done.
  - destruct (IH act heap) as [act' ->].
    exists act'. by rewrite decide_False by (by intros []).
Qed.

Lemma cancelUpload_aborts (i : string) (m : Manager) (v : UploadFile) (c : nat) :
  v ∈ uploads m -> id v = i -> abortController v = Some c ->
  (c < length (controllers m))%nat ->
  signal_aborted (Some c) (controllers (cancelUpload i m)) = true.
Proof.
  intros Hin Hid Hc Hlt. unfold cancelUpload.
  destruct (cancel_map i (uploads m) (activeUploads m) (controllers m)) as [act' ->].
  cbn [controllers signal_aborted].
  apply lookup_lt_is_Some in Hlt as [b Hb].
  rewrite (ButtonFacts.foldl_abort_lookup _ _ c b Hb). cbn [default].
  rewrite bool_decide_eq_true_2; [by rewrite orb_true_r|].
  rewrite <- Hc. apply list_elem_of_fmap. exists v. split; [done|].
  apply list_elem_of_filter. split; [|done]. rewrite Hid. by rewrite String.eqb_refl.
Qed.

Lemma cancelUpload_uploads (i : string) (m : Manager) :
  uploads (cancelUpload i m) =
  map (fun v => if String.eqb (id v) i then patch_status st_cancelled v else v) (uploads m).
Proof.
  unfold cancelUpload.
  by destruct (cancel_map i (uploads m) (activeUploads m) (controllers m)) as [act' ->].
Qed.

Lemma rejected_by_abort_inv (calls : list Call) (input : Input) :
  rejected_by_abort calls input ->
  exists e, err_name e = "AbortError" /\
    (input = ChunkFetched (ReplyThrows e) \/
     exists code, input = ImageSettled (ImgThrows e code)).
Proof.
  destruct calls as [|[] []]; try done.
  - destruct input as [| |[]|]; try done. intros H. eexists. split; [exact H|].
    right. by eexists.
  - destruct input as [[]| | |]; try done. intros H. eexists. split; [exact H|].
    by left.
Qed.

(** What a call of [processUpload] that has issued its first request knows
    and has done. *)
Lemma processUpload_start_requested i t m m1 p calls0 input :
  processUpload_start i t m = (m1, Some p, calls0) ->
  rejected_by_abort calls0 input ->
  find_upload i (uploads m) = Some (p_upload p) /\
  status (p_upload p) = st_pending /\
  p_snapshot p = uploads m /\
  controllers m1 = controllers m /\
  (exists f, (forall v, id (f v) = id v /\ abortController (f v) = abortController v) /\
             uploads m1 = uploads (updateUpload i f m)) /\
  match input with
  | ChunkFetched _ => exists j chunks ub, p_phase p = AwaitChunkFetch j 0 chunks ub
  | ImageSettled _ => p_phase p = AwaitImage
  | _ => False
  end.
Proof.
  unfold processUpload_start.
  destruct (negb (canStartUpload m)); [discriminate|].
  destruct (find_upload i (uploads m)) as [cu|] eqn:Hfind; [|discriminate].
  destruct (bool_decide_reflect (status cu = st_pending)) as [Hst|Hst];
    cbn [negb]; [|discriminate].
  pose proof (find_upload_id _ _ _ Hfind) as Hid. rewrite Hid.
  destruct (String.prefix "image/" (type cu)).
  - destruct (signal_aborted _ _); intros [= <- <- <-]; [done|].
    intros Hrej. cbn [set_phase p_upload p_snapshot p_phase].
    split; [done|]. split; [done|]. split; [done|]. split; [done|]. split.
    + exists patch_start. split; [done|]. done.
    + by destruct input as [| |[]|].
  - unfold enter_loop. cbn [p_upload].
    destruct (_ <? _); [destruct (signal_aborted _ _)|]; intros [= <- <- <-]; [done| |].
    + intros Hrej. cbn [set_phase p_upload p_snapshot p_phase].
      split; [done|]. split; [done|]. split; [done|]. split; [done|]. split.
      * exists (fun v => patch_totalChunks (ceil_div (size cu) CHUNK_SIZE) (patch_start v)).
        split; [done|]. by rewrite updateUpload_compose by done.
      * destruct input as [[]| | |]; try done; by eexists _, _, _.
    + by intros [].
Qed.

(** X24. A record that is cancelled while a call of [processUpload] waits for
    its first request, of a chunk or of the image, does not stay cancelled:
    when the request is rejected because the signal was aborted, the call
    marks the record paused, since it looks the status up in the list of
    records it captured when it started.  The call ends there and gives its
    slot back. *)
Theorem cancelled_run_ends_paused (i : string) (t t' : Z) (m m1 m3 : Manager)
    (p p3 : Process) (calls0 calls3 : list Call) (input : Input) (c : nat) :
  processUpload_start i t m = (m1, Some p, calls0) ->
  rejected_by_abort calls0 input ->
  abortController (p_upload p) = Some c -> (c < length (controllers m))%nat ->
  proc_step p input t' (cancelUpload i m1) = (m3, p3, calls3) ->
  (forall v, v ∈ uploads (cancelUpload i m1) -> id v = i -> status v = st_cancelled) /\
  (forall v, v ∈ uploads m3 -> id v = i -> status v = st_paused) /\
  (exists v, v ∈ uploads m3 /\ id v = i) /\
  p_phase p3 = Finished /\ calls3 = [] /\ i ∉ activeUploads m3.
Proof.
  intros Hstart Hrej Hc Hlt.
  destruct (processUpload_start_requested _ _ _ _ _ _ _ Hstart Hrej)
    as (Hfind & Hst & Hsnap & Hheap & (f & Hf & Hups) & Hph).
  pose proof (find_upload_id _ _ _ Hfind) as Hid.
  assert (Hin : p_upload p ∈ uploads m).
  { apply find_upload_Some in Hfind as (k & Hk & _). apply list_elem_of_lookup. by exists k. }
  assert (Hab : signal_aborted (abortController (p_upload p))
                  (controllers (cancelUpload i m1)) = true).
  { rewrite Hc. apply (cancelUpload_aborts i m1 (f (p_upload p)) c).
    - rewrite Hups. unfold updateUpload. cbn [uploads].
      apply list_elem_of_fmap. exists (p_upload p). split; [|done].
      by rewrite Hid, String.eqb_refl.
    - by rewrite (proj1 (Hf _)).
    - by rewrite (proj2 (Hf _)).
    - by rewrite Hheap. }
  assert (Hcatch : forall e, isAborted e = true ->
    processUpload_catch p e (cancelUpload i m1) =
    removeFromActive i (updateUpload i (patch_status st_paused) (cancelUpload i m1))).
  { intros e He. unfold processUpload_catch. rewrite He, Hid, Hsnap, Hfind.
    by rewrite bool_decide_eq_false_2 by (by rewrite Hst). }
  assert (Hend : forall e, isAborted e = true ->
    (processUpload_catch p e (cancelUpload i m1), set_phase Finished p, @nil Call)
    = (m3, p3, calls3) ->
    (forall v, v ∈ uploads (cancelUpload i m1) -> id v = i -> status v = st_cancelled) /\
    (forall v, v ∈ uploads m3 -> id v = i -> status v = st_paused) /\
    (exists v, v ∈ uploads m3 /\ id v = i) /\
    p_phase p3 = Finished /\ calls3 = [] /\ i ∉ activeUploads m3).
  { intros e He. rewrite (Hcatch e He). intros [= <- <- <-].
    split; [|split; [|split; [|split; [done|split; [done|]]]]].
    - intros v Hv Hidv. rewrite cancelUpload_uploads in Hv.
      apply list_elem_of_fmap in Hv as (v0 & -> & _).
      destruct (String.eqb_spec (id v0) i) as [_|Hne]; [done|]. by destruct Hne.
    - intros v Hv Hidv. cbn [removeFromActive updateUpload uploads] in Hv.
      apply list_elem_of_fmap in Hv as (v0 & -> & _).
      destruct (String.eqb_spec (id v0) i) as [_|Hne]; [done|]. by destruct Hne.
    - exists (patch_status st_paused (patch_status st_cancelled (f (p_upload p)))).
      split; [|by cbn; rewrite (proj1 (Hf _))].
      cbn [removeFromActive updateUpload uploads]. rewrite cancelUpload_uploads, Hups.
      cbn [updateUpload uploads]. rewrite !map_map.
      apply list_elem_of_fmap. exists (p_upload p). split; [|done].
      rewrite Hid, String.eqb_refl, (proj1 (Hf _)), Hid, String.eqb_refl.
      cbn [patch_status id]. by rewrite (proj1 (Hf _)), Hid, String.eqb_refl.
    - cbn. set_solver. }
  destruct (rejected_by_abort_inv _ _ Hrej) as (e & He & [->|[code ->]]);
    unfold proc_step.
  - destruct Hph as (j & chunks & ub & ->). rewrite Hab. rewrite andb_false_r.
    apply Hend. unfold isAborted. by rewrite He.
  - rewrite Hph. cbn [uploadImageDirect_settle]. unfold uploadImageDirect_catch.
    rewrite He. cbn [String.eqb]. apply Hend. done.
Qed.

End RunFacts.

Module AddFacts.
Import UploadManager.

Lemma addUploads_loop_spec env folder user files :
  forall k heap r heap' opened,
    addUploads_loop env folder user files k heap = (r, heap', opened) ->
    exists n, heap' = heap ++ replicate n false /\
      match r with
      | Ok new =>
          opened = filter (fun f => f_size f <> 0) files /\
          map file new = opened /\
          map fileId new = imap (fun j f => match initializeUploadSession env (k + j) f with
                                            | Ok session => Some session
                                            | Throw _ => None
                                            end) opened /\
          map abortController new = map Some (seq (length heap) n) /\
          length new = n /\
          Forall (new_record folder user) new
      | Throw e =>
          exists j f, initializeUploadSession env j f = Throw e /\
                      last opened = Some f
      end.
Proof.
  induction files as [|f rest IH]; intros k heap r heap' opened; cbn [addUploads_loop].
  - intros [= <- <- <-]. exists 0%nat. cbn. by rewrite app_nil_r.
  - rewrite filter_cons.
    destruct (Z.eqb_spec (f_size f) 0) as [Hz|Hnz].
    { rewrite decide_False by (intros Hne; by apply Hne). apply IH. }
    rewrite decide_True by done.
    destruct (initializeUploadSession env k f) as [session|e] eqn:Es.
    + cbn [new_controller].
      destruct (addUploads_loop env folder user rest (S k) _) as [[r1 heap2] opened1] eqn:E.
      apply IH in E as (n & -> & Hr). intros [= <- <- <-].
      exists (S n). split; [by rewrite <- app_assoc|].
      destruct r1 as [new|e].
      * destruct Hr as (-> & Hfile & Hfid & Hctl & Hlen & Hnew).
        split; [done|]. cbn [map]. split; [by rewrite Hfile|]. split; [|split; [|split]].
        -- cbn [imap]. rewrite Nat.add_0_r, Es. f_equal. rewrite Hfid.
           apply imap_ext. intros j x _. cbn. by rewrite Nat.add_succ_r.
        -- cbn [seq map]. f_equal. rewrite Hctl, length_app. cbn [length].
           by rewrite Nat.add_1_r.
        -- cbn [length]. by rewrite Hlen.
        -- constructor; [|done]. by repeat split.
      * destruct Hr as (j & f' & Hj & Hlast). exists j, f'. split; [done|].
        destruct opened1; [done|]. done.
    + intros [= <- <- <-]. exists 0%nat. split; [by rewrite app_nil_r|].
      by exists k, f.
Qed.

(** X25. [addUploads] adds all the records or none.  When every session is
    opened, the list grows by one pending record for each file that is not
    empty, in the order of the files, each at chunk 0 with its retry count
    at 0, the id of its own session and a controller of its own that is not
    aborted.  When the user id is missing nothing is done at all; when a
    session cannot be opened the call fails with the message of that
    failure and no record is added, not even for the files whose sessions
    were opened before.  The active set is never touched. *)
Theorem addUploads_all_or_nothing (env : AddEnv) (files : list File)
    (folder user : option string) (m : Manager) (r : Result unit) (m' : Manager)
    (opened : list File) :
  addUploads env files folder user m = (r, m', opened) ->
  activeUploads m' = activeUploads m /\
  (exists n, controllers m' = controllers m ++ replicate n false) /\
  match r with
  | Ok _ =>
      falsy user = false /\
      opened = filter (fun f => f_size f <> 0) files /\
      exists new,
        uploads m' = uploads m ++ new /\
        map file new = opened /\
        map fileId new = imap (fun j f => match initializeUploadSession env j f with
                                          | Ok session => Some session
                                          | Throw _ => None
                                          end) opened /\
        map abortController new =
          map Some (seq (length (controllers m)) (length new)) /\
        length (controllers m') = (length (controllers m) + length new)%nat /\
        Forall (new_record folder (default "" user)) new
  | Throw e =>
      uploads m' = uploads m /\
      (falsy user = true /\ m' = m /\ opened = [] /\
       e = Error "User ID is required for uploads" \/
       falsy user = false /\
       exists j f e0, initializeUploadSession env j f = Throw e0 /\
                      last opened = Some f /\
                      e = Error ("Failed to add uploads: " +:+ err_message e0))
  end.
Proof.
  unfold addUploads. destruct (falsy user) eqn:Hu.
  - intros [= <- <- <-]. split; [done|]. split; [exists 0%nat; by rewrite app_nil_r|].
    split; [done|]. by left.
  - destruct (addUploads_loop _ _ _ _ _ _) as [[r1 heap] op] eqn:E.
    apply addUploads_loop_spec in E as (n & -> & Hr).
    destruct r1 as [new|e0]; intros [= <- <- <-]; cbn [uploads activeUploads controllers].
    + split; [done|]. split; [by exists n|]. split; [done|].
      destruct Hr as (-> & Hfile & Hfid & Hctl & Hlen & Hnew).
      split; [done|]. exists new. split; [done|]. split; [done|].
      split; [exact Hfid|]. split; [by rewrite Hlen|]. split; [|done].
      by rewrite length_app, length_replicate, Hlen.
    + split; [done|]. split; [by exists n|]. split; [done|]. right. split; [done|].
      destruct Hr as (j & f & Hj & Hlast). by exists j, f, e0.
Qed.

End AddFacts.

Module StatsFacts.
Import UploadManager.

Lemma count_status_cons (s : UploadStatus) (u : UploadFile) (us : list UploadFile) :
  count_status s (u :: us) =
  (if bool_decide (status u = s) then 1 else 0) + count_status s us.
Proof.
  unfold count_status. rewrite filter_cons.
  destruct (bool_decide_reflect (status u = s)) as [H|H].
  - rewrite decide_True by done. cbn [length]. lia.
  - rewrite decide_False by (by intros []). lia.
Qed.

Lemma count_status_total (us : list UploadFile) :
  count_status st_pending us + count_status st_uploading us + count_status st_paused us
  + count_status st_completed us + count_status st_error us + count_status st_cancelled us
  = Z.of_nat (length us).
Proof.
  induction us as [|u us IH]; [done|]. rewrite !count_status_cons. cbn [length].
  destruct (status u); repeat case_bool_decide; try done; lia.
Qed.

Lemma count_status_nonneg (s : UploadStatus) (us : list UploadFile) :
  0 <= count_status s us.
Proof. unfold count_status. lia. Qed.

(** The accumulator after the records [us], started from [acc]. *)
Lemma stats_fold (us : list UploadFile) :
  forall acc,
    let r := foldl stats_step acc us in
    s_total r = s_total acc + Z.of_nat (length us) /\
    s_pending r = s_pending acc + count_status st_pending us /\
    s_uploading r = s_uploading acc + count_status st_uploading us /\
    s_paused r = s_paused acc + count_status st_paused us /\
    s_completed r = s_completed acc + count_status st_completed us /\
    s_error r = s_error acc + count_status st_error us /\
    s_cancelled r = s_cancelled acc + count_status st_cancelled us /\
    (Forall (fun u => 0 <= size u) us ->
     s_totalSize acc <= s_totalSize r /\
     s_completedSize acc <= s_completedSize r /\
     s_completedSize r - s_completedSize acc <= s_totalSize r - s_totalSize acc).
Proof.
  induction us as [|u us IH]; intros acc.
  - cbn. unfold count_status. cbn. repeat split; lia.
  - cbn [foldl]. cbn zeta. destruct (IH (stats_step acc u))
      as (H1 & H2 & H3 & H4 & H5 & H6 & H7 & H8).
    cbn zeta in *. set (r := foldl stats_step (stats_step acc u) us) in *.
    rewrite !count_status_cons. cbn [length].
    unfold stats_step in H1, H2, H3, H4, H5, H6, H7, H8.
    cbn [s_total s_pending s_uploading s_paused s_completed s_error s_cancelled
         s_totalSize s_completedSize] in H1, H2, H3, H4, H5, H6, H7, H8.
    split; [lia|].
    split; [destruct (bool_decide (status u = st_pending)); lia|].
    split; [destruct (bool_decide (status u = st_uploading)); lia|].
    split; [destruct (bool_decide (status u = st_paused)); lia|].
    split; [destruct (bool_decide (status u = st_completed)); lia|].
    split; [destruct (bool_decide (status u = st_error)); lia|].
    split; [destruct (bool_decide (status u = st_cancelled)); lia|].
    intros Hall. apply Forall_cons in Hall as [Hu Hall]. specialize (H8 Hall).
    destruct (bool_decide (status u = st_completed)); lia.
Qed.

Lemma rate_bounds (a n : Z) :
  0 <= a <= n -> 0 < n ->
  (0 <= inject_Z a / inject_Z n * 100)%Q /\
  (inject_Z a / inject_Z n * 100 <= 100)%Q.
Proof.
  intros Ha Hn. destruct n as [|n|n]; try lia.
  unfold Qle, Qdiv, Qmult, Qplus, Qinv, inject_Z. cbn.
  repeat split; nia.
Qed.

(** X26. [useUploadStats]: each counter is the number of records in that
    state, the six counters add up to [total], which is the number of
    records; with sizes that are not negative the completed size is between
    0 and the total size; each rate is between 0 and 100, and both are 0
    for an empty list. *)
Theorem useUploadStats_spec (us : list UploadFile) :
  let r := useUploadStats us in
  let st := stats r in
  s_total st = Z.of_nat (length us) /\
  (s_pending st = count_status st_pending us /\
   s_uploading st = count_status st_uploading us /\
   s_paused st = count_status st_paused us /\
   s_completed st = count_status st_completed us /\
   s_error st = count_status st_error us /\
   s_cancelled st = count_status st_cancelled us) /\
  s_pending st + s_uploading st + s_paused st + s_completed st + s_error st
    + s_cancelled st = s_total st /\
  (Forall (fun u => 0 <= size u) us -> 0 <= s_completedSize st <= s_totalSize st) /\
  (0 <= completionRate r <= 100)%Q /\ (0 <= errorRate r <= 100)%Q /\
  (us = [] -> completionRate r = 0%Q /\ errorRate r = 0%Q).
Proof.
  cbn zeta. unfold useUploadStats. cbn [stats completionRate errorRate].
  destruct (stats_fold us (mkStats 0 0 0 0 0 0 0 0 0))
    as (H1 & H2 & H3 & H4 & H5 & H6 & H7 & H8).
  cbn zeta in *. cbn [s_total s_pending s_uploading s_paused s_completed s_error
    s_cancelled s_totalSize s_completedSize] in *.
  set (st := foldl stats_step _ us) in *.
  pose proof (count_status_total us) as Htot.
  pose proof (count_status_nonneg st_pending us).
  pose proof (count_status_nonneg st_uploading us).
  pose proof (count_status_nonneg st_paused us).
  pose proof (count_status_nonneg st_completed us).
  pose proof (count_status_nonneg st_error us).
  pose proof (count_status_nonneg st_cancelled us).
  split; [lia|]. split; [repeat split; lia|]. split; [lia|].
  split; [intros Hall; specialize (H8 Hall); lia|].
  destruct (Z.ltb_spec 0 (s_total st)) as [Hpos|Hzero].
  - destruct (rate_bounds (s_completed st) (s_total st)) as (Ha & Hb); try lia.
    destruct (rate_bounds (s_error st) (s_total st)) as (Ha' & Hb'); try lia.
    split; [done|]. split; [done|].
    intros Hus. rewrite Hus in H1. cbn [length] in H1. lia.
  - split; [done|]. split; [done|]. done.
Qed.

Lemma existsb_count (P : UploadFile -> bool) (us : list UploadFile) :
  existsb P us = true <-> (0 < length (filter (fun u => P u) us))%nat.
Proof.
  induction us as [|u us IH]; cbn [existsb]; [cbn; split; [done|lia]|].
  rewrite filter_cons. destruct (P u) eqn:E.
  - rewrite decide_True by done. cbn. split; [lia|done].
  - rewrite decide_False by (by intros []). cbn [orb]. exact IH.
Qed.

Lemma length_filter_or (P Q : UploadFile -> bool) (us : list UploadFile) :
  (forall u, P u = true -> Q u = true -> False) ->
  length (filter (fun u => P u || Q u) us)
  = (length (filter (fun u => P u) us) + length (filter (fun u => Q u) us))%nat.
Proof.
  intros Hdis. induction us as [|u us IH]; [done|]. rewrite !filter_cons.
  specialize (Hdis u).
  destruct (P u) eqn:EP, (Q u) eqn:EQ; cbn [orb];
    try (exfalso; by apply Hdis);
    repeat case_decide; try done; cbn [length]; lia.
Qed.

Lemma sum_progress_bounds (us : list UploadFile) :
  Forall (fun u => (0 <= progress u <= 100)%Q) us ->
  forall acc : Q,
    (acc <= foldl (fun sum u => sum + progress u) acc us)%Q /\
    (foldl (fun sum u => sum + progress u) acc us
     <= acc + 100 * inject_Z (Z.of_nat (length us)))%Q.
Proof.
  induction 1 as [|u us [Hlo Hhi] _ IH]; intros acc.
  - cbn. split; [apply Qle_refl|]. rewrite Qmult_0_r, Qplus_0_r. apply Qle_refl.
  - cbn [foldl length]. destruct (IH (acc + progress u)%Q) as [H1 H2]. split.
    + eapply Qle_trans; [|exact H1].
      rewrite <- (Qplus_0_r acc) at 1. by apply Qplus_le_r.
    + eapply Qle_trans; [exact H2|].
      rewrite Nat2Z.inj_succ, <- Z.add_1_r, inject_Z_plus.
      rewrite Qmult_plus_distr_r, <- Qplus_assoc. apply Qplus_le_r.
      rewrite Qplus_comm. apply Qplus_le_r. by rewrite Qmult_1_r.
Qed.

(** X27. The computed values of the context: [isUploading] holds exactly
    when some record is uploading or pending, that is when
    [activeUploads + queuedUploads] is positive; the total progress is 0 for
    an empty list and, with every progress between 0 and 100, between 0 and
    100. *)
Theorem contextValue_spec (m : Manager) :
  (isUploading m = true <-> (0 < uploading_count m + queuedUploads m)%nat) /\
  (uploads m = [] -> totalProgress m = 0%Q) /\
  (Forall (fun u => (0 <= progress u <= 100)%Q) (uploads m) ->
   (0 <= totalProgress m <= 100)%Q).
Proof.
  split; [|split].
  - unfold isUploading, uploading_count, queuedUploads.
    rewrite existsb_count, length_filter_or; [done|].
    intros u H1 H2. apply bool_decide_eq_true in H1, H2. congruence.
  - unfold totalProgress. by intros ->.
  - intros Hall. unfold totalProgress.
    destruct (Nat.ltb_spec 0 (length (uploads m))) as [Hpos|_]; [|done].
    destruct (sum_progress_bounds _ Hall 0%Q) as [Hlo Hhi].
    assert (Hn : (0 < inject_Z (Z.of_nat (length (uploads m))))%Q).
    { unfold Qlt, inject_Z. cbn. lia. }
    split.
    + apply Qle_shift_div_l; [done|]. by rewrite Qmult_0_l.
    + apply Qle_shift_div_r; [done|]. by rewrite Qplus_0_l in Hhi.
Qed.

End StatsFacts.

(** * The further theorems at sample inputs *)

Lemma fetchWithRetry_network_failure_witness :
  exists w',
    @fetchWithRetry (failing_backend 20) (ReqGetFile "doc0") 60000 None
      default_retryStatuses 4 1000 offline_world
    = (Throw (TypeError "fetch failed"), w') /\
    length (sent w') = 5%nat.
Proof.
  destruct (@fetchWithRetry_network_failure (failing_backend 20) (ReqGetFile "doc0")
              60000 None default_retryStatuses 4 1000 (TypeError "fetch failed")
              offline_world I) as (w' & times & Hrun & Hlen & Hsent).
  { intros s t. exists 20%N, tt. split; reflexivity. }
  exists w'. split; [exact Hrun|].
  rewrite Hsent, length_app, length_map, Hlen. reflexivity.
Defined.

Lemma fetchWithRetry_timeouts_witness :
  exists w' e,
    @fetchWithRetry silent_backend (ReqGetFile "doc0") 60000 None
      default_retryStatuses 4 1000 silent_world = (Throw e, w') /\
    err_name e = "AbortError" /\ length (sent w') = 5%nat /\ 300000 <= now w'.
Proof.
  destruct (@fetchWithRetry_timeouts silent_backend (ReqGetFile "doc0") 60000 None
              default_retryStatuses 4 1000 silent_world I ltac:(reflexivity))
    as (w' & times & e & Hrun & Hname & _ & Hlen & Hsent & Hnow).
  { intros s t. exists tt. reflexivity. }
  exists w', e. split; [exact Hrun|]. split; [exact Hname|]. split; [|exact Hnow].
  rewrite Hsent, length_app, length_map, Hlen. reflexivity.
Defined.

Lemma uploadFile_cancellation_witness :
  exists r w',
    @uploadFile standin_crypto (fixed_status_backend 503 20) sample_plain "notes.txt"
      (Some abort_at_500) busy_world = (r, w') /\
    now w' = 500 /\ length (sent w') = 1%nat /\
    exists e, r = Throw e /\ err_name e = "AbortError".
Proof.
  destruct (@uploadFile standin_crypto (fixed_status_backend 503 20) sample_plain
              "notes.txt" (Some abort_at_500) busy_world) as [r w'] eqn:Hrun.
  exists r, w'. split; [reflexivity|].
  destruct (@uploadFile_cancellation standin_crypto (fixed_status_backend 503 20)
              sample_plain "notes.txt" abort_at_500 500 busy_world r w' eq_refl Hrun)
    as (_ & Hsettle & _).
  vm_compute in Hrun. injection Hrun as <- <-.
  destruct Hsettle as [Hnow Herr]. split; [exact Hnow|]. split; [reflexivity|exact Herr].
Defined.

Lemma uploadFile_documents_witness :
  exists r w',
    @uploadFile standin_crypto (faithful_backend 20) sample_plain "notes.txt" None
      empty_world = (r, w') /\
    Forall (@upload_document (faithful_backend 20)) (sent w').
Proof.
  destruct (@uploadFile standin_crypto (faithful_backend 20) sample_plain "notes.txt"
              None empty_world) as [r w'] eqn:Hrun.
  exists r, w'. split; [reflexivity|].
  destruct (@uploadFile_documents standin_crypto (faithful_backend 20) sample_plain
              "notes.txt" None empty_world r w' standin_crypto_laws Hrun)
    as [(new & Hsent & Hnew) _].
  rewrite Hsent. exact Hnew.
Defined.

Lemma downloadFileByChunks_requests_witness :
  exists r w',
    @downloadFileByChunks standin_crypto (faithful_backend 20) "file" [tampered_chunk]
      tampered_world = (r, w') /\
    Forall (@download_request [tampered_chunk]) (sent w').
Proof.
  destruct (@downloadFileByChunks standin_crypto (faithful_backend 20) "file"
              [tampered_chunk] tampered_world) as [r w'] eqn:Hrun.
  exists r, w'. split; [reflexivity|].
  destruct (@downloadFileByChunks_requests standin_crypto (faithful_backend 20) "file"
              [tampered_chunk] tampered_world r w' Hrun) as (new & Hsent & Hnew & _).
  rewrite Hsent. exact Hnew.
Defined.

Lemma downloadFileByChunks_failure_witness :
  exists e w',
    @downloadFileByChunks standin_crypto (faithful_backend 20) "file" [tampered_chunk]
      tampered_world = (Throw e, w') /\
    names_chunk [tampered_chunk] e.
Proof.
  destruct (@downloadFileByChunks standin_crypto (faithful_backend 20) "file"
              [tampered_chunk] tampered_world) as [[b|e] w'] eqn:Hrun;
    [vm_compute in Hrun; discriminate|].
  exists e, w'. split; [reflexivity|].
  destruct (@downloadFileByChunks_failure standin_crypto (faithful_backend 20) "file"
              [tampered_chunk] tampered_world (Throw e) w' Hrun) as [Hname _].
  exact (Hname e eq_refl).
Defined.

Lemma upload_POST_replies_witness :
  exists reply w',
    @upload_POST standin_crypto (faithful_backend 20) (Ok sample_form) never_abort
      empty_world = (Ok reply, w') /\
    Forall (@upload_document (faithful_backend 20)) (sent w').
Proof.
  destruct (@upload_POST standin_crypto (faithful_backend 20) (Ok sample_form)
              never_abort empty_world) as [r w'] eqn:Hrun.
  destruct (@upload_POST_replies standin_crypto (faithful_backend 20) (Ok sample_form)
              never_abort empty_world r w' standin_crypto_laws Hrun)
    as (reply & -> & (new & Hsent & Hnew) & _).
  exists reply, w'. split; [reflexivity|]. rewrite Hsent. exact Hnew.
Defined.

Lemma upload_chunk_POST_limits_witness :
  exists reply w',
    @upload_chunk_POST standin_crypto (faithful_backend 20) decimal (Ok sample_chunk_form)
      empty_world = (Ok reply, w') /\
    Forall (@upload_document (faithful_backend 20)) (sent w').
Proof.
  destruct (@upload_chunk_POST standin_crypto (faithful_backend 20) decimal
              (Ok sample_chunk_form) empty_world) as [r w'] eqn:Hrun.
  destruct (@upload_chunk_POST_limits standin_crypto (faithful_backend 20) decimal
              (Ok sample_chunk_form) empty_world r w' standin_crypto_laws Hrun)
    as (reply & -> & (new & Hsent & Hnew) & _).
  exists reply, w'. split; [reflexivity|]. rewrite Hsent. exact Hnew.
Defined.

Lemma upload_download_routes_witness :
  exists result w1 reply w3,
    @upload_POST standin_crypto (faithful_backend 20) (Ok sample_form) never_abort
      empty_world = (Ok (json 200 (BodyUpload result)), w1) /\
    @download_POST standin_crypto (faithful_backend 20)
      (Ok {| dl_fileId := Some (telegramStorageId result);
             dl_chunks := Some (chunks result) |}) w1 = (Ok reply, w3) /\
    http_status reply = 200 /\ http_body reply = BodyBytes sample_plain.
Proof.
  destruct (@upload_download_routes standin_crypto 20 sample_form sample_plain
              "notes.txt" never_abort empty_world standin_crypto_laws
              ltac:(reflexivity) eq_refl eq_refl) as (result & w1 & Hup & Hdown).
  destruct (Hdown w1 ltac:(reflexivity)) as (reply & w3 & Hd & Hst & Hbody).
  exists result, w1, reply, w3. split; [exact Hup|]. split; [exact Hd|].
  split; [exact Hst|exact Hbody].
Defined.





Lemma pauseUpload_spec_witness :
  exists u,
    UploadManager.uploads (UploadManager.mgr UploadManager.sample_queued) !! 0%nat
      = Some u /\
    UploadManager.status u = UploadManager.st_uploading /\
    UploadManager.uploads
      (UploadManager.pauseUpload "upload_0"
         (UploadManager.mgr UploadManager.sample_queued)) !! 0%nat
      = Some (UploadManager.patch_paused 5 u).
Proof.
  destruct (UploadManager.uploads (UploadManager.mgr UploadManager.sample_queued)
              !! 0%nat) as [u|] eqn:Hu; [|vm_compute in Hu; discriminate].
  exists u. split; [reflexivity|].
  assert (Hst : UploadManager.status u = UploadManager.st_uploading).
  { vm_compute in Hu. injection Hu as <-. reflexivity. }
  split; [exact Hst|].
  destruct (ButtonFacts.pauseUpload_spec (UploadManager.mgr UploadManager.sample_queued)
              "upload_0" 0 u) as [Hp _].
  - apply (bool_decide_unpack _). vm_compute. reflexivity.
  - exact Hu.
  - vm_compute in Hu. injection Hu as <-. reflexivity.
  - destruct (Hp Hst) as [-> _]. cbn [UploadManager.uploads].
    apply list_lookup_insert_eq. apply lookup_lt_Some in Hu. exact Hu.
Defined.

Lemma cancelUpload_spec_witness :
  UploadManager.cancelUpload "upload_9" (UploadManager.mgr UploadManager.sample_queued)
  = UploadManager.mgr UploadManager.sample_queued.
Proof.
  destruct (ButtonFacts.cancelUpload_spec (UploadManager.mgr UploadManager.sample_queued)
              "upload_9") as [_ Hnone].
  - apply (bool_decide_unpack _). vm_compute. reflexivity.
  - apply Hnone. vm_compute. reflexivity.
Defined.

Lemma retryUpload_spec_witness :
  UploadManager.retryUpload "upload_0" UploadManager.failed_manager
  = UploadManager.mkManager
      [UploadManager.patch_retried 1 1 UploadManager.sample_failed] ∅ [false; false].
Proof.
  destruct (ButtonFacts.retryUpload_spec UploadManager.failed_manager "upload_0" 0
              UploadManager.sample_failed) as [Hretry _].
  - apply (bool_decide_unpack _). vm_compute. reflexivity.
  - reflexivity.
  - reflexivity.
  - destruct Hretry as [-> _]; [reflexivity|vm_compute; reflexivity|reflexivity].
Defined.

Lemma removeUpload_spec_witness :
  UploadManager.find_upload "upload_0"
    (UploadManager.uploads
       (UploadManager.removeUpload "upload_0" UploadManager.failed_manager)) = None /\
  UploadManager.controllers
    (UploadManager.removeUpload "upload_0" UploadManager.failed_manager) = [true].
Proof.
  destruct (ButtonFacts.removeUpload_spec UploadManager.failed_manager "upload_0" 0
              UploadManager.sample_failed) as (Heq & Hfind & _).
  - apply (bool_decide_unpack _). vm_compute. reflexivity.
  - reflexivity.
  - reflexivity.
  - split; [exact Hfind|]. rewrite Heq. reflexivity.
Defined.

Lemma chunk_request_budget_witness :
  exists m1 p calls0 m2 p2 calls,
    UploadManager.processUpload_start "upload_0" 0 UploadManager.sample_added
      = (m1, Some p, calls0) /\
    UploadManager.proc_run p UploadManager.four_failures m1 = (m2, p2, calls) /\
    UploadManager.p_phase p2 = UploadManager.Finished /\
    (UploadManager.chunk_requests 0 (calls0 ++ calls) <= 4)%nat.
Proof.
  destruct (UploadManager.processUpload_start "upload_0" 0 UploadManager.sample_added)
    as [[m1 [p|]] calls0] eqn:Hstart; [|vm_compute in Hstart; discriminate].
  destruct (UploadManager.proc_run p UploadManager.four_failures m1)
    as [[m2 p2] calls] eqn:Hrun.
  exists m1, p, calls0, m2, p2, calls. split; [reflexivity|]. split; [exact Hrun|].
  split.
  - vm_compute in Hstart. injection Hstart as <- <- <-.
    vm_compute in Hrun. injection Hrun as <- <- <-. reflexivity.
  - exact (RunFacts.chunk_request_budget "upload_0" 0 UploadManager.sample_added m1 p
             calls0 UploadManager.four_failures m2 p2 calls 0 Hstart Hrun).
Defined.

Lemma uninterrupted_run_witness :
  exists m1 p calls0 m2 p2 calls,
    UploadManager.processUpload_start "upload_0" 0 UploadManager.resumed_manager
      = (m1, Some p, calls0) /\
    UploadManager.proc_run p
      (UploadManager.all_stored UploadManager.two_stored
         (fun k => 1000 * (Z.of_nat k + 1))) m1 = (m2, p2, calls) /\
    UploadManager.p_phase p2 = UploadManager.AwaitRecord /\
    calls0 ++ calls =
      map (UploadManager.chunk_call UploadManager.sample_resumed) (seqZ 1 2) ++
      [UploadManager.CallRecord "upload_0" (Some "file_0")
         (None :: map Some UploadManager.two_stored)].
Proof.
  destruct (RunFacts.uninterrupted_run UploadManager.resumed_manager
              UploadManager.sample_resumed 0 UploadManager.two_stored
              (fun k => 1000 * (Z.of_nat k + 1)))
    as (m1 & p & calls0 & m2 & p2 & calls & u2 & Hstart & Hrun & Hph & Hcalls & _).
  - vm_compute. reflexivity.
  - vm_compute. reflexivity.
  - reflexivity.
  - reflexivity.
  - vm_compute. reflexivity.
  - vm_compute. discriminate.
  - vm_compute. reflexivity.
  - exists m1, p, calls0, m2, p2, calls.
    split; [exact Hstart|]. split; [exact Hrun|]. split; [exact Hph|exact Hcalls].
Defined.

Lemma cancelled_run_ends_paused_witness :
  exists m1 p calls0 m3 p3 calls3,
    UploadManager.processUpload_start "upload_0" 0 UploadManager.sample_added
      = (m1, Some p, calls0) /\
    UploadManager.proc_step p UploadManager.rejected_as_aborted 50
      (UploadManager.cancelUpload "upload_0" m1) = (m3, p3, calls3) /\
    (forall v, v ∈ UploadManager.uploads m3 -> UploadManager.id v = "upload_0" ->
               UploadManager.status v = UploadManager.st_paused) /\
    UploadManager.p_phase p3 = UploadManager.Finished.
Proof.
  destruct (UploadManager.processUpload_start "upload_0" 0 UploadManager.sample_added)
    as [[m1 [p|]] calls0] eqn:Hstart; [|vm_compute in Hstart; discriminate].
  destruct (UploadManager.proc_step p UploadManager.rejected_as_aborted 50
              (UploadManager.cancelUpload "upload_0" m1)) as [[m3 p3] calls3] eqn:Hstep.
  exists m1, p, calls0, m3, p3, calls3. split; [reflexivity|]. split; [exact Hstep|].
  destruct (RunFacts.cancelled_run_ends_paused "upload_0" 0 50
              UploadManager.sample_added m1 m3 p p3 calls0 calls3
              UploadManager.rejected_as_aborted 0 Hstart)
    as (_ & Hpaused & _ & Hph & _).
  - vm_compute in Hstart. injection Hstart as <- <- <-. reflexivity.
  - vm_compute in Hstart. injection Hstart as <- <- <-. reflexivity.
  - vm_compute. lia.
  - exact Hstep.
  - split; [exact Hpaused|exact Hph].
Defined.

Lemma addUploads_all_or_nothing_witness :
  exists m' opened,
    UploadManager.addUploads UploadManager.sample_env UploadManager.sample_files None
      (Some "user") (UploadManager.mgr UploadManager.initial) = (Ok tt, m', opened) /\
    opened = UploadManager.sample_files /\
    length (UploadManager.uploads m') = 5%nat /\
    UploadManager.controllers m' = replicate 5 false.
Proof.
  destruct (UploadManager.addUploads UploadManager.sample_env UploadManager.sample_files
              None (Some "user") (UploadManager.mgr UploadManager.initial))
    as [[[[]|e] m'] opened] eqn:Hadd; [|vm_compute in Hadd; discriminate].
  exists m', opened. split; [reflexivity|].
  destruct (AddFacts.addUploads_all_or_nothing _ _ _ _ _ _ _ _ Hadd)
    as (_ & _ & _ & Hopened & _).
  split; [rewrite Hopened; reflexivity|].
  vm_compute in Hadd. injection Hadd as <- <-. split; reflexivity.
Defined.

